(** * Loan management system: lifecycle and amortization engine

    A shallow embedding of the back end of the loan management system
    (Express controllers over Mongoose models) and the proofs of the
    properties of its specification.

    Conventions of the embedding.
    - A JavaScript [Number] is an IEEE 754 binary64.  The model carries the
      rational value of a finite number ([Q]) and rounds the result of every
      arithmetic operation to the nearest binary64, ties to even ([double]).
      A division by zero has no finite result: [jsdiv] returns [NaN] for
      [0 / 0] and an infinity otherwise.  Nothing is computed from an infinity
      or from [NaN]: the one division of the code whose divisor can be zero is
      the last operation of the EMI formula, and the run that would store an
      infinite EMI is where the model stops (see [InfiniteEmi]).  Overflow,
      which takes magnitudes above [1.7e308], is outside the model.
    - A [Date] is the local calendar date (year, month 0..11, day of month);
      the time of day is dropped.  The only comparison of dates in the code,
      [dueDate < today], has [today] at local midnight, so it is decided by the
      calendar dates alone.
    - A Mongo collection is the list of its documents, an [ObjectId] a natural
      number, [new Date()] an argument [now] of the operation.
    - A controller is a function from the store and the request to a
      [Result]: the new store on success, the kind of failure when the
      request is refused before anything is written, and the failure together
      with the store as it is left when an exception is raised after a write.
    - The numbers that a request carries are binary64 already (they come
      out of [JSON.parse]); the model takes them as they are given.
    - [doc.save()] writes the document back after its [pre('save')] hook and
      its validation.  Of the range checks of the schemas the model has the
      one on a field that a controller computes, the [min: 0] of
      [outstandingAmount] (see [ValidationFailed]); the others bear on fields
      that are copied from the request or from documents saved before.  A
      number that is not a number cannot be stored at all, and the one
      operation that can compute one fails there (see [NotANumber]). *)

From Stdlib Require Import ZArith QArith Qround Qabs Qpower List String Bool Lia Lqa.
From Stdlib Require Import Floats.
Import ListNotations.

Open Scope Z_scope.

(** ** JavaScript numbers *)

(** The binary64 nearest to a rational, ties to even.  A binary64 is
    [m * 2 ^ e] with [|m| < 2 ^ 53] and [-1074 <= e]: the exponent [e] is
    chosen so that the quotient [m] of the number by [2 ^ e] has 53 bits (or
    is the least exponent, for a subnormal), and the remainder decides the
    rounding of [m]. *)
Definition double (q : Q) : Q :=
  let n := Qnum q in
  let d := Z.pos (Qden q) in
  if n =? 0 then 0%Q
  else
    let a := Z.abs n in
    let scaled e := if 0 <=? e then (a, d * 2 ^ e) else (a * 2 ^ (- e), d) in
    let e0 := Z.log2 a - Z.log2 d - 52 in
    let e1 := let '(x, y) := scaled e0 in
              if x / y <? 2 ^ 52 then e0 - 1 else e0 in
    let e := Z.max e1 (-1074) in
    let '(x, y) := scaled e in
    let m := x / y in
    let r := x mod y in
    let m' := if 2 * r <? y then m
              else if y <? 2 * r then m + 1
              else if Z.even m then m else m + 1 in
    let v := Z.sgn n * m' in
    if 0 <=? e then inject_Z (v * 2 ^ e)
    else Qred (v # Z.to_pos (2 ^ (- e))).

(** [a + b], [a - b], [a * b] and, for a divisor that is not zero, [a / b]. *)
Definition jsadd (a b : Q) : Q := double (a + b)%Q.
Definition jssub (a b : Q) : Q := double (a - b)%Q.
Definition jsmul (a b : Q) : Q := double (a * b)%Q.
Definition jsquot (a b : Q) : Q := double (a / b)%Q.

(** The result of a division: a finite number, an infinity or [NaN]. *)
Inductive Quotient :=
| Finite (q : Q)
| Infinity (negative : bool)
| NaN.

(** [a / b].  A divisor that is zero is taken to be [+0]; it is, where the
    code divides by a number that can be zero: by a difference [x - 1]. *)
Definition jsdiv (a b : Q) : Quotient :=
  if Qeq_bool b 0
  then if Qeq_bool a 0 then NaN else Infinity (negb (Qle_bool 0 a))
  else Finite (jsquot a b).

(** [Math.round(x)]: the integer nearest to [x], the greater one of two
    that are equally near. *)
Definition Math_round (x : Q) : Q := inject_Z (Qfloor (x + (1 # 2))).

(** [Math.pow(x, n)] for a whole [n].  ECMAScript leaves the precision of
    [Math.pow] to the implementation; the model takes the binary64 nearest
    to the power. *)
Definition Math_pow (x : Q) (n : nat) : Q := double (x ^ Z.of_nat n).

(** [Math.round(x * 100) / 100]. *)
Definition round2 (x : Q) : Q := jsquot (Math_round (jsmul x 100)) 100.

(** The rounding of the model against the binary64 arithmetic of the
    kernel: an arithmetic expression over whole numbers, its value in the
    model and its value as a primitive float. *)
Inductive NumExpr :=
| Whole (z : Z)
| Plus (a b : NumExpr)
| Minus (a b : NumExpr)
| Times (a b : NumExpr)
| Over (a b : NumExpr).

Fixpoint modelValue (e : NumExpr) : Q :=
  match e with
  | Whole z => inject_Z z
  | Plus a b => jsadd (modelValue a) (modelValue b)
  | Minus a b => jssub (modelValue a) (modelValue b)
  | Times a b => jsmul (modelValue a) (modelValue b)
  | Over a b => jsquot (modelValue a) (modelValue b)
  end.

Fixpoint floatValue (e : NumExpr) : float :=
  match e with
  | Whole z =>
      if z <? 0 then PrimFloat.opp (PrimFloat.of_uint63 (Uint63.of_Z (- z)))
      else PrimFloat.of_uint63 (Uint63.of_Z z)
  | Plus a b => PrimFloat.add (floatValue a) (floatValue b)
  | Minus a b => PrimFloat.sub (floatValue a) (floatValue b)
  | Times a b => PrimFloat.mul (floatValue a) (floatValue b)
  | Over a b => PrimFloat.div (floatValue a) (floatValue b)
  end.

(** The rational that a finite binary64 denotes, in lowest terms. *)
Definition rationalOf (f : float) : option Q :=
  match Prim2SF f with
  | S754_zero _ => Some 0%Q
  | S754_finite s m e =>
      let v := if s then Z.neg m else Z.pos m in
      Some (if 0 <=? e then inject_Z (v * 2 ^ e)
            else Qred (v # Z.to_pos (2 ^ (- e))))
  | _ => None
  end.

Definition sameNumber (e : NumExpr) : bool :=
  match rationalOf (floatValue e) with
  | Some q =>
      (Qnum q =? Qnum (modelValue e))
      && Pos.eqb (Qden q) (Qden (modelValue e))
  | None => false
  end.

(** The computations of the controllers on sample figures: monthly rates,
    the interest of a month, the EMI formula over one month, LTV ratios,
    the totals of a payment, and some ties. *)
Definition sampleExpressions : list NumExpr :=
  let rate r := Over (Over (Whole r) (Whole 12)) (Whole 100) in
  let cents z := Over (Whole z) (Whole 100) in
  let emi1 a r :=
    Over (Times (Times (Whole a) (rate r)) (Plus (Whole 1) (rate r)))
         (Minus (Plus (Whole 1) (rate r)) (Whole 1)) in
  [ Over (Whole 1) (Whole 10); Over (Whole 1) (Whole 3);
    Over (Whole (-2)) (Whole 3);
    rate 6; rate 9; rate 12; rate 48;
    Times (Whole 51205) (rate 6);
    Times (Times (Whole 51205) (rate 6)) (Whole 100);
    Times (Whole 500000) (rate 12);
    Minus (cents 8627418) (Times (Whole 500000) (rate 12));
    emi1 100000 6; emi1 50002 9; emi1 120000 12;
    Times (emi1 50002 9) (Whole 100);
    Times (Over (Whole 550000) (Whole 1000000)) (Whole 100);
    Times (Over (Whole 500000) (Whole 1200000)) (Whole 100);
    Times (Over (Whole 1) (Whole 3)) (Whole 3);
    Plus (Minus (Whole 50000) (cents 1644567)) (cents 1644567);
    Plus (cents 3355433) (cents 1644567);
    Minus (cents 854199) (cents 854200);
    Plus (Over (Whole 1) (Whole 10)) (Over (Whole 2) (Whole 10));
    Plus (Whole 9007199254740992) (Whole 1);
    Plus (Whole 9007199254740992) (Whole 3);
    Minus (Whole (-9007199254740992)) (Whole 1);
    Times (Whole 94906267) (Whole 94906267);
    Times (cents 1200001) (cents 10001);
    Over (Whole 1) (Times (Whole 1125899906842624) (Whole 1125899906842624)) ].

(** ** Dates *)

Record Date := mkDate { year : Z; month : Z; day : Z }.

Definition isLeap (y : Z) : bool :=
  (y mod 4 =? 0) && (negb (y mod 100 =? 0) || (y mod 400 =? 0)).

(** Days of month [m] (0 = January) of year [y]. *)
Definition daysInMonth (y m : Z) : Z :=
  if m =? 1 then (if isLeap y then 29 else 28)
  else if (m =? 3) || (m =? 5) || (m =? 8) || (m =? 10) then 30
  else 31.

Definition validDate (d : Date) : Prop :=
  0 <= month d <= 11 /\ 1 <= day d <= daysInMonth (year d) (month d).

Definition getMonth (d : Date) : Z := month d.

(** [d.setMonth(n)]: the month count [n] is carried into the year, and a day
    of month beyond the end of the target month is carried into the following
    month (31 January + 1 month is 2 or 3 March).  The day of a valid date is
    at most 31 and every month has at least 28 days, so one carry is enough. *)
Definition setMonth (d : Date) (n : Z) : Date :=
  let y := year d + n / 12 in
  let m := n mod 12 in
  let dim := daysInMonth y m in
  if day d <=? dim then mkDate y m (day d)
  else mkDate (y + (m + 1) / 12) ((m + 1) mod 12) (day d - dim).

(** Calendar months since year 0. *)
Definition monthIndex (d : Date) : Z := year d * 12 + month d.

Definition date_lt (a b : Date) : Prop :=
  monthIndex a < monthIndex b \/ (monthIndex a = monthIndex b /\ day a < day b).

Definition date_ltb (a b : Date) : bool :=
  (monthIndex a <? monthIndex b)
  || ((monthIndex a =? monthIndex b) && (day a <? day b)).

(** ** Documents (Mongoose schemas)

    Descriptive fields that no operation reads (names, PAN, ISIN, generated
    numbers, Mongoose timestamps) are left out. *)

Definition ObjectId := nat.

Inductive EmiStatus := emi_pending | emi_paid | emi_overdue | emi_partially_paid.
Inductive LoanStatus :=
  loan_active | loan_overdue | loan_closed | loan_defaulted | loan_restructured.
Inductive ClosureReason :=
  fully_paid | foreclosure | reason_defaulted | reason_restructured.
Inductive LienStatus := lien_none | lien_marked | lien_released.
Inductive AppStatus :=
  app_draft | app_submitted | app_under_review | app_approved | app_rejected
| app_disbursed | app_closed.
Inductive ProductStatus := product_active | product_inactive.

Definition EmiStatus_eqb (a b : EmiStatus) : bool :=
  match a, b with
  | emi_pending, emi_pending | emi_paid, emi_paid
  | emi_overdue, emi_overdue | emi_partially_paid, emi_partially_paid => true
  | _, _ => false
  end.

Definition LoanStatus_eqb (a b : LoanStatus) : bool :=
  match a, b with
  | loan_active, loan_active | loan_overdue, loan_overdue
  | loan_closed, loan_closed | loan_defaulted, loan_defaulted
  | loan_restructured, loan_restructured => true
  | _, _ => false
  end.

Definition LienStatus_eqb (a b : LienStatus) : bool :=
  match a, b with
  | lien_none, lien_none | lien_marked, lien_marked
  | lien_released, lien_released => true
  | _, _ => false
  end.

Definition ObjectId_opt_eqb (a : option ObjectId) (b : ObjectId) : bool :=
  match a with Some x => Nat.eqb x b | None => false end.

(** The names of the statuses, as they travel in request bodies. *)
Definition AppStatus_name (s : AppStatus) : string :=
  match s with
  | app_draft => "draft" | app_submitted => "submitted"
  | app_under_review => "under_review" | app_approved => "approved"
  | app_rejected => "rejected" | app_disbursed => "disbursed"
  | app_closed => "closed"
  end.

Definition LoanStatus_name (s : LoanStatus) : string :=
  match s with
  | loan_active => "active" | loan_overdue => "overdue"
  | loan_closed => "closed" | loan_defaulted => "defaulted"
  | loan_restructured => "restructured"
  end.

(** [names.includes(s)], with the status it names. *)
Fixpoint lookupName {A : Type} (name : A -> string) (l : list A) (s : string)
    : option A :=
  match l with
  | [] => None
  | x :: l' => if String.eqb (name x) s then Some x else lookupName name l' s
  end.

Module Emi.
Record t := mk {
  emiNumber : Z;
  dueDate : Date;
  principal : Q;
  interest : Q;
  totalAmount : Q;
  status : EmiStatus;
  paidAmount : Q;
  paidDate : option Date;
  penaltyAmount : Q;
  paymentReference : option string
}.

Definition set_status (s : EmiStatus) (e : t) : t :=
  mk (emiNumber e) (dueDate e) (principal e) (interest e) (totalAmount e)
     s (paidAmount e) (paidDate e) (penaltyAmount e) (paymentReference e).

Definition set_paidAmount (a : Q) (e : t) : t :=
  mk (emiNumber e) (dueDate e) (principal e) (interest e) (totalAmount e)
     (status e) a (paidDate e) (penaltyAmount e) (paymentReference e).

Definition set_paidDate (d : option Date) (e : t) : t :=
  mk (emiNumber e) (dueDate e) (principal e) (interest e) (totalAmount e)
     (status e) (paidAmount e) d (penaltyAmount e) (paymentReference e).

Definition set_paymentReference (r : option string) (e : t) : t :=
  mk (emiNumber e) (dueDate e) (principal e) (interest e) (totalAmount e)
     (status e) (paidAmount e) (paidDate e) (penaltyAmount e) r.
End Emi.

Module Loan.
Record t := mk {
  _id : ObjectId;
  application : ObjectId;
  loanProduct : ObjectId;
  disbursedAmount : Q;
  outstandingAmount : Q;
  tenure : nat;
  interestRate : Q;
  emiAmount : Q;
  nextEmiDate : option Date;
  collaterals : list ObjectId;
  totalCollateralValue : Q;
  currentLTV : Q;
  status : LoanStatus;
  emiSchedule : list Emi.t;
  totalPrincipalPaid : Q;
  totalInterestPaid : Q;
  disbursedAt : Date;
  closedAt : option Date;
  closureReason : option ClosureReason
}.

Definition set_outstandingAmount (x : Q) (l : t) : t :=
  mk (_id l) (application l) (loanProduct l) (disbursedAmount l) x
     (tenure l) (interestRate l) (emiAmount l) (nextEmiDate l)
     (collaterals l) (totalCollateralValue l) (currentLTV l) (status l)
     (emiSchedule l) (totalPrincipalPaid l) (totalInterestPaid l)
     (disbursedAt l) (closedAt l) (closureReason l).

Definition set_nextEmiDate (x : option Date) (l : t) : t :=
  mk (_id l) (application l) (loanProduct l) (disbursedAmount l)
     (outstandingAmount l) (tenure l) (interestRate l) (emiAmount l) x
     (collaterals l) (totalCollateralValue l) (currentLTV l) (status l)
     (emiSchedule l) (totalPrincipalPaid l) (totalInterestPaid l)
     (disbursedAt l) (closedAt l) (closureReason l).

Definition set_currentLTV (x : Q) (l : t) : t :=
  mk (_id l) (application l) (loanProduct l) (disbursedAmount l)
     (outstandingAmount l) (tenure l) (interestRate l) (emiAmount l)
     (nextEmiDate l) (collaterals l) (totalCollateralValue l) x (status l)
     (emiSchedule l) (totalPrincipalPaid l) (totalInterestPaid l)
     (disbursedAt l) (closedAt l) (closureReason l).

Definition set_status (x : LoanStatus) (l : t) : t :=
  mk (_id l) (application l) (loanProduct l) (disbursedAmount l)
     (outstandingAmount l) (tenure l) (interestRate l) (emiAmount l)
     (nextEmiDate l) (collaterals l) (totalCollateralValue l) (currentLTV l)
     x (emiSchedule l) (totalPrincipalPaid l) (totalInterestPaid l)
     (disbursedAt l) (closedAt l) (closureReason l).

Definition set_emiSchedule (x : list Emi.t) (l : t) : t :=
  mk (_id l) (application l) (loanProduct l) (disbursedAmount l)
     (outstandingAmount l) (tenure l) (interestRate l) (emiAmount l)
     (nextEmiDate l) (collaterals l) (totalCollateralValue l) (currentLTV l)
     (status l) x (totalPrincipalPaid l) (totalInterestPaid l)
     (disbursedAt l) (closedAt l) (closureReason l).

Definition set_totalPrincipalPaid (x : Q) (l : t) : t :=
  mk (_id l) (application l) (loanProduct l) (disbursedAmount l)
     (outstandingAmount l) (tenure l) (interestRate l) (emiAmount l)
     (nextEmiDate l) (collaterals l) (totalCollateralValue l) (currentLTV l)
     (status l) (emiSchedule l) x (totalInterestPaid l)
     (disbursedAt l) (closedAt l) (closureReason l).

Definition set_totalInterestPaid (x : Q) (l : t) : t :=
  mk (_id l) (application l) (loanProduct l) (disbursedAmount l)
     (outstandingAmount l) (tenure l) (interestRate l) (emiAmount l)
     (nextEmiDate l) (collaterals l) (totalCollateralValue l) (currentLTV l)
     (status l) (emiSchedule l) (totalPrincipalPaid l) x
     (disbursedAt l) (closedAt l) (closureReason l).

Definition set_closedAt (x : option Date) (l : t) : t :=
  mk (_id l) (application l) (loanProduct l) (disbursedAmount l)
     (outstandingAmount l) (tenure l) (interestRate l) (emiAmount l)
     (nextEmiDate l) (collaterals l) (totalCollateralValue l) (currentLTV l)
     (status l) (emiSchedule l) (totalPrincipalPaid l) (totalInterestPaid l)
     (disbursedAt l) x (closureReason l).

Definition set_closureReason (x : option ClosureReason) (l : t) : t :=
  mk (_id l) (application l) (loanProduct l) (disbursedAmount l)
     (outstandingAmount l) (tenure l) (interestRate l) (emiAmount l)
     (nextEmiDate l) (collaterals l) (totalCollateralValue l) (currentLTV l)
     (status l) (emiSchedule l) (totalPrincipalPaid l) (totalInterestPaid l)
     (disbursedAt l) (closedAt l) x.

(** The validation of [save] on the field that the payments compute:
    [outstandingAmount] has [min: 0]. *)
Definition validate (l : t) : bool := Qle_bool 0 (outstandingAmount l).
End Loan.

Module Collateral.
Record t := mk {
  _id : ObjectId;
  folioNumber : string;
  units : Q;
  navPerUnit : Q;
  currentValue : Q;
  lienStatus : LienStatus;
  lienMarkedDate : option Date;
  lienReleasedDate : option Date;
  linkedApplication : option ObjectId;
  linkedLoan : option ObjectId;
  navLastUpdated : Date
}.

Definition set_navPerUnit (x : Q) (c : t) : t :=
  mk (_id c) (folioNumber c) (units c) x (currentValue c) (lienStatus c)
     (lienMarkedDate c) (lienReleasedDate c) (linkedApplication c)
     (linkedLoan c) (navLastUpdated c).

Definition set_currentValue (x : Q) (c : t) : t :=
  mk (_id c) (folioNumber c) (units c) (navPerUnit c) x (lienStatus c)
     (lienMarkedDate c) (lienReleasedDate c) (linkedApplication c)
     (linkedLoan c) (navLastUpdated c).

Definition set_lienStatus (x : LienStatus) (c : t) : t :=
  mk (_id c) (folioNumber c) (units c) (navPerUnit c) (currentValue c) x
     (lienMarkedDate c) (lienReleasedDate c) (linkedApplication c)
     (linkedLoan c) (navLastUpdated c).

Definition set_lienMarkedDate (x : option Date) (c : t) : t :=
  mk (_id c) (folioNumber c) (units c) (navPerUnit c) (currentValue c)
     (lienStatus c) x (lienReleasedDate c) (linkedApplication c)
     (linkedLoan c) (navLastUpdated c).

Definition set_lienReleasedDate (x : option Date) (c : t) : t :=
  mk (_id c) (folioNumber c) (units c) (navPerUnit c) (currentValue c)
     (lienStatus c) (lienMarkedDate c) x (linkedApplication c)
     (linkedLoan c) (navLastUpdated c).

Definition set_linkedApplication (x : option ObjectId) (c : t) : t :=
  mk (_id c) (folioNumber c) (units c) (navPerUnit c) (currentValue c)
     (lienStatus c) (lienMarkedDate c) (lienReleasedDate c) x
     (linkedLoan c) (navLastUpdated c).

Definition set_linkedLoan (x : option ObjectId) (c : t) : t :=
  mk (_id c) (folioNumber c) (units c) (navPerUnit c) (currentValue c)
     (lienStatus c) (lienMarkedDate c) (lienReleasedDate c)
     (linkedApplication c) x (navLastUpdated c).

Definition set_navLastUpdated (x : Date) (c : t) : t :=
  mk (_id c) (folioNumber c) (units c) (navPerUnit c) (currentValue c)
     (lienStatus c) (lienMarkedDate c) (lienReleasedDate c)
     (linkedApplication c) (linkedLoan c) x.

(** The [pre('save')] hook. *)
Definition preSave (c : t) : t :=
  set_currentValue (jsmul (units c) (navPerUnit c)) c.
End Collateral.

Module LoanProduct.
Record t := mk {
  _id : ObjectId;
  interestRate : Q;
  minAmount : Q;
  maxAmount : Q;
  minTenure : nat;
  maxTenure : nat;
  maxLTV : Q;
  processingFee : Q;
  status : ProductStatus
}.
End LoanProduct.

Module LoanApplication.
Record t := mk {
  _id : ObjectId;
  loanProduct : ObjectId;
  requestedAmount : Q;
  approvedAmount : option Q;
  tenure : nat;
  interestRate : Q;
  collaterals : list ObjectId;
  totalCollateralValue : Q;
  ltv : Q;
  status : AppStatus;
  remarks : option string;
  submittedAt : option Date;
  approvedAt : option Date;
  rejectedAt : option Date;
  disbursedAt : option Date;
  closedAt : option Date
}.

Definition set_approvedAmount (x : option Q) (a : t) : t :=
  mk (_id a) (loanProduct a) (requestedAmount a) x (tenure a)
     (interestRate a) (collaterals a) (totalCollateralValue a) (ltv a)
     (status a) (remarks a) (submittedAt a) (approvedAt a) (rejectedAt a)
     (disbursedAt a) (closedAt a).

Definition set_ltv (x : Q) (a : t) : t :=
  mk (_id a) (loanProduct a) (requestedAmount a) (approvedAmount a)
     (tenure a) (interestRate a) (collaterals a) (totalCollateralValue a) x
     (status a) (remarks a) (submittedAt a) (approvedAt a) (rejectedAt a)
     (disbursedAt a) (closedAt a).

Definition set_status (x : AppStatus) (a : t) : t :=
  mk (_id a) (loanProduct a) (requestedAmount a) (approvedAmount a)
     (tenure a) (interestRate a) (collaterals a) (totalCollateralValue a)
     (ltv a) x (remarks a) (submittedAt a) (approvedAt a) (rejectedAt a)
     (disbursedAt a) (closedAt a).

Definition set_remarks (x : option string) (a : t) : t :=
  mk (_id a) (loanProduct a) (requestedAmount a) (approvedAmount a)
     (tenure a) (interestRate a) (collaterals a) (totalCollateralValue a)
     (ltv a) (status a) x (submittedAt a) (approvedAt a) (rejectedAt a)
     (disbursedAt a) (closedAt a).

Definition set_submittedAt (x : option Date) (a : t) : t :=
  mk (_id a) (loanProduct a) (requestedAmount a) (approvedAmount a)
     (tenure a) (interestRate a) (collaterals a) (totalCollateralValue a)
     (ltv a) (status a) (remarks a) x (approvedAt a) (rejectedAt a)
     (disbursedAt a) (closedAt a).

Definition set_approvedAt (x : option Date) (a : t) : t :=
  mk (_id a) (loanProduct a) (requestedAmount a) (approvedAmount a)
     (tenure a) (interestRate a) (collaterals a) (totalCollateralValue a)
     (ltv a) (status a) (remarks a) (submittedAt a) x (rejectedAt a)
     (disbursedAt a) (closedAt a).

Definition set_rejectedAt (x : option Date) (a : t) : t :=
  mk (_id a) (loanProduct a) (requestedAmount a) (approvedAmount a)
     (tenure a) (interestRate a) (collaterals a) (totalCollateralValue a)
     (ltv a) (status a) (remarks a) (submittedAt a) (approvedAt a) x
     (disbursedAt a) (closedAt a).

Definition set_disbursedAt (x : option Date) (a : t) : t :=
  mk (_id a) (loanProduct a) (requestedAmount a) (approvedAmount a)
     (tenure a) (interestRate a) (collaterals a) (totalCollateralValue a)
     (ltv a) (status a) (remarks a) (submittedAt a) (approvedAt a)
     (rejectedAt a) x (closedAt a).

Definition set_closedAt (x : option Date) (a : t) : t :=
  mk (_id a) (loanProduct a) (requestedAmount a) (approvedAmount a)
     (tenure a) (interestRate a) (collaterals a) (totalCollateralValue a)
     (ltv a) (status a) (remarks a) (submittedAt a) (approvedAt a)
     (rejectedAt a) (disbursedAt a) x.

(** The [pre('save')] hook: the LTV is recomputed when there is collateral. *)
Definition preSave (a : t) : t :=
  if Qle_bool (totalCollateralValue a) 0 then a
  else set_ltv (jsmul (jsquot (requestedAmount a) (totalCollateralValue a))
                      100) a.
End LoanApplication.

(** ** EMI schedule (Loan.model.js) *)

(** [monthlyRate = interestRate / 12 / 100]. *)
Definition monthlyRateOf (interestRate : Q) : Q :=
  jsquot (jsquot interestRate 12) 100.

(** The EMI formula of [createLoanFromApplication]:
    [amount * monthlyRate * pow(1 + monthlyRate, tenure)
       / (pow(1 + monthlyRate, tenure) - 1)]. *)
Definition emiFormula (amount monthlyRate : Q) (tenure : nat) : Quotient :=
  jsdiv (jsmul (jsmul amount monthlyRate)
               (Math_pow (jsadd 1 monthlyRate) tenure))
        (jssub (Math_pow (jsadd 1 monthlyRate) tenure) 1).

(** The [for] loop of [generateEmiSchedule], from installment [i] with [n]
    installments to go and the running [balance]. *)
Fixpoint scheduleFrom (emi monthlyRate : Q) (startDate : Date)
    (balance : Q) (i : nat) (n : nat) : list Emi.t :=
  match n with
  | O => []
  | S n' =>
      let interest := jsmul balance monthlyRate in
      let principal := jssub emi interest in
      let balance' := jssub balance principal in
      let dueDate := setMonth startDate (getMonth startDate + Z.of_nat i) in
      Emi.mk (Z.of_nat i) dueDate (round2 principal) (round2 interest)
             (round2 emi) emi_pending 0 None 0 None
        :: scheduleFrom emi monthlyRate startDate balance' (S i) n'
  end.

(** [generateEmiSchedule] on a loan with the given [interestRate],
    [emiAmount], [disbursedAmount], [disbursedAt] and [tenure]. *)
Definition generateEmiSchedule (interestRate emiAmount disbursedAmount : Q)
    (disbursedAt : Date) (tenure : nat) : list Emi.t :=
  scheduleFrom emiAmount (monthlyRateOf interestRate) disbursedAt
               disbursedAmount 1 tenure.

(** ** The store and the results of the controllers *)

Record Store := mkStore {
  productsDb : list LoanProduct.t;
  collateralsDb : list Collateral.t;
  applicationsDb : list LoanApplication.t;
  loansDb : list Loan.t;
  nextId : ObjectId
}.

Definition with_collaterals (cs : list Collateral.t) (st : Store) : Store :=
  mkStore (productsDb st) cs (applicationsDb st) (loansDb st) (nextId st).

Definition with_applications (apps : list LoanApplication.t) (st : Store)
    : Store :=
  mkStore (productsDb st) (collateralsDb st) apps (loansDb st) (nextId st).

Definition with_loans (ls : list Loan.t) (st : Store) : Store :=
  mkStore (productsDb st) (collateralsDb st) (applicationsDb st) ls (nextId st).

Definition initialStore (products : list LoanProduct.t) : Store :=
  mkStore products [] [] [] 0%nat.

(** The failures the controllers answer with. [NotANumber] is the failure of
    [loan.save()] on a loan whose [emiAmount] is not a number: Mongoose cannot
    cast [NaN] into a [Number] path and rejects the document.
    [ValidationFailed] is the failure of [loan.save()] on a loan whose
    [outstandingAmount] is below the [min: 0] of the schema.
    [InfiniteEmi] is not an answer of the code.  It marks the run that the
    model does not follow: an infinity passes the cast and the [min: 0] of
    [emiAmount], so the code goes on to create a loan whose EMI is infinite,
    and the numbers of the model are finite.  The model stops there, and no
    store that it reaches holds such a loan. *)
Inductive Error :=
| LoanNotFound | LoanClosed | EmiNotFound | AlreadyPaid | InvalidStatus
| ApplicationNotFound | InvalidTransition | NotANumber | InfiniteEmi
| ValidationFailed
| CollateralNotFound | AlreadyMarked | NotMarked | ActiveLoanBlock
| DuplicateFolio | InvalidProduct | ProductInactive | AmountOutOfRange
| TenureOutOfRange | InvalidOrPledgedCollateral | LtvExceeded.

(** [Ok]: the answer is a success.  [Err]: the request is refused before
    anything is written.  [Failed]: an exception is raised after a write,
    which is not undone; [store] is the store as it is left. *)
Inductive Result (A : Type) :=
| Ok (a : A)
| Err (e : Error)
| Failed (store : Store) (e : Error).
Arguments Ok {A} a.
Arguments Err {A} e.
Arguments Failed {A} store e.

Definition bind {A B : Type} (r : Result A) (k : A -> Result B) : Result B :=
  match r with
  | Ok a => k a
  | Err e => Err e
  | Failed store e => Failed store e
  end.

Notation "x <- r ;; k" := (bind r (fun x => k))
  (at level 61, r at next level, right associativity).

(** [Model.findById]. *)
Definition findById {A : Type} (idOf : A -> ObjectId) (id : ObjectId)
    (l : list A) : option A :=
  find (fun d => Nat.eqb (idOf d) id) l.

(** [doc.save()] of a document read from the collection. *)
Definition saveDoc {A : Type} (idOf : A -> ObjectId) (d : A) (l : list A)
    : list A :=
  map (fun x => if Nat.eqb (idOf x) (idOf d) then d else x) l.

(** [Model.updateMany(filter, patch)]. *)
Definition updateMany {A : Type} (filter : A -> bool) (patch : A -> A)
    (l : list A) : list A :=
  map (fun x => if filter x then patch x else x) l.

Definition Qltb (a b : Q) : bool := negb (Qle_bool b a).

(** [a || b] on an optional number: [undefined], [null] and [0] are falsy. *)
Definition orNumber (a : option Q) (b : Q) : Q :=
  match a with
  | Some x => if Qeq_bool x 0 then b else x
  | None => b
  end.

(** [a || b] on optional strings: the empty string is falsy. *)
Definition orString (a b : option string) : option string :=
  match a with
  | Some s => if String.eqb s "" then b else a
  | None => b
  end.

(** [array.findIndex(p)] together with the element found there. *)
Fixpoint findIndex {A : Type} (p : A -> bool) (l : list A) : option (nat * A) :=
  match l with
  | [] => None
  | x :: l' =>
      if p x then Some (O, x)
      else match findIndex p l' with
           | Some (i, y) => Some (S i, y)
           | None => None
           end
  end.

(** [array[i] = f(array[i])] for an index inside the array. *)
Fixpoint updateAt {A : Type} (i : nat) (f : A -> A) (l : list A) : list A :=
  match l, i with
  | [], _ => []
  | x :: l', O => f x :: l'
  | x :: l', S i' => x :: updateAt i' f l'
  end.

(** ** Collateral controller *)

Definition createCollateral (st : Store) (folioNumber : string)
    (units navPerUnit : Q) (now : Date) : Result Store :=
  match find (fun c => String.eqb (Collateral.folioNumber c) folioNumber)
             (collateralsDb st) with
  | Some _ => Err DuplicateFolio
  | None =>
      let collateral :=
        Collateral.preSave
          (Collateral.mk (nextId st) folioNumber units navPerUnit
             (jsmul units navPerUnit) lien_none None None None None now) in
      Ok (mkStore (productsDb st) (collateralsDb st ++ [collateral])
                  (applicationsDb st) (loansDb st) (S (nextId st)))
  end.

(** One callback of [updateNav]; the callbacks are taken in list order. *)
Definition updateNavOne (now : Date) (acc : list Collateral.t * nat)
    (u : string * Q) : list Collateral.t * nat :=
  let '(cs, updated) := acc in
  let '(folioNumber, newNav) := u in
  match find (fun c => String.eqb (Collateral.folioNumber c) folioNumber) cs with
  | Some collateral =>
      let collateral := Collateral.set_navPerUnit newNav collateral in
      let collateral :=
        Collateral.set_currentValue
          (jsmul (Collateral.units collateral) newNav) collateral in
      let collateral := Collateral.set_navLastUpdated now collateral in
      (saveDoc Collateral._id (Collateral.preSave collateral) cs, S updated)
  | None => (cs, updated)
  end.

Definition updateNav (st : Store) (navUpdates : list (string * Q)) (now : Date)
    : Store * nat :=
  let '(cs, updated) :=
    fold_left (updateNavOne now) navUpdates (collateralsDb st, O) in
  (with_collaterals cs st, updated).

Definition markLien (st : Store) (id : ObjectId)
    (applicationId : option ObjectId) (now : Date) : Result Store :=
  match findById Collateral._id id (collateralsDb st) with
  | None => Err CollateralNotFound
  | Some collateral =>
      if LienStatus_eqb (Collateral.lienStatus collateral) lien_marked
      then Err AlreadyMarked
      else
        let collateral := Collateral.set_lienStatus lien_marked collateral in
        let collateral := Collateral.set_lienMarkedDate (Some now) collateral in
        let collateral :=
          match applicationId with
          | Some a => Collateral.set_linkedApplication (Some a) collateral
          | None => collateral
          end in
        Ok (with_collaterals
              (saveDoc Collateral._id (Collateral.preSave collateral)
                       (collateralsDb st)) st)
  end.

Definition releaseLien (st : Store) (id : ObjectId) (now : Date)
    : Result Store :=
  match findById Collateral._id id (collateralsDb st) with
  | None => Err CollateralNotFound
  | Some collateral =>
      if negb (LienStatus_eqb (Collateral.lienStatus collateral) lien_marked)
      then Err NotMarked
      else
        let blocked :=
          match Collateral.linkedLoan collateral with
          | Some loanId =>
              match findById Loan._id loanId (loansDb st) with
              | Some loan => LoanStatus_eqb (Loan.status loan) loan_active
              | None => false
              end
          | None => false
          end in
        if blocked then Err ActiveLoanBlock
        else
          let collateral := Collateral.set_lienStatus lien_released collateral in
          let collateral :=
            Collateral.set_lienReleasedDate (Some now) collateral in
          let collateral := Collateral.set_linkedApplication None collateral in
          let collateral := Collateral.set_linkedLoan None collateral in
          Ok (with_collaterals
                (saveDoc Collateral._id (Collateral.preSave collateral)
                         (collateralsDb st)) st)
  end.

(** ** Application controller *)

Definition ProductStatus_eqb (a b : ProductStatus) : bool :=
  match a, b with
  | product_active, product_active | product_inactive, product_inactive => true
  | _, _ => false
  end.

(** The collaterals of the requested folios that carry no lien, and their
    total value. *)
Definition resolveCollaterals (st : Store) (collateralFolios : list string)
    : Result (list Collateral.t * Q) :=
  match collateralFolios with
  | [] => Ok ([], 0%Q)
  | _ :: _ =>
      let collaterals :=
        filter (fun c =>
                  existsb (String.eqb (Collateral.folioNumber c)) collateralFolios
                  && LienStatus_eqb (Collateral.lienStatus c) lien_none)
               (collateralsDb st) in
      if negb (Nat.eqb (List.length collaterals) (List.length collateralFolios))
      then Err InvalidOrPledgedCollateral
      else Ok (collaterals,
               fold_left (fun sum c => jsadd sum (Collateral.currentValue c))
                         collaterals 0%Q)
  end.

Definition createApplication (st : Store) (loanProductId : ObjectId)
    (requestedAmount : Q) (tenure : nat) (collateralFolios : list string)
    (now : Date) : Result Store :=
  match findById LoanProduct._id loanProductId (productsDb st) with
  | None => Err InvalidProduct
  | Some loanProduct =>
      if negb (ProductStatus_eqb (LoanProduct.status loanProduct) product_active)
      then Err ProductInactive
      else if Qltb requestedAmount (LoanProduct.minAmount loanProduct)
              || Qltb (LoanProduct.maxAmount loanProduct) requestedAmount
      then Err AmountOutOfRange
      else if Nat.ltb tenure (LoanProduct.minTenure loanProduct)
              || Nat.ltb (LoanProduct.maxTenure loanProduct) tenure
      then Err TenureOutOfRange
      else
        resolved <- resolveCollaterals st collateralFolios ;;
        let '(collaterals, totalCollateralValue) := resolved in
        let ltv :=
          if Qltb 0 totalCollateralValue
          then jsmul (jsquot requestedAmount totalCollateralValue) 100
          else 0%Q in
        if Qltb (LoanProduct.maxLTV loanProduct) ltv then Err LtvExceeded
        else
          let ids := map Collateral._id collaterals in
          let application :=
            LoanApplication.preSave
              (LoanApplication.mk (nextId st) loanProductId requestedAmount None
                 tenure (LoanProduct.interestRate loanProduct) ids
                 totalCollateralValue ltv app_submitted None (Some now)
                 None None None None) in
          let cs :=
            match collaterals with
            | [] => collateralsDb st
            | _ :: _ =>
                updateMany
                  (fun c => existsb (Nat.eqb (Collateral._id c)) ids)
                  (fun c =>
                     Collateral.set_lienMarkedDate (Some now)
                       (Collateral.set_lienStatus lien_marked
                          (Collateral.set_linkedApplication
                             (Some (LoanApplication._id application)) c)))
                  (collateralsDb st)
            end in
          Ok (mkStore (productsDb st) cs (applicationsDb st ++ [application])
                      (loansDb st) (S (nextId st)))
  end.

Definition validTransitions (s : AppStatus) : list AppStatus :=
  match s with
  | app_draft => [app_submitted]
  | app_submitted => [app_under_review; app_rejected]
  | app_under_review => [app_approved; app_rejected]
  | app_approved => [app_disbursed; app_rejected]
  | app_rejected => []
  | app_disbursed => [app_closed]
  | app_closed => []
  end.

(** [populate('collaterals')] followed by [map(c => c._id)]: the references
    that resolve to a document. *)
Definition populatedIds (st : Store) (ids : list ObjectId) : list ObjectId :=
  filter (fun id =>
            match findById Collateral._id id (collateralsDb st) with
            | Some _ => true
            | None => false
            end) ids.

(** The helper [createLoanFromApplication]: it reads the application back
    from the collection, creates the loan with its schedule and writes the
    loan reference into the collaterals. *)
Definition createLoanFromApplication (st : Store)
    (application : LoanApplication.t) (now : Date) : Result Store :=
  match findById LoanApplication._id (LoanApplication._id application)
                 (applicationsDb st) with
  | None => Err ApplicationNotFound
  | Some populatedApp =>
      match findById LoanProduct._id (LoanApplication.loanProduct populatedApp)
                     (productsDb st) with
      | None => Err InvalidProduct
      | Some loanProduct =>
          let amount :=
            orNumber (LoanApplication.approvedAmount populatedApp)
                     (LoanApplication.requestedAmount populatedApp) in
          let monthlyRate :=
            monthlyRateOf (LoanApplication.interestRate populatedApp) in
          let tenure := LoanApplication.tenure populatedApp in
          match emiFormula amount monthlyRate tenure with
          | NaN => Err NotANumber
          | Infinity _ => Err InfiniteEmi
          | Finite emi =>
              let ids :=
                populatedIds st (LoanApplication.collaterals populatedApp) in
              let emiSchedule :=
                generateEmiSchedule (LoanApplication.interestRate populatedApp)
                  (round2 emi) amount now tenure in
              let nextEmiDate :=
                match emiSchedule with
                | first :: _ => Some (Emi.dueDate first)
                | [] => None
                end in
              let loan :=
                Loan.mk (nextId st) (LoanApplication._id application)
                  (LoanProduct._id loanProduct) amount amount tenure
                  (LoanApplication.interestRate populatedApp) (round2 emi)
                  nextEmiDate ids
                  (LoanApplication.totalCollateralValue populatedApp)
                  (LoanApplication.ltv populatedApp) loan_active emiSchedule
                  0 0 now None None in
              let cs :=
                updateMany
                  (fun c => existsb (Nat.eqb (Collateral._id c)) ids)
                  (Collateral.set_linkedLoan (Some (Loan._id loan)))
                  (collateralsDb st) in
              Ok (mkStore (productsDb st) cs (applicationsDb st)
                          (loansDb st ++ [loan]) (S (nextId st)))
          end
      end
  end.

(** [application.save()]. *)
Definition saveApplication (application : LoanApplication.t) (st : Store)
    : Store :=
  with_applications
    (saveDoc LoanApplication._id (LoanApplication.preSave application)
             (applicationsDb st)) st.

Definition updateApplicationStatus (st : Store) (id : ObjectId)
    (status : string) (remarks : option string) (approvedAmount : option Q)
    (now : Date) : Result Store :=
  match findById LoanApplication._id id (applicationsDb st) with
  | None => Err ApplicationNotFound
  | Some application =>
      match lookupName AppStatus_name
              (validTransitions (LoanApplication.status application)) status with
      | None => Err InvalidTransition
      | Some target =>
          let application := LoanApplication.set_status target application in
          let application :=
            LoanApplication.set_remarks
              (orString remarks (LoanApplication.remarks application))
              application in
          match target with
          | app_submitted =>
              Ok (saveApplication
                    (LoanApplication.set_submittedAt (Some now) application) st)
          | app_approved =>
              let application :=
                LoanApplication.set_approvedAt (Some now) application in
              let application :=
                LoanApplication.set_approvedAmount
                  (Some (orNumber approvedAmount
                           (LoanApplication.requestedAmount application)))
                  application in
              Ok (saveApplication application st)
          | app_rejected =>
              let application :=
                LoanApplication.set_rejectedAt (Some now) application in
              let cs :=
                updateMany
                  (fun c => ObjectId_opt_eqb (Collateral.linkedApplication c)
                                             (LoanApplication._id application))
                  (fun c =>
                     Collateral.set_linkedApplication None
                       (Collateral.set_lienReleasedDate (Some now)
                          (Collateral.set_lienStatus lien_released c)))
                  (collateralsDb st) in
              Ok (saveApplication application (with_collaterals cs st))
          | app_disbursed =>
              let application :=
                LoanApplication.set_disbursedAt (Some now) application in
              st' <- createLoanFromApplication st application now ;;
              Ok (saveApplication application st')
          | app_closed =>
              Ok (saveApplication
                    (LoanApplication.set_closedAt (Some now) application) st)
          | _ => Ok (saveApplication application st)
          end
      end
  end.

(** ** Loan controller *)

(** The installment as [recordPayment] marks it paid. *)
Definition paidEmi (amount : Q) (paymentReference : option string)
    (paidDate : Date) (e : Emi.t) : Emi.t :=
  Emi.set_paymentReference paymentReference
    (Emi.set_paidDate (Some paidDate)
       (Emi.set_paidAmount amount (Emi.set_status emi_paid e))).

Definition recordPayment (st : Store) (loanId : ObjectId) (emiNumber : Z)
    (amount : Q) (paymentReference : option string)
    (paymentDate : option Date) (now : Date) : Result Store :=
  match findById Loan._id loanId (loansDb st) with
  | None => Err LoanNotFound
  | Some loan =>
      if LoanStatus_eqb (Loan.status loan) loan_closed then Err LoanClosed
      else
        match findIndex (fun e => Emi.emiNumber e =? emiNumber)
                        (Loan.emiSchedule loan) with
        | None => Err EmiNotFound
        | Some (emiIndex, emi) =>
            if EmiStatus_eqb (Emi.status emi) emi_paid then Err AlreadyPaid
            else
              (* Update EMI *)
              let paidDate :=
                match paymentDate with Some d => d | None => now end in
              let loan :=
                Loan.set_emiSchedule
                  (updateAt emiIndex
                     (paidEmi amount paymentReference paidDate)
                     (Loan.emiSchedule loan)) loan in
              (* Update loan totals *)
              let loan :=
                Loan.set_totalPrincipalPaid
                  (jsadd (Loan.totalPrincipalPaid loan) (Emi.principal emi))
                  loan in
              let loan :=
                Loan.set_totalInterestPaid
                  (jsadd (Loan.totalInterestPaid loan) (Emi.interest emi))
                  loan in
              let loan :=
                Loan.set_outstandingAmount
                  (jssub (Loan.outstandingAmount loan) (Emi.principal emi))
                  loan in
              (* Update next EMI date *)
              let nextPendingEmi :=
                find (fun e => EmiStatus_eqb (Emi.status e) emi_pending)
                     (Loan.emiSchedule loan) in
              let loan :=
                Loan.set_nextEmiDate (option_map Emi.dueDate nextPendingEmi)
                                     loan in
              (* Update current LTV *)
              let loan :=
                if Qltb 0 (Loan.totalCollateralValue loan)
                then Loan.set_currentLTV
                       (jsmul (jsquot (Loan.outstandingAmount loan)
                                      (Loan.totalCollateralValue loan)) 100)
                       loan
                else loan in
              (* Check if loan is fully paid *)
              let fullyPaid :=
                Qle_bool (Loan.outstandingAmount loan) 0
                || match nextPendingEmi with Some _ => false | None => true end in
              let loan :=
                if fullyPaid
                then Loan.set_closureReason (Some fully_paid)
                       (Loan.set_closedAt (Some now)
                          (Loan.set_status loan_closed loan))
                else loan in
              let cs :=
                if fullyPaid
                then updateMany
                       (fun c => ObjectId_opt_eqb (Collateral.linkedLoan c)
                                                  (Loan._id loan))
                       (fun c =>
                          Collateral.set_linkedLoan None
                            (Collateral.set_lienReleasedDate (Some now)
                               (Collateral.set_lienStatus lien_released c)))
                       (collateralsDb st)
                else collateralsDb st in
              (* Check for overdue status *)
              let hasOverdue :=
                existsb (fun e => EmiStatus_eqb (Emi.status e) emi_overdue)
                        (Loan.emiSchedule loan) in
              let loan :=
                if hasOverdue
                   && negb (LoanStatus_eqb (Loan.status loan) loan_closed)
                then Loan.set_status loan_overdue loan
                else if negb hasOverdue
                        && LoanStatus_eqb (Loan.status loan) loan_overdue
                then Loan.set_status loan_active loan
                else loan in
              (* loan.save() *)
              if negb (Loan.validate loan)
              then Failed (with_collaterals cs st) ValidationFailed
              else Ok (with_loans (saveDoc Loan._id loan (loansDb st))
                                  (with_collaterals cs st))
        end
  end.

Definition validStatuses : list LoanStatus :=
  [loan_active; loan_overdue; loan_closed; loan_defaulted; loan_restructured].

Definition updateLoanStatus (st : Store) (loanId : ObjectId) (status : string)
    (now : Date) : Result Store :=
  match findById Loan._id loanId (loansDb st) with
  | None => Err LoanNotFound
  | Some loan =>
      match lookupName LoanStatus_name validStatuses status with
      | None => Err InvalidStatus
      | Some s =>
          let loan := Loan.set_status s loan in
          let loan :=
            if LoanStatus_eqb s loan_closed
            then Loan.set_closedAt (Some now) loan
            else loan in
          Ok (with_loans (saveDoc Loan._id loan (loansDb st)) st)
      end
  end.

(** The test of the [forEach] of [markOverdueEmis]. *)
Definition isPastDue (today : Date) (emi : Emi.t) : bool :=
  EmiStatus_eqb (Emi.status emi) emi_pending
  && date_ltb (Emi.dueDate emi) today.

(** The query of [markOverdueEmis]: open loans with a pending installment. *)
Definition overdueCandidate (loan : Loan.t) : bool :=
  (LoanStatus_eqb (Loan.status loan) loan_active
   || LoanStatus_eqb (Loan.status loan) loan_overdue)
  && existsb (fun e => EmiStatus_eqb (Emi.status e) emi_pending)
             (Loan.emiSchedule loan).

(** The body of the loop over the loans found: the loan as it is saved, or as
    it was when no installment changed. *)
Definition markLoanOverdue (today : Date) (loan : Loan.t) : Loan.t :=
  let hasUpdates := existsb (isPastDue today) (Loan.emiSchedule loan) in
  let emiSchedule :=
    map (fun emi =>
           if isPastDue today emi then Emi.set_status emi_overdue emi else emi)
        (Loan.emiSchedule loan) in
  if hasUpdates
  then Loan.set_status loan_overdue (Loan.set_emiSchedule emiSchedule loan)
  else loan.

(** The sweep on one loan of the collection: the loans that the query does
    not find are not visited. *)
Definition sweepLoan (today : Date) (loan : Loan.t) : Loan.t :=
  if overdueCandidate loan then markLoanOverdue today loan else loan.

Definition markOverdueEmis (st : Store) (today : Date) : Store * nat :=
  let updatedCount :=
    List.length (filter (fun loan =>
                      overdueCandidate loan
                      && existsb (isPastDue today) (Loan.emiSchedule loan))
                   (loansDb st)) in
  (with_loans (map (sweepLoan today) (loansDb st)) st, updatedCount).

(** ** Requests and reachable stores

    The requests of the core.  The generic [PUT] endpoints
    ([updateCollateral], [updateApplication]), which assign whatever fields
    the body carries, the deletion of drafts and the administration of the
    products are outside of it. *)

Inductive Request :=
| CreateCollateral (folioNumber : string) (units navPerUnit : Q)
| UpdateNav (navUpdates : list (string * Q))
| MarkLien (id : ObjectId) (applicationId : option ObjectId)
| ReleaseLien (id : ObjectId)
| CreateApplication (loanProductId : ObjectId) (requestedAmount : Q)
    (tenure : nat) (collateralFolios : list string)
| UpdateApplicationStatus (id : ObjectId) (status : string)
    (remarks : option string) (approvedAmount : option Q)
| RecordPayment (loanId : ObjectId) (emiNumber : Z) (amount : Q)
    (paymentReference : option string) (paymentDate : option Date)
| UpdateLoanStatus (loanId : ObjectId) (status : string)
| MarkOverdueEmis.

Definition handle (st : Store) (r : Request) (now : Date) : Result Store :=
  match r with
  | CreateCollateral folioNumber units navPerUnit =>
      createCollateral st folioNumber units navPerUnit now
  | UpdateNav navUpdates => Ok (fst (updateNav st navUpdates now))
  | MarkLien id applicationId => markLien st id applicationId now
  | ReleaseLien id => releaseLien st id now
  | CreateApplication loanProductId requestedAmount tenure collateralFolios =>
      createApplication st loanProductId requestedAmount tenure
                        collateralFolios now
  | UpdateApplicationStatus id status remarks approvedAmount =>
      updateApplicationStatus st id status remarks approvedAmount now
  | RecordPayment loanId emiNumber amount paymentReference paymentDate =>
      recordPayment st loanId emiNumber amount paymentReference paymentDate now
  | UpdateLoanStatus loanId status => updateLoanStatus st loanId status now
  | MarkOverdueEmis => Ok (fst (markOverdueEmis st now))
  end.

(** The store after a request and the answer to it.  A request that is
    refused leaves the store as it was; an exception after a write leaves
    what was written. *)
Definition run (st : Store) (r : Request) (now : Date)
    : Store * option Error :=
  match handle st r now with
  | Ok st' => (st', None)
  | Err e => (st, Some e)
  | Failed st' e => (st', Some e)
  end.

(** The stores that the requests produce from a store holding only the
    loan products. *)
Inductive reachable (products : list LoanProduct.t) : Store -> Prop :=
| reachable_init : reachable products (initialStore products)
| reachable_step st r now st' :
    reachable products st ->
    handle st r now = Ok st' ->
    reachable products st'
| reachable_failed st r now st' e :
    reachable products st ->
    handle st r now = Failed st' e ->
    reachable products st'.

(** A sequence of requests, each with its date. *)
Fixpoint runAll (st : Store) (rs : list (Request * Date)) : Result Store :=
  match rs with
  | [] => Ok st
  | (r, now) :: rs' => st' <- handle st r now ;; runAll st' rs'
  end.

(** ** The properties of the specification, as predicates *)

Definition isSet {A : Type} (o : option A) : Prop := o <> None.

(** The exclusive-pledge invariant of a collateral: at most one link is set,
    the lien is marked exactly when one link is set, and it is none or
    released exactly when no link is set. *)
Definition exclusivePledge (c : Collateral.t) : Prop :=
  ~ (isSet (Collateral.linkedApplication c) /\ isSet (Collateral.linkedLoan c))
  /\ (Collateral.lienStatus c = lien_marked <->
      (isSet (Collateral.linkedApplication c)
       /\ Collateral.linkedLoan c = None)
      \/ (Collateral.linkedApplication c = None
          /\ isSet (Collateral.linkedLoan c)))
  /\ (Collateral.lienStatus c = lien_none
      \/ Collateral.lienStatus c = lien_released <->
      Collateral.linkedApplication c = None /\ Collateral.linkedLoan c = None).

(** The part of the invariant that the operations keep: a collateral that
    never carried a lien has no link. *)
Definition unpledgedHasNoLink (c : Collateral.t) : Prop :=
  Collateral.lienStatus c = lien_none ->
  Collateral.linkedApplication c = None /\ Collateral.linkedLoan c = None.

(** What the requests keep of the collateral ledger, on the collaterals
    [cs], the applications [apps] and the next identifier [nid]: a
    collateral without lien has no link, the collaterals named by an
    application carry a lien, and the identifiers are below [nid] and
    distinct. *)
Definition ledgerInv (cs : list Collateral.t) (apps : list LoanApplication.t)
    (nid : ObjectId) : Prop :=
  (forall c, In c cs -> unpledgedHasNoLink c)
  /\ (forall a c, In a apps -> In c cs ->
      In (Collateral._id c) (LoanApplication.collaterals a) ->
      Collateral.lienStatus c <> lien_none)
  /\ (forall c, In c cs -> (Collateral._id c < nid)%nat)
  /\ (forall a id, In a apps -> In id (LoanApplication.collaterals a) ->
      (id < nid)%nat)
  /\ NoDup (map Collateral._id cs).

(** An update of collaterals that keeps identifiers and never produces a
    collateral without lien other than by leaving its links alone. *)
Definition keepsLedger (cs : list Collateral.t)
    (g : Collateral.t -> Collateral.t) : Prop :=
  forall c, In c cs ->
    Collateral._id (g c) = Collateral._id c
    /\ (Collateral.lienStatus (g c) = lien_none ->
        Collateral.lienStatus c = lien_none
        /\ Collateral.linkedApplication (g c) = Collateral.linkedApplication c
        /\ Collateral.linkedLoan (g c) = Collateral.linkedLoan c).

(** The ledger of a store. *)
Definition storeLedger (st : Store) : Prop :=
  ledgerInv (collateralsDb st) (applicationsDb st) (nextId st).

(** At most one of the two links of a collateral is set. *)
Definition atMostOneLink (c : Collateral.t) : bool :=
  match Collateral.linkedApplication c, Collateral.linkedLoan c with
  | Some _, Some _ => false
  | _, _ => true
  end.

(** The transition table of the specification, pair by pair. *)
Definition allowedTransition (from : AppStatus) (to : string) : bool :=
  match from with
  | app_draft => String.eqb to "submitted"
  | app_submitted => String.eqb to "under_review" || String.eqb to "rejected"
  | app_under_review => String.eqb to "approved" || String.eqb to "rejected"
  | app_approved => String.eqb to "disbursed" || String.eqb to "rejected"
  | app_disbursed => String.eqb to "closed"
  | app_rejected => false
  | app_closed => false
  end.

(** Installment [i] is due in the [i]-th calendar month after the month of
    disbursal. *)
Definition dueMonthly (startDate : Date) (schedule : list Emi.t) : Prop :=
  Forall (fun e => monthIndex (Emi.dueDate e)
                   = monthIndex startDate + Emi.emiNumber e) schedule.

Fixpoint increasingDates (l : list Date) : Prop :=
  match l with
  | [] => True
  | a :: l' =>
      match l' with
      | [] => True
      | b :: _ => date_lt a b /\ increasingDates l'
      end
  end.

(** The sum of the principal components of a schedule. *)
Definition principalSum (schedule : list Emi.t) : Q :=
  fold_right (fun e acc => (Emi.principal e + acc)%Q) 0%Q schedule.

(** The post-state of [recordPayment] with another amount on the installment
    paid: the first entry numbered [emiNumber] of the loans [loanId]. *)
Definition withPaidAmount (loanId : ObjectId) (emiNumber : Z) (amount : Q)
    (st : Store) : Store :=
  with_loans
    (map (fun loan =>
            if Nat.eqb (Loan._id loan) loanId
            then match findIndex (fun e => Emi.emiNumber e =? emiNumber)
                                 (Loan.emiSchedule loan) with
                 | Some (i, _) =>
                     Loan.set_emiSchedule
                       (updateAt i (Emi.set_paidAmount amount)
                                 (Loan.emiSchedule loan)) loan
                 | None => loan
                 end
            else loan)
         (loansDb st)) st.

(** ** A worked scenario

    The product and the application of the specification: 12% a year, one
    folio worth 1,200,000 pledged for 500,000; here over six months. *)

Definition demoProduct : LoanProduct.t :=
  LoanProduct.mk 100%nat 12 50000 5000000 6%nat 36%nat 50 1 product_active.

Definition jan31 : Date := mkDate 2024 0 31.
Definition jan15 : Date := mkDate 2024 0 15.

Definition untilApproved : list (Request * Date) :=
  [ (CreateCollateral "FOLIO123" 12000 100, jan15);
    (CreateApplication 100%nat 500000 6%nat ["FOLIO123"%string], jan15);
    (UpdateApplicationStatus 1%nat "under_review" None None, jan15);
    (UpdateApplicationStatus 1%nat "approved" None None, jan15) ].

Definition untilDisbursed : list (Request * Date) :=
  untilApproved ++ [ (UpdateApplicationStatus 1%nat "disbursed" None None, jan15) ].

Definition payments (upTo : list Z) : list (Request * Date) :=
  map (fun n => (RecordPayment 2%nat n 84000 None None, mkDate 2024 n 15))
      upTo.

(** The store after a sequence of requests on the demo product. *)
Definition storeAfter (rs : list (Request * Date)) : Store :=
  match runAll (initialStore [demoProduct]) rs with
  | Ok st => st
  | _ => initialStore [demoProduct]
  end.

Definition approvedStore : Store := storeAfter untilApproved.
Definition disbursedStore : Store := storeAfter untilDisbursed.

(** The loan of the scenario with five installments paid and the sixth
    due. *)
Definition lastInstallmentDue : Store :=
  storeAfter (untilDisbursed ++ payments [1; 2; 3; 4; 5]).

(** The application of the scenario as approved, and the store after
    [createLoanFromApplication] on it. *)
Definition demoApplication : LoanApplication.t :=
  LoanApplication.mk 1%nat 100%nat 500000 (Some 500000%Q) 6%nat 12 [0%nat]
    1200000 (jsmul (jsquot 500000 1200000) 100) app_approved None (Some jan15)
    (Some jan15) None None None.

Definition loanCreatedStore : Store :=
  match createLoanFromApplication approvedStore demoApplication jan15 with
  | Ok st => st
  | _ => approvedStore
  end.

(** The effect of disbursal on a collateral [c], which becomes [c']: the
    loan [loanId] is linked when the application pledges [c], and nothing
    else changes. *)
Definition loanLinked (pledged : list ObjectId) (loanId : ObjectId)
    (c c' : Collateral.t) : Prop :=
  Collateral._id c' = Collateral._id c
  /\ Collateral.lienStatus c' = Collateral.lienStatus c
  /\ Collateral.linkedApplication c' = Collateral.linkedApplication c
  /\ (In (Collateral._id c) pledged -> Collateral.linkedLoan c' = Some loanId)
  /\ (~ In (Collateral._id c) pledged -> c' = c).

(** The same application on a product at 0% a year, approved. *)
Definition zeroRateProduct : LoanProduct.t :=
  LoanProduct.mk 100%nat 0 50000 5000000 6%nat 36%nat 50 1 product_active.

Definition zeroRateApproved : Store :=
  match runAll (initialStore [zeroRateProduct])
          [ (CreateCollateral "FOLIO123" 12000 100, jan15);
            (CreateApplication 100%nat 120000 12%nat ["FOLIO123"%string],
             jan15);
            (UpdateApplicationStatus 1%nat "under_review" None None, jan15);
            (UpdateApplicationStatus 1%nat "approved" None None, jan15) ] with
  | Ok st => st
  | _ => initialStore [zeroRateProduct]
  end.

(** A store written out by hand: the application of the scenario and a
    loan of two installments, the first one paid. *)
Definition paidInstallment : Emi.t :=
  Emi.mk 1 (mkDate 2024 1 15) 497.51 10 507.51 emi_paid 507.51
         (Some (mkDate 2024 1 15)) 0 None.

Definition pendingInstallment : Emi.t :=
  Emi.mk 2 (mkDate 2024 2 15) 502.49 5.02 507.51 emi_pending 0 None 0 None.

Definition smallLoan : Loan.t :=
  Loan.mk 7%nat 1%nat 100%nat 1000 502.49 2%nat 12 507.51
          (Some (mkDate 2024 2 15)) [0%nat] 1200000 (1 # 12) loan_active
          [paidInstallment; pendingInstallment] 497.51 10 jan15 None None.

Definition smallStore : Store :=
  mkStore [demoProduct] [] [demoApplication] [smallLoan] 8%nat.

(** The lien and the links of the collaterals, and the closure of the
    loans, of a store. *)
Definition lienView (st : Store)
    : list (LienStatus * option ObjectId * option ObjectId) :=
  map (fun c => (Collateral.lienStatus c, Collateral.linkedApplication c,
                 Collateral.linkedLoan c)) (collateralsDb st).

Definition closureView (st : Store)
    : list (LoanStatus * option ClosureReason * option Date) :=
  map (fun l => (Loan.status l, Loan.closureReason l, Loan.closedAt l))
      (loansDb st).

(** Unfolding of the setters and projections of a loan. *)
Ltac loan_fields :=
  cbv beta iota zeta delta
      [Loan.set_emiSchedule Loan.set_totalPrincipalPaid
       Loan.set_totalInterestPaid Loan.set_outstandingAmount
       Loan.set_nextEmiDate Loan.set_currentLTV Loan.set_status
       Loan.set_closedAt Loan.set_closureReason
       Loan._id Loan.application Loan.loanProduct Loan.disbursedAmount
       Loan.outstandingAmount Loan.tenure Loan.interestRate Loan.emiAmount
       Loan.nextEmiDate Loan.collaterals Loan.totalCollateralValue
       Loan.currentLTV Loan.status Loan.emiSchedule Loan.totalPrincipalPaid
       Loan.totalInterestPaid Loan.disbursedAt Loan.closedAt
       Loan.closureReason LoanStatus_eqb negb andb].

(** ** Further definitions

    The virtuals of the loan model and the stores of the scenario at its
    stages. *)

(** The virtual [paidEmisCount]. *)
Definition paidEmisCount (loan : Loan.t) : nat :=
  List.length
    (filter (fun emi => EmiStatus_eqb (Emi.status emi) emi_paid)
            (Loan.emiSchedule loan)).

(** The virtual [overdueEmisCount]. *)
Definition overdueEmisCount (loan : Loan.t) : nat :=
  List.length
    (filter (fun emi => EmiStatus_eqb (Emi.status emi) emi_overdue)
            (Loan.emiSchedule loan)).

(** The current value of a collateral is its units at its NAV. *)
Definition valued (c : Collateral.t) : Prop :=
  Collateral.currentValue c
  = jsmul (Collateral.units c) (Collateral.navPerUnit c).

(** The stages of the scenario. *)
Definition registeredStore : Store :=
  storeAfter [ (CreateCollateral "FOLIO123" 12000 100, jan15) ].

Definition submittedStore : Store :=
  storeAfter
    [ (CreateCollateral "FOLIO123" 12000 100, jan15);
      (CreateApplication 100%nat 500000 6%nat ["FOLIO123"%string], jan15) ].

Definition firstPaidStore : Store :=
  storeAfter (untilDisbursed ++ payments [1]).

Definition closedLoanStore : Store :=
  storeAfter (untilDisbursed ++ payments [1; 2; 3; 4; 5; 6]).

(** The scenario with 50,000 requested, and five installments paid: the
    principal of the sixth installment, 8,542.00, is one hundredth more
    than what is outstanding. *)
Definition sixthExceedsOutstanding : Store :=
  storeAfter
    ([ (CreateCollateral "FOLIO123" 12000 100, jan15);
       (CreateApplication 100%nat 50000 6%nat ["FOLIO123"%string], jan15);
       (UpdateApplicationStatus 1%nat "under_review" None None, jan15);
       (UpdateApplicationStatus 1%nat "approved" None None, jan15);
       (UpdateApplicationStatus 1%nat "disbursed" None None, jan15) ]
     ++ map (fun n => (RecordPayment 2%nat n 8627 None None,
                       mkDate 2024 n 15)) [1; 2; 3; 4; 5]).

(** The store that the payment of that sixth installment leaves. *)
Definition sixthPaymentFailed : Store :=
  fst (run sixthExceedsOutstanding (RecordPayment 2%nat 6 8627 None None)
           (mkDate 2024 6 15)).

Definition markedStore : Store :=
  storeAfter [ (CreateCollateral "FOLIO123" 12000 100, jan15);
               (MarkLien 0%nat None, jan15) ].

Definition releasedStore : Store :=
  storeAfter [ (CreateCollateral "FOLIO123" 12000 100, jan15);
               (MarkLien 0%nat None, jan15);
               (ReleaseLien 0%nat, jan31) ].



(** The fields of an application that its transitions never write. *)
Definition applicationTerms (a : LoanApplication.t) :=
  (LoanApplication._id a, LoanApplication.loanProduct a,
   LoanApplication.requestedAmount a, LoanApplication.tenure a,
   LoanApplication.interestRate a, LoanApplication.collaterals a,
   LoanApplication.totalCollateralValue a).

(** The fields of a loan that no request writes after its creation. *)
Definition loanTerms (l : Loan.t) :=
  (Loan._id l, Loan.application l, Loan.loanProduct l, Loan.disbursedAmount l,
   Loan.tenure l, Loan.interestRate l, Loan.emiAmount l, Loan.collaterals l,
   Loan.totalCollateralValue l, Loan.disbursedAt l).

(** The fields of an installment that are fixed when it is generated. *)
Definition emiTerms (e : Emi.t) :=
  (Emi.emiNumber e, Emi.dueDate e, Emi.principal e, Emi.interest e,
   Emi.totalAmount e, Emi.penaltyAmount e).

(** The payment leaves the loan fully paid: nothing is outstanding or no
    installment is pending. *)
Definition fullyPaid (outstandingAmount : Q) (schedule : list Emi.t) : bool :=
  Qle_bool outstandingAmount 0
  || match find (fun e => EmiStatus_eqb (Emi.status e) emi_pending)
                schedule with
     | Some _ => false
     | None => true
     end.

Definition hasOverdue (schedule : list Emi.t) : bool :=
  existsb (fun e => EmiStatus_eqb (Emi.status e) emi_overdue) schedule.

(** A loan is backed by its application: the application is in the store,
    disbursed or closed, and the loan has its amount, tenure, rate and
    collateral value. *)
Definition loanBacked (st : Store) (loan : Loan.t) : Prop :=
  exists a,
    findById LoanApplication._id (Loan.application loan) (applicationsDb st)
    = Some a
    /\ (LoanApplication.status a = app_disbursed
        \/ LoanApplication.status a = app_closed)
    /\ Loan.disbursedAmount loan
       = orNumber (LoanApplication.approvedAmount a)
                  (LoanApplication.requestedAmount a)
    /\ Loan.tenure loan = LoanApplication.tenure a
    /\ Loan.interestRate loan = LoanApplication.interestRate a
    /\ Loan.totalCollateralValue loan
       = LoanApplication.totalCollateralValue a.

(** * Proofs *)

(** ** Numbers *)

(** On the sample computations the rounding of the model gives the numbers
    that the binary64 arithmetic of the kernel gives. *)
Lemma double_agrees_with_binary64 :
  forallb sameNumber sampleExpressions = true.
Proof. vm_compute. reflexivity. Qed.

(** Rounding to two decimals, on figures whose binary64 value is on the
    other side of a half hundredth from their exact value: the interest of
    a month on 51,205 at 6% a year is 256.02, and the EMI of 50,002 at 9% a
    year over one month is 50,377.01.  An LTV of 550,000 on 1,000,000 is
    more than 55. *)
Lemma round2_samples :
  round2 (jsmul 51205 (monthlyRateOf 6)) = double (25602 # 100)
  /\ match emiFormula 50002 (monthlyRateOf 9) 1 with
     | Finite emi => round2 emi = double (5037701 # 100)
     | _ => False
     end
  /\ Qltb 55 (jsmul (jsquot 550000 1000000) 100) = true.
Proof. split; [|split]; vm_compute; reflexivity. Qed.

(** The EMI formula in binary64: for 100,000 at 6% a year over one month it
    gives more than the 100,500 of the exact formula, and at an annual rate
    of 1e-15 percent, where [1 + monthlyRate] is 1, it divides by zero and
    gives an infinity. *)
Lemma emiFormula_samples :
  match emiFormula 100000 (monthlyRateOf 6) 1 with
  | Finite emi => Qltb 100500 emi = true
  | _ => False
  end
  /\ emiFormula 100000 (monthlyRateOf (double (1 # 10 ^ 15))) 12
     = Infinity false.
Proof. split; vm_compute; reflexivity. Qed.

(** ** Collections *)

Section Collections.
Context {A : Type} (idOf : A -> ObjectId).

Lemma findById_id id l d : findById idOf id l = Some d -> idOf d = id.
Proof.
  unfold findById. intros H. apply find_some in H.
  destruct H as [_ H]. now apply Nat.eqb_eq in H.
Qed.

Lemma findById_In id l d : findById idOf id l = Some d -> In d l.
Proof.
  unfold findById. intros H. now apply find_some in H.
Qed.

Lemma findById_saveDoc_same old d l :
  findById idOf (idOf d) l = Some old ->
  findById idOf (idOf d) (saveDoc idOf d l) = Some d.
Proof.
  unfold findById, saveDoc.
  induction l as [|x l IH]; simpl; [discriminate|].
  destruct (Nat.eqb (idOf x) (idOf d)) eqn:E; simpl.
  - now rewrite Nat.eqb_refl.
  - rewrite E. exact IH.
Qed.

Lemma findById_saveDoc_other id d l :
  id <> idOf d ->
  findById idOf id (saveDoc idOf d l) = findById idOf id l.
Proof.
  unfold findById, saveDoc. intros Hne.
  induction l as [|x l IH]; simpl; [reflexivity|].
  destruct (Nat.eqb (idOf x) (idOf d)) eqn:E; simpl.
  - apply Nat.eqb_eq in E.
    assert (Hd : Nat.eqb (idOf d) id = false)
      by (apply Nat.eqb_neq; congruence).
    assert (Hx : Nat.eqb (idOf x) id = false)
      by (apply Nat.eqb_neq; congruence).
    now rewrite Hd, Hx.
  - destruct (Nat.eqb (idOf x) id); [reflexivity | exact IH].
Qed.
End Collections.

(** ** Zero-rate EMI *)

Lemma Qpower_positive_one (p : positive) : Qpower_positive 1 p = 1%Q.
Proof.
  unfold Qpower_positive.
  induction p as [p IH|p IH|]; simpl; rewrite ?IH; reflexivity.
Qed.

Lemma Math_pow_one (n : nat) : Math_pow 1 n = 1%Q.
Proof.
  unfold Math_pow.
  assert (H : (1 ^ Z.of_nat n = 1)%Q).
  { destruct (Z.of_nat n) as [|p|p] eqn:E; simpl.
    - reflexivity.
    - apply Qpower_positive_one.
    - lia. }
  rewrite H. vm_compute. reflexivity.
Qed.

Lemma emiFormula_zero (amount : Q) (tenure : nat) :
  emiFormula amount (monthlyRateOf 0) tenure = NaN.
Proof.
  unfold emiFormula, jsdiv.
  assert (H0 : monthlyRateOf 0 = 0%Q) by (vm_compute; reflexivity).
  assert (H1 : jsadd 1 0 = 1%Q) by (vm_compute; reflexivity).
  assert (H2 : jssub 1 1 = 0%Q) by (vm_compute; reflexivity).
  assert (H3 : jsmul amount 0 = 0%Q).
  { unfold jsmul, double. cbn [Qmult Qnum]. rewrite Z.mul_0_r. reflexivity. }
  assert (H4 : jsmul 0 1 = 0%Q) by (vm_compute; reflexivity).
  rewrite H0, H1, Math_pow_one, H2, H3, H4. reflexivity.
Qed.

(** C6, as the code has it: at an annual rate of 0 the EMI formula divides
    0 by 0 for every amount and tenure; it yields no number, and in
    particular not principal / tenure.  The disbursal of an approved
    application at 0% (120,000 over 12 months) therefore fails, and no loan
    is created. *)
Theorem emiFormula_zero_rate :
  (forall (amount : Q) (tenure : nat),
     emiFormula amount (monthlyRateOf 0) tenure = NaN)
  /\ emiFormula 120000 (monthlyRateOf 0) 12 <> Finite (120000 / 12)%Q
  /\ run zeroRateApproved
         (UpdateApplicationStatus 1%nat "disbursed" None None) jan15
     = (zeroRateApproved, Some NotANumber).
Proof.
  split; [exact emiFormula_zero|].
  split; [rewrite emiFormula_zero; discriminate|].
  vm_compute. reflexivity.
Qed.

(** ** Application status transitions *)

Lemma lookupName_validTransitions (from : AppStatus) (to : string) :
  match lookupName AppStatus_name (validTransitions from) to with
  | Some target => allowedTransition from to = true /\ AppStatus_name target = to
  | None => allowedTransition from to = false
  end.
Proof.
  unfold allowedTransition.
  destruct from; cbn [lookupName validTransitions AppStatus_name];
    rewrite ?(String.eqb_sym to);
    repeat match goal with
           | |- context [String.eqb ?a to] =>
               let E := fresh "E" in
               destruct (String.eqb a to) eqn:E;
               [apply String.eqb_eq in E; cbn [orb] | cbn [orb]]
           end;
    auto using orb_true_r.
Qed.

Lemma createLoanFromApplication_not_InvalidTransition st application now :
  createLoanFromApplication st application now <> Err InvalidTransition.
Proof.
  unfold createLoanFromApplication.
  repeat match goal with
         | |- context [match ?x with _ => _ end] => destruct x
         end; discriminate.
Qed.

(** C3: the transition table is enforced for every state of an application
    and every requested status.  A pair outside the table is answered with
    [InvalidTransition] and the store is left as it was; a request that
    succeeds is a pair of the table; and a pair of the table passes the
    check of the table (the request then fails only if the loan cannot be
    created at disbursal). *)
Theorem transition_table_enforced (st : Store) (id : ObjectId)
    (application : LoanApplication.t) (status : string)
    (remarks : option string) (approvedAmount : option Q) (now : Date) :
  findById LoanApplication._id id (applicationsDb st) = Some application ->
  let request := UpdateApplicationStatus id status remarks approvedAmount in
  (allowedTransition (LoanApplication.status application) status = false ->
   run st request now = (st, Some InvalidTransition))
  /\ (forall st', handle st request now = Ok st' ->
      allowedTransition (LoanApplication.status application) status = true)
  /\ (allowedTransition (LoanApplication.status application) status = true ->
      handle st request now <> Err InvalidTransition).
Proof.
  intros Hfind request. unfold request, run. simpl.
  unfold updateApplicationStatus. rewrite Hfind.
  pose proof (lookupName_validTransitions
                (LoanApplication.status application) status) as Hl.
  destruct (lookupName AppStatus_name
              (validTransitions (LoanApplication.status application)) status)
    as [target|].
  - destruct Hl as [Hallowed _]. split; [|split].
    + intros Hf. congruence.
    + intros _ _. exact Hallowed.
    + intros _. destruct target; try discriminate.
      unfold bind.
      pose proof (createLoanFromApplication_not_InvalidTransition st
        (LoanApplication.set_disbursedAt (Some now)
           (LoanApplication.set_remarks
              (orString remarks
                 (LoanApplication.remarks
                    (LoanApplication.set_status app_disbursed application)))
              (LoanApplication.set_status app_disbursed application))) now) as Hc.
      destruct (createLoanFromApplication st _ now); try discriminate.
      congruence.
  - split; [|split].
    + reflexivity.
    + intros st' H. discriminate.
    + intros H. congruence.
Qed.

(** ** Payments *)

(** C7: a payment for an installment that is already paid, on a loan that is
    not closed, is answered with [AlreadyPaid], and the store after the
    request is the store before it: no balance, total, LTV, date, status or
    schedule entry of any loan has changed, and no collateral. *)
Theorem recordPayment_already_paid (st : Store) (loanId : ObjectId)
    (loan : Loan.t) (emiNumber : Z) (emiIndex : nat) (emi : Emi.t)
    (amount : Q) (paymentReference : option string)
    (paymentDate : option Date) (now : Date) :
  findById Loan._id loanId (loansDb st) = Some loan ->
  Loan.status loan <> loan_closed ->
  findIndex (fun e => Emi.emiNumber e =? emiNumber) (Loan.emiSchedule loan)
    = Some (emiIndex, emi) ->
  Emi.status emi = emi_paid ->
  run st (RecordPayment loanId emiNumber amount paymentReference paymentDate)
      now
  = (st, Some AlreadyPaid).
Proof.
  intros Hloan Hopen Hemi Hpaid.
  unfold run, handle, recordPayment. rewrite Hloan.
  destruct (LoanStatus_eqb (Loan.status loan) loan_closed) eqn:Hc.
  - destruct (Loan.status loan); try discriminate. now elim Hopen.
  - rewrite Hemi, Hpaid. reflexivity.
Qed.

(** ** Administrative override of the loan status *)

Lemma lookupName_validStatuses (s : LoanStatus) :
  lookupName LoanStatus_name validStatuses (LoanStatus_name s) = Some s.
Proof. destruct s; reflexivity. Qed.

(** C10: for an existing loan and each of the five statuses,
    [updateLoanStatus] succeeds whatever the current status is; the loan
    afterwards has the requested status, [closedAt] is stamped exactly when
    the status is closed, and every other field of the loan is as before
    (closure reason, outstanding amount, schedule and next EMI date among
    them); the other loans, the applications and the collaterals are
    untouched, so a pledged collateral keeps its lien and its loan link. *)
Theorem updateLoanStatus_frame (st : Store) (loanId : ObjectId)
    (loan : Loan.t) (s : LoanStatus) (now : Date) :
  findById Loan._id loanId (loansDb st) = Some loan ->
  exists st' loan',
    run st (UpdateLoanStatus loanId (LoanStatus_name s)) now = (st', None)
    /\ findById Loan._id loanId (loansDb st') = Some loan'
    /\ Loan.status loan' = s
    /\ Loan.closedAt loan'
       = (if LoanStatus_eqb s loan_closed then Some now else Loan.closedAt loan)
    /\ Loan.closureReason loan' = Loan.closureReason loan
    /\ Loan.outstandingAmount loan' = Loan.outstandingAmount loan
    /\ Loan.emiSchedule loan' = Loan.emiSchedule loan
    /\ Loan.nextEmiDate loan' = Loan.nextEmiDate loan
    /\ Loan.set_closedAt None (Loan.set_status loan_active loan')
       = Loan.set_closedAt None (Loan.set_status loan_active loan)
    /\ (forall other, other <> loanId ->
        findById Loan._id other (loansDb st')
        = findById Loan._id other (loansDb st))
    /\ collateralsDb st' = collateralsDb st
    /\ applicationsDb st' = applicationsDb st
    /\ productsDb st' = productsDb st.
Proof.
  intros Hloan.
  pose proof (findById_id _ _ _ _ Hloan) as Hid.
  unfold run, handle, updateLoanStatus.
  rewrite Hloan, lookupName_validStatuses.
  set (loan' := if LoanStatus_eqb s loan_closed
                then Loan.set_closedAt (Some now) (Loan.set_status s loan)
                else Loan.set_status s loan).
  assert (Hid' : Loan._id loan' = loanId)
    by (unfold loan'; destruct (LoanStatus_eqb s loan_closed); exact Hid).
  exists (with_loans (saveDoc Loan._id loan' (loansDb st)) st), loan'.
  split; [reflexivity|]. split.
  { simpl. rewrite <- Hid'. apply findById_saveDoc_same with (old := loan).
    now rewrite Hid'. }
  unfold loan'.
  destruct (LoanStatus_eqb s loan_closed); simpl;
    (repeat split; try reflexivity;
     intros other Hne; apply findById_saveDoc_other; simpl; congruence).
Qed.


Section UpdateAt.
Context {A : Type}.

Lemma updateAt_updateAt i (f g : A -> A) l :
  updateAt i g (updateAt i f l) = updateAt i (fun x => g (f x)) l.
Proof.
  revert i. induction l as [|x l IH]; intros [|i]; simpl; try reflexivity.
  now rewrite IH.
Qed.

Lemma find_updateAt_never (p : A -> bool) i (f g : A -> A) l :
  (forall x, p (f x) = false) -> (forall x, p (g x) = false) ->
  find p (updateAt i f l) = find p (updateAt i g l).
Proof.
  intros Hf Hg. revert i.
  induction l as [|x l IH]; intros [|i]; simpl; try reflexivity.
  - now rewrite Hf, Hg.
  - now rewrite IH.
Qed.

Lemma existsb_updateAt_never (p : A -> bool) i (f g : A -> A) l :
  (forall x, p (f x) = false) -> (forall x, p (g x) = false) ->
  existsb p (updateAt i f l) = existsb p (updateAt i g l).
Proof.
  intros Hf Hg. revert i.
  induction l as [|x l IH]; intros [|i]; simpl; try reflexivity.
  - now rewrite Hf, Hg.
  - now rewrite IH.
Qed.

Lemma findIndex_updateAt (p : A -> bool) (f : A -> A) l i e :
  (forall x, p (f x) = p x) ->
  findIndex p l = Some (i, e) ->
  findIndex p (updateAt i f l) = Some (i, f e).
Proof.
  intros Hp. revert i.
  induction l as [|x l IH]; intros i H; simpl in H; [discriminate|].
  destruct (p x) eqn:Hx.
  - injection H as <- <-. simpl. now rewrite Hp, Hx.
  - destruct (findIndex p l) as [[j y]|] eqn:Hl; [|discriminate].
    injection H as <- <-. simpl. rewrite Hx, (IH j eq_refl). reflexivity.
Qed.
End UpdateAt.

Lemma withPaidAmount_saveDoc loanId emiNumber amount loan i e st ls :
  Loan._id loan = loanId ->
  findIndex (fun e => Emi.emiNumber e =? emiNumber) (Loan.emiSchedule loan)
    = Some (i, e) ->
  withPaidAmount loanId emiNumber amount
    (with_loans (saveDoc Loan._id loan ls) st)
  = with_loans
      (saveDoc Loan._id
         (Loan.set_emiSchedule
            (updateAt i (Emi.set_paidAmount amount) (Loan.emiSchedule loan))
            loan) ls) st.
Proof.
  intros Hid Hfind. unfold withPaidAmount, with_loans. simpl. f_equal.
  unfold saveDoc. rewrite map_map. apply map_ext. intros x. simpl.
  rewrite Hid.
  destruct (Nat.eqb (Loan._id x) loanId) eqn:E.
  - rewrite Hid, Nat.eqb_refl, Hfind. reflexivity.
  - rewrite E. reflexivity.
Qed.

(** What [recordPayment] does with an installment that can be paid: the
    loan as it is to be saved, the collaterals as they are written before,
    and the answer, which depends on the validation of the loan. *)
Lemma recordPayment_payable st loanId emiNumber amount paymentReference
    paymentDate now loan i emi :
  findById Loan._id loanId (loansDb st) = Some loan ->
  Loan.status loan <> loan_closed ->
  findIndex (fun e => Emi.emiNumber e =? emiNumber) (Loan.emiSchedule loan)
  = Some (i, emi) ->
  Emi.status emi <> emi_paid ->
  exists loan' cs,
    loanTerms loan' = loanTerms loan
    /\ Loan.emiSchedule loan'
       = updateAt i
           (paidEmi amount paymentReference
                    match paymentDate with Some d => d | None => now end)
           (Loan.emiSchedule loan)
    /\ Loan.outstandingAmount loan'
       = jssub (Loan.outstandingAmount loan) (Emi.principal emi)
    /\ Loan.totalPrincipalPaid loan'
       = jsadd (Loan.totalPrincipalPaid loan) (Emi.principal emi)
    /\ Loan.totalInterestPaid loan'
       = jsadd (Loan.totalInterestPaid loan) (Emi.interest emi)
    /\ Loan.nextEmiDate loan'
       = option_map Emi.dueDate
           (find (fun e => EmiStatus_eqb (Emi.status e) emi_pending)
                 (Loan.emiSchedule loan'))
    /\ Loan.currentLTV loan'
       = (if Qltb 0 (Loan.totalCollateralValue loan)
          then jsmul (jsquot (Loan.outstandingAmount loan')
                             (Loan.totalCollateralValue loan)) 100
          else Loan.currentLTV loan)
    /\ Loan.status loan'
       = (if fullyPaid (Loan.outstandingAmount loan') (Loan.emiSchedule loan')
          then loan_closed
          else if hasOverdue (Loan.emiSchedule loan') then loan_overdue
          else if LoanStatus_eqb (Loan.status loan) loan_overdue
          then loan_active
          else Loan.status loan)
    /\ Loan.closedAt loan'
       = (if fullyPaid (Loan.outstandingAmount loan') (Loan.emiSchedule loan')
          then Some now else Loan.closedAt loan)
    /\ Loan.closureReason loan'
       = (if fullyPaid (Loan.outstandingAmount loan') (Loan.emiSchedule loan')
          then Some fully_paid else Loan.closureReason loan)
    /\ cs
       = (if fullyPaid (Loan.outstandingAmount loan') (Loan.emiSchedule loan')
          then updateMany
                 (fun c => ObjectId_opt_eqb (Collateral.linkedLoan c) loanId)
                 (fun c =>
                    Collateral.set_linkedLoan None
                      (Collateral.set_lienReleasedDate (Some now)
                         (Collateral.set_lienStatus lien_released c)))
                 (collateralsDb st)
          else collateralsDb st)
    /\ recordPayment st loanId emiNumber amount paymentReference paymentDate
                     now
       = (if Loan.validate loan'
          then Ok (with_loans (saveDoc Loan._id loan' (loansDb st))
                              (with_collaterals cs st))
          else Failed (with_collaterals cs st) ValidationFailed).
Proof.
  intros Hloan Hopen Hemi Hunpaid. unfold recordPayment. rewrite Hloan.
  pose proof (findById_id _ _ _ _ Hloan) as Hid.
  assert (Hclosed : LoanStatus_eqb (Loan.status loan) loan_closed = false)
    by (destruct (Loan.status loan); try reflexivity; now elim Hopen).
  assert (Hpaid : EmiStatus_eqb (Emi.status emi) emi_paid = false)
    by (destruct (Emi.status emi); try reflexivity; now elim Hunpaid).
  rewrite Hclosed, Hemi, Hpaid.
  unfold fullyPaid, hasOverdue, Loan.validate.
  set (paidDate := match paymentDate with Some d => d | None => now end).
  set (pending := fun e => EmiStatus_eqb (Emi.status e) emi_pending).
  set (overdue := fun e => EmiStatus_eqb (Emi.status e) emi_overdue).
  destruct loan as [lid lapp lprod ldisb lout lten lrate lemi lnext lcols
                    ltcv lltv lstatus lsched ltp lti ldate lclosed lreason].
  simpl in Hid, Hemi, Hclosed. subst lid.
  set (schedule' := updateAt i (paidEmi amount paymentReference paidDate)
                             lsched).
  set (outstanding' := jssub lout (Emi.principal emi)).
  set (full := Qle_bool outstanding' 0
               || match find pending schedule' with
                  | Some _ => false
                  | None => true
                  end).
  exists (Loan.mk loanId lapp lprod ldisb outstanding' lten lrate lemi
            (option_map Emi.dueDate (find pending schedule')) lcols ltcv
            (if Qltb 0 ltcv then jsmul (jsquot outstanding' ltcv) 100
             else lltv)
            (if full then loan_closed
             else if existsb overdue schedule' then loan_overdue
             else if LoanStatus_eqb lstatus loan_overdue then loan_active
             else lstatus)
            schedule'
            (jsadd ltp (Emi.principal emi)) (jsadd lti (Emi.interest emi))
            ldate
            (if full then Some now else lclosed)
            (if full then Some fully_paid else lreason)).
  exists (if full
          then updateMany
                 (fun c => ObjectId_opt_eqb (Collateral.linkedLoan c) loanId)
                 (fun c =>
                    Collateral.set_linkedLoan None
                      (Collateral.set_lienReleasedDate (Some now)
                         (Collateral.set_lienStatus lien_released c)))
                 (collateralsDb st)
          else collateralsDb st).
  unfold loanTerms. loan_fields.
  do 11 (split; [reflexivity|]).
  fold schedule' outstanding'.
  destruct (Qltb 0 ltcv); loan_fields; fold full;
    destruct full; loan_fields;
    destruct (existsb overdue schedule');
    destruct (Qle_bool 0 outstanding') eqn:Hval;
    destruct lstatus; try discriminate Hclosed;
    cbv beta iota zeta delta [negb andb]; rewrite ?Hval; reflexivity.
Qed.

(** The guards of [recordPayment] do not read the amount: the request is
    refused whatever the amount, or the installment can be paid. *)
Lemma recordPayment_guards st loanId emiNumber paymentReference paymentDate
    now :
  (exists e, forall amount,
      recordPayment st loanId emiNumber amount paymentReference paymentDate
                    now = Err e)
  \/ (exists loan i emi,
        findById Loan._id loanId (loansDb st) = Some loan
        /\ Loan.status loan <> loan_closed
        /\ findIndex (fun e => Emi.emiNumber e =? emiNumber)
                     (Loan.emiSchedule loan) = Some (i, emi)
        /\ Emi.status emi <> emi_paid).
Proof.
  unfold recordPayment.
  destruct (findById Loan._id loanId (loansDb st)) as [loan|] eqn:Hloan;
    [|left; now exists LoanNotFound].
  destruct (LoanStatus_eqb (Loan.status loan) loan_closed) eqn:Hclosed;
    [left; now exists LoanClosed|].
  destruct (findIndex _ (Loan.emiSchedule loan)) as [[i emi]|] eqn:Hemi;
    [|left; now exists EmiNotFound].
  destruct (EmiStatus_eqb (Emi.status emi) emi_paid) eqn:Hpaid;
    [left; now exists AlreadyPaid|].
  right. exists loan, i, emi. split; [reflexivity|].
  split; [intros E; rewrite E in Hclosed; discriminate|].
  split; [exact Hemi|]. intros E. rewrite E in Hpaid. discriminate.
Qed.

Lemma findById_after_payment st loanId loan loan' :
  findById Loan._id loanId (loansDb st) = Some loan ->
  loanTerms loan' = loanTerms loan ->
  findById Loan._id loanId (saveDoc Loan._id loan' (loansDb st)) = Some loan'.
Proof.
  intros Hloan Hterms.
  assert (Hid : Loan._id loan' = loanId).
  { pose proof (findById_id _ _ _ _ Hloan). unfold loanTerms in Hterms.
    congruence. }
  rewrite <- Hid. apply findById_saveDoc_same with (old := loan).
  now rewrite Hid.
Qed.

Lemma fullyPaid_amount outstandingAmount i a1 a2 paymentReference paidDate
    schedule :
  fullyPaid outstandingAmount
    (updateAt i (paidEmi a1 paymentReference paidDate) schedule)
  = fullyPaid outstandingAmount
      (updateAt i (paidEmi a2 paymentReference paidDate) schedule).
Proof.
  unfold fullyPaid.
  rewrite (find_updateAt_never _ i (paidEmi a1 paymentReference paidDate)
             (paidEmi a2 paymentReference paidDate)) by reflexivity.
  reflexivity.
Qed.

Lemma hasOverdue_amount i a1 a2 paymentReference paidDate schedule :
  hasOverdue (updateAt i (paidEmi a1 paymentReference paidDate) schedule)
  = hasOverdue (updateAt i (paidEmi a2 paymentReference paidDate) schedule).
Proof.
  unfold hasOverdue.
  apply existsb_updateAt_never; reflexivity.
Qed.

(** C9: the amount paid does not interfere with the ledger.  For any store,
    loan, installment number, reference and dates:

    - an installment that can be paid (the loan is in the store and is not
      closed, the installment is in its schedule and is not paid) is
      accepted with every amount, provided the outstanding amount less the
      principal of the installment is not negative; the loan is then saved
      with the outstanding amount reduced by the scheduled principal of the
      installment, the totals of principal and interest paid increased by
      its scheduled principal and interest, and the installment marked paid
      with the amount sent as its [paidAmount];
    - two requests that differ in the amount only are refused alike, fail
      alike leaving the same store, or succeed alike; when they succeed the
      second post-state is the first one with only the [paidAmount] of the
      installment paid overwritten, so that the outstanding amount, the
      totals of principal and interest paid, the current LTV, the next EMI
      date and the status of the loan are the same, and so are the
      collaterals. *)
Theorem recordPayment_amount_noninterference (st : Store) (loanId : ObjectId)
    (emiNumber : Z) (a1 a2 : Q) (paymentReference : option string)
    (paymentDate : option Date) (now : Date) :
  let pay amount :=
    handle st (RecordPayment loanId emiNumber amount paymentReference
                             paymentDate) now in
  (forall loan i emi,
     findById Loan._id loanId (loansDb st) = Some loan ->
     Loan.status loan <> loan_closed ->
     findIndex (fun e => Emi.emiNumber e =? emiNumber) (Loan.emiSchedule loan)
     = Some (i, emi) ->
     Emi.status emi <> emi_paid ->
     (0 <= jssub (Loan.outstandingAmount loan) (Emi.principal emi))%Q ->
     forall amount, exists st' loan',
       pay amount = Ok st'
       /\ findById Loan._id loanId (loansDb st') = Some loan'
       /\ Loan.outstandingAmount loan'
          = jssub (Loan.outstandingAmount loan) (Emi.principal emi)
       /\ Loan.totalPrincipalPaid loan'
          = jsadd (Loan.totalPrincipalPaid loan) (Emi.principal emi)
       /\ Loan.totalInterestPaid loan'
          = jsadd (Loan.totalInterestPaid loan) (Emi.interest emi)
       /\ Loan.emiSchedule loan'
          = updateAt i
              (paidEmi amount paymentReference
                       match paymentDate with Some d => d | None => now end)
              (Loan.emiSchedule loan))
  /\ match pay a1 with
     | Err e => pay a2 = Err e
     | Failed st1 e => pay a2 = Failed st1 e
     | Ok st1 =>
         exists st2 l1 l2,
           pay a2 = Ok st2
           /\ st2 = withPaidAmount loanId emiNumber a2 st1
           /\ collateralsDb st2 = collateralsDb st1
           /\ findById Loan._id loanId (loansDb st1) = Some l1
           /\ findById Loan._id loanId (loansDb st2) = Some l2
           /\ Loan.outstandingAmount l2 = Loan.outstandingAmount l1
           /\ Loan.totalPrincipalPaid l2 = Loan.totalPrincipalPaid l1
           /\ Loan.totalInterestPaid l2 = Loan.totalInterestPaid l1
           /\ Loan.currentLTV l2 = Loan.currentLTV l1
           /\ Loan.nextEmiDate l2 = Loan.nextEmiDate l1
           /\ Loan.status l2 = Loan.status l1
     end.
Proof.
  cbv zeta. unfold handle. split.
  - intros loan i emi Hloan Hopen Hemi Hunpaid Hout amount.
    destruct (recordPayment_payable st loanId emiNumber amount
                paymentReference paymentDate now loan i emi Hloan Hopen Hemi
                Hunpaid)
      as (loan' & cs & Hterms & Hsched & Ho & Htp & Hti & _ & _ & _ & _ & _ & _
          & Hres).
    assert (Hval : Loan.validate loan' = true).
    { unfold Loan.validate. rewrite Ho. now apply Qle_bool_iff. }
    rewrite Hval in Hres. eexists. exists loan'.
    split; [exact Hres|]. cbn [loansDb with_loans].
    split; [now apply findById_after_payment with (loan := loan)|].
    repeat split; assumption.
  - destruct (recordPayment_guards st loanId emiNumber paymentReference
                paymentDate now)
      as [[e He] | (loan & i & emi & Hloan & Hopen & Hemi & Hunpaid)].
    { rewrite (He a1). apply He. }
    destruct (recordPayment_payable st loanId emiNumber a1 paymentReference
                paymentDate now loan i emi Hloan Hopen Hemi Hunpaid)
      as (l1 & cs1 & Hterms1 & Hsched1 & Ho1 & Htp1 & Hti1 & Hnext1 & Hltv1
          & Hst1 & Hat1 & Hre1 & Hcs1 & Hres1).
    destruct (recordPayment_payable st loanId emiNumber a2 paymentReference
                paymentDate now loan i emi Hloan Hopen Hemi Hunpaid)
      as (l2 & cs2 & Hterms2 & Hsched2 & Ho2 & Htp2 & Hti2 & Hnext2 & Hltv2
          & Hst2 & Hat2 & Hre2 & Hcs2 & Hres2).
    set (paidDate := match paymentDate with Some d => d | None => now end)
      in *.
    assert (Hfull :
              fullyPaid (Loan.outstandingAmount l2) (Loan.emiSchedule l2)
              = fullyPaid (Loan.outstandingAmount l1) (Loan.emiSchedule l1)).
    { rewrite Ho1, Ho2, Hsched1, Hsched2. apply fullyPaid_amount. }
    assert (Hover : hasOverdue (Loan.emiSchedule l2)
                    = hasOverdue (Loan.emiSchedule l1)).
    { rewrite Hsched1, Hsched2. apply hasOverdue_amount. }
    assert (Hpending :
              find (fun e => EmiStatus_eqb (Emi.status e) emi_pending)
                   (Loan.emiSchedule l2)
              = find (fun e => EmiStatus_eqb (Emi.status e) emi_pending)
                     (Loan.emiSchedule l1)).
    { rewrite Hsched1, Hsched2. apply find_updateAt_never; reflexivity. }
    assert (Hcs : cs2 = cs1) by (rewrite Hcs1, Hcs2, Hfull; reflexivity).
    assert (Hval : Loan.validate l2 = Loan.validate l1)
      by (unfold Loan.validate; rewrite Ho1, Ho2; reflexivity).
    assert (Hl2 : l2 = Loan.set_emiSchedule
                         (updateAt i (Emi.set_paidAmount a2)
                                   (Loan.emiSchedule l1)) l1).
    { rewrite Hfull, Hover in *. rewrite Hpending in Hnext2.
      rewrite Ho2, <- Ho1 in Hltv2.
      rewrite <- Hnext1 in Hnext2. rewrite <- Hltv1 in Hltv2.
      rewrite <- Hst1 in Hst2. rewrite <- Hat1 in Hat2.
      rewrite <- Hre1 in Hre2.
      rewrite <- Hterms1 in Hterms2. rewrite <- Ho1 in Ho2.
      rewrite <- Htp1 in Htp2. rewrite <- Hti1 in Hti2.
      assert (Hs : Loan.emiSchedule l2
                   = updateAt i (Emi.set_paidAmount a2) (Loan.emiSchedule l1))
        by (rewrite Hsched1, Hsched2, updateAt_updateAt; reflexivity).
      clear - Hterms2 Ho2 Htp2 Hti2 Hnext2 Hltv2 Hst2 Hat2 Hre2 Hs.
      unfold loanTerms in Hterms2.
      destruct l1, l2; unfold Loan.set_emiSchedule; simpl in *.
      injection Hterms2 as -> -> -> -> -> -> -> -> -> ->.
      subst. reflexivity. }
    rewrite Hres1, Hres2, Hval, Hcs.
    destruct (Loan.validate l1); [|reflexivity].
    assert (Hid1 : Loan._id l1 = loanId).
    { pose proof (findById_id _ _ _ _ Hloan). unfold loanTerms in Hterms1.
      congruence. }
    eexists. exists l1, l2. split; [reflexivity|]. split.
    { rewrite (withPaidAmount_saveDoc loanId emiNumber a2 l1 i
                 (paidEmi a1 paymentReference paidDate emi));
        [now rewrite <- Hl2 | exact Hid1 |].
      rewrite Hsched1. apply findIndex_updateAt; [reflexivity | exact Hemi]. }
    split; [reflexivity|]. cbn [loansDb with_loans].
    split; [now apply findById_after_payment with (loan := loan)|].
    split; [now apply findById_after_payment with (loan := loan)|].
    rewrite Hl2. destruct l1; repeat split.
Qed.

Lemma recordPayment_amount_noninterference_witness :
  exists st1 st2,
    handle disbursedStore (RecordPayment 2%nat 1 84000 None None) jan31
    = Ok st1
    /\ handle disbursedStore (RecordPayment 2%nat 1 1 None None) jan31
       = Ok st2
    /\ st2 = withPaidAmount 2%nat 1 1 st1.
Proof.
  destruct (recordPayment_amount_noninterference disbursedStore 2%nat 1
              84000 1 None None jan31) as [_ H].
  assert (Hok : match handle disbursedStore
                        (RecordPayment 2%nat 1 84000 None None) jan31 with
                | Ok _ => true
                | _ => false
                end = true) by (vm_compute; reflexivity).
  destruct (handle disbursedStore (RecordPayment 2%nat 1 84000 None None)
                   jan31) as [st1|e|s e]; try discriminate.
  destruct H as (st2 & l1 & l2 & H2 & Hst2 & _).
  exists st1, st2. split; [reflexivity|]. split; [exact H2 | exact Hst2].
Defined.

(** What a successful [recordPayment] has found and saved. *)
Lemma recordPayment_Ok st loanId emiNumber amount paymentReference paymentDate
    now st' :
  recordPayment st loanId emiNumber amount paymentReference paymentDate now
  = Ok st' ->
  exists loan i emi loan',
    findById Loan._id loanId (loansDb st) = Some loan
    /\ Loan.status loan <> loan_closed
    /\ findIndex (fun e => Emi.emiNumber e =? emiNumber)
                 (Loan.emiSchedule loan) = Some (i, emi)
    /\ Emi.status emi <> emi_paid
    /\ loansDb st' = saveDoc Loan._id loan' (loansDb st)
    /\ loanTerms loan' = loanTerms loan
    /\ Loan.emiSchedule loan'
       = updateAt i
           (paidEmi amount paymentReference
                    match paymentDate with Some d => d | None => now end)
           (Loan.emiSchedule loan)
    /\ Loan.outstandingAmount loan'
       = jssub (Loan.outstandingAmount loan) (Emi.principal emi)
    /\ Loan.totalPrincipalPaid loan'
       = jsadd (Loan.totalPrincipalPaid loan) (Emi.principal emi)
    /\ Loan.totalInterestPaid loan'
       = jsadd (Loan.totalInterestPaid loan) (Emi.interest emi)
    /\ Loan.nextEmiDate loan'
       = option_map Emi.dueDate
           (find (fun e => EmiStatus_eqb (Emi.status e) emi_pending)
                 (Loan.emiSchedule loan'))
    /\ Loan.currentLTV loan'
       = (if Qltb 0 (Loan.totalCollateralValue loan)
          then jsmul (jsquot (Loan.outstandingAmount loan')
                             (Loan.totalCollateralValue loan)) 100
          else Loan.currentLTV loan)
    /\ Loan.status loan'
       = (if fullyPaid (Loan.outstandingAmount loan') (Loan.emiSchedule loan')
          then loan_closed
          else if hasOverdue (Loan.emiSchedule loan') then loan_overdue
          else if LoanStatus_eqb (Loan.status loan) loan_overdue
          then loan_active
          else Loan.status loan)
    /\ Loan.closedAt loan'
       = (if fullyPaid (Loan.outstandingAmount loan') (Loan.emiSchedule loan')
          then Some now else Loan.closedAt loan)
    /\ Loan.closureReason loan'
       = (if fullyPaid (Loan.outstandingAmount loan') (Loan.emiSchedule loan')
          then Some fully_paid else Loan.closureReason loan)
    /\ collateralsDb st'
       = (if fullyPaid (Loan.outstandingAmount loan') (Loan.emiSchedule loan')
          then updateMany
                 (fun c => ObjectId_opt_eqb (Collateral.linkedLoan c) loanId)
                 (fun c =>
                    Collateral.set_linkedLoan None
                      (Collateral.set_lienReleasedDate (Some now)
                         (Collateral.set_lienStatus lien_released c)))
                 (collateralsDb st)
          else collateralsDb st)
    /\ applicationsDb st' = applicationsDb st
    /\ productsDb st' = productsDb st
    /\ nextId st' = nextId st
    /\ (0 <= Loan.outstandingAmount loan')%Q.
Proof.
  intros H.
  destruct (recordPayment_guards st loanId emiNumber paymentReference
              paymentDate now)
    as [[e He] | (loan & i & emi & Hloan & Hopen & Hemi & Hunpaid)];
    [rewrite He in H; discriminate|].
  destruct (recordPayment_payable st loanId emiNumber amount paymentReference
              paymentDate now loan i emi Hloan Hopen Hemi Hunpaid)
    as (loan' & cs & Hterms & Hsched & Ho & Htp & Hti & Hnext & Hltv & Hst
        & Hat & Hre & Hcs & Hres).
  rewrite Hres in H.
  destruct (Loan.validate loan') eqn:Hval; [|discriminate].
  injection H as <-. exists loan, i, emi, loan'.
  cbn [loansDb collateralsDb applicationsDb productsDb nextId with_loans
       with_collaterals].
  do 4 (split; [assumption|]). split; [reflexivity|].
  do 4 (split; [assumption|]). split; [assumption|].
  do 5 (split; [assumption|]). split; [assumption|].
  do 3 (split; [reflexivity|]).
  now apply Qle_bool_iff.
Qed.

(** A payment that fails after a write: the loan to be saved has a negative
    outstanding amount, which counts as fully paid, so the collaterals of
    the loan were released before [loan.save()] raised its validation
    error; the loan itself is not written. *)
Lemma recordPayment_Failed st loanId emiNumber amount paymentReference
    paymentDate now st' e :
  recordPayment st loanId emiNumber amount paymentReference paymentDate now
  = Failed st' e ->
  e = ValidationFailed
  /\ st' = with_collaterals
             (updateMany
                (fun c => ObjectId_opt_eqb (Collateral.linkedLoan c) loanId)
                (fun c =>
                   Collateral.set_linkedLoan None
                     (Collateral.set_lienReleasedDate (Some now)
                        (Collateral.set_lienStatus lien_released c)))
                (collateralsDb st)) st
  /\ exists loan i emi,
       findById Loan._id loanId (loansDb st) = Some loan
       /\ Loan.status loan <> loan_closed
       /\ findIndex (fun e => Emi.emiNumber e =? emiNumber)
                    (Loan.emiSchedule loan) = Some (i, emi)
       /\ Emi.status emi <> emi_paid
       /\ (jssub (Loan.outstandingAmount loan) (Emi.principal emi) < 0)%Q.
Proof.
  intros H.
  destruct (recordPayment_guards st loanId emiNumber paymentReference
              paymentDate now)
    as [[e' He] | (loan & i & emi & Hloan & Hopen & Hemi & Hunpaid)];
    [rewrite He in H; discriminate|].
  destruct (recordPayment_payable st loanId emiNumber amount paymentReference
              paymentDate now loan i emi Hloan Hopen Hemi Hunpaid)
    as (loan' & cs & _ & _ & Ho & _ & _ & _ & _ & _ & _ & _ & Hcs & Hres).
  rewrite Hres in H.
  destruct (Loan.validate loan') eqn:Hval; [discriminate|].
  injection H as <- <-.
  assert (Hneg : (Loan.outstandingAmount loan' < 0)%Q).
  { unfold Loan.validate in Hval. apply Qnot_le_lt. intros Hle.
    apply Qle_bool_iff in Hle. congruence. }
  assert (Hfull : fullyPaid (Loan.outstandingAmount loan')
                            (Loan.emiSchedule loan') = true).
  { unfold fullyPaid. apply orb_true_iff. left. apply Qle_bool_iff.
    now apply Qlt_le_weak. }
  rewrite Hfull in Hcs. rewrite Hcs.
  split; [reflexivity|]. split; [reflexivity|].
  exists loan, i, emi. rewrite <- Ho. now repeat split.
Qed.

(** Only a payment fails after a write. *)
Lemma handle_Failed st r now st' e :
  handle st r now = Failed st' e ->
  e = ValidationFailed
  /\ exists loanId,
       st' = with_collaterals
               (updateMany
                  (fun c => ObjectId_opt_eqb (Collateral.linkedLoan c) loanId)
                  (fun c =>
                     Collateral.set_linkedLoan None
                       (Collateral.set_lienReleasedDate (Some now)
                          (Collateral.set_lienStatus lien_released c)))
                  (collateralsDb st)) st.
Proof.
  intros H. destruct r; simpl in H; try discriminate.
  - unfold createCollateral in H.
    destruct (find _ (collateralsDb st)); discriminate.
  - unfold markLien in H.
    destruct (findById _ id (collateralsDb st)); [|discriminate].
    destruct (LienStatus_eqb _ lien_marked); discriminate.
  - unfold releaseLien in H.
    destruct (findById _ id (collateralsDb st)); [|discriminate].
    destruct (negb _); [discriminate|].
    match type of H with
    | (if ?b then _ else _) = _ => destruct b; discriminate
    end.
  - unfold createApplication in H.
    destruct (findById _ loanProductId (productsDb st)); [|discriminate].
    repeat match type of H with
           | (if ?b then _ else _) = _ => destruct b; [discriminate|]
           end.
    unfold resolveCollaterals in H.
    destruct collateralFolios; cbn [bind] in H;
      repeat match type of H with
             | (if ?b then _ else _) = _ => destruct b; try discriminate
             | bind (if ?b then _ else _) _ = _ =>
                 destruct b; cbn [bind] in H; try discriminate
             end.
  - unfold updateApplicationStatus in H.
    destruct (findById _ id (applicationsDb st)); [|discriminate].
    destruct (lookupName _ _ status) as [target|]; [|discriminate].
    destruct target; try discriminate.
    unfold bind, createLoanFromApplication in H.
    destruct (findById LoanApplication._id _ (applicationsDb st));
      [|discriminate].
    destruct (findById LoanProduct._id _ (productsDb st)); [|discriminate].
    destruct (emiFormula _ _ _); discriminate.
  - apply recordPayment_Failed in H. destruct H as (-> & -> & _).
    split; [reflexivity|]. now exists loanId.
  - unfold updateLoanStatus in H.
    destruct (findById _ loanId (loansDb st)); [|discriminate].
    destruct (lookupName _ _ status); discriminate.
Qed.


(** ** Overdue sweep *)

Lemma isPastDue_set_overdue today emi :
  isPastDue today (Emi.set_status emi_overdue emi) = false.
Proof. reflexivity. Qed.

Lemma no_past_due_after_marking today schedule :
  existsb (isPastDue today)
    (map (fun emi =>
            if isPastDue today emi then Emi.set_status emi_overdue emi
            else emi) schedule) = false.
Proof.
  induction schedule as [|e s IH]; simpl; [reflexivity|].
  destruct (isPastDue today e) eqn:E.
  - rewrite isPastDue_set_overdue. exact IH.
  - rewrite E. exact IH.
Qed.

Lemma markLoanOverdue_settled today loan :
  existsb (isPastDue today) (Loan.emiSchedule (markLoanOverdue today loan))
  = false.
Proof.
  unfold markLoanOverdue.
  destruct (existsb (isPastDue today) (Loan.emiSchedule loan)) eqn:E.
  - simpl. apply no_past_due_after_marking.
  - exact E.
Qed.

Lemma sweepLoan_settled today loan :
  overdueCandidate (sweepLoan today loan)
  && existsb (isPastDue today) (Loan.emiSchedule (sweepLoan today loan))
  = false.
Proof.
  unfold sweepLoan. destruct (overdueCandidate loan) eqn:E.
  - rewrite markLoanOverdue_settled. apply andb_false_r.
  - now rewrite E.
Qed.

Lemma sweepLoan_idempotent today loan :
  sweepLoan today (sweepLoan today loan) = sweepLoan today loan.
Proof.
  pose proof (sweepLoan_settled today loan) as H.
  set (l1 := sweepLoan today loan) in *.
  unfold sweepLoan at 1.
  destruct (overdueCandidate l1); [|reflexivity].
  simpl in H. unfold markLoanOverdue. now rewrite H.
Qed.

(** C8: the overdue sweep is idempotent.  For every store and every date,
    a second run on the same date leaves the store of the first run as it
    is, every loan and every installment included, and reports no loan
    updated. *)
Theorem markOverdueEmis_idempotent (st : Store) (today : Date) :
  markOverdueEmis (fst (markOverdueEmis st today)) today
  = (fst (markOverdueEmis st today), 0%nat).
Proof.
  unfold markOverdueEmis. cbn [fst loansDb with_loans].
  f_equal.
  - unfold with_loans. cbn. f_equal.
    rewrite map_map. apply map_ext. apply sweepLoan_idempotent.
  - induction (loansDb st) as [|l ls IH]; [reflexivity|].
    cbn [map filter]. rewrite sweepLoan_settled. exact IH.
Qed.


(** ** Shape of the schedule *)

Lemma daysInMonth_bounds y m : 28 <= daysInMonth y m <= 31.
Proof.
  unfold daysInMonth.
  destruct (m =? 1); [destruct (isLeap y); lia|].
  destruct ((m =? 3) || (m =? 5) || (m =? 8) || (m =? 10)); lia.
Qed.

(** [setMonth] lands in the month asked for with the day kept, or, when the
    day does not exist there, in the month after it on one of its first
    three days. *)
Lemma setMonth_cases d n :
  1 <= day d <= 31 ->
  (monthIndex (setMonth d n) = year d * 12 + n
   /\ day (setMonth d n) = day d)
  \/ (monthIndex (setMonth d n) = year d * 12 + n + 1
      /\ 1 <= day (setMonth d n) <= 3 /\ 28 < day d).
Proof.
  intros Hd. unfold setMonth, monthIndex.
  pose proof (daysInMonth_bounds (year d + n / 12) (n mod 12)) as Hb.
  pose proof (Z.div_mod n 12 ltac:(lia)) as Hn.
  pose proof (Z.mod_pos_bound n 12 ltac:(lia)) as Hm.
  destruct (day d <=? daysInMonth (year d + n / 12) (n mod 12)) eqn:E.
  - left. simpl. split; [lia | reflexivity].
  - right. apply Z.leb_gt in E. simpl.
    pose proof (Z.div_mod (n mod 12 + 1) 12 ltac:(lia)) as Hn'.
    lia.
Qed.

Lemma setMonth_keeps_day d n :
  1 <= day d <= 28 ->
  monthIndex (setMonth d n) = year d * 12 + n /\ day (setMonth d n) = day d.
Proof.
  intros Hd. destruct (setMonth_cases d n) as [H|H]; [lia | exact H | lia].
Qed.

Lemma setMonth_next_lt d n :
  1 <= day d <= 31 ->
  date_lt (setMonth d n) (setMonth d (n + 1)).
Proof.
  intros Hd. unfold date_lt.
  destruct (setMonth_cases d n Hd) as [[Ha Ha']|[Ha Ha']];
    destruct (setMonth_cases d (n + 1) Hd) as [[Hb Hb']|[Hb Hb']]; lia.
Qed.

Lemma validDate_day d : validDate d -> 1 <= day d <= 31.
Proof.
  intros [_ H]. pose proof (daysInMonth_bounds (year d) (month d)). lia.
Qed.

Section ScheduleFrom.
Variables (emi monthlyRate : Q) (startDate : Date).

Lemma scheduleFrom_length balance i n :
  List.length (scheduleFrom emi monthlyRate startDate balance i n) = n.
Proof.
  revert balance i. induction n as [|n IH]; intros; simpl;
    [reflexivity | now rewrite IH].
Qed.

Lemma scheduleFrom_emiNumber balance i n :
  map Emi.emiNumber (scheduleFrom emi monthlyRate startDate balance i n)
  = map Z.of_nat (seq i n).
Proof.
  revert balance i. induction n as [|n IH]; intros; simpl;
    [reflexivity | now rewrite IH].
Qed.

Lemma scheduleFrom_dueDate balance i n :
  map Emi.dueDate (scheduleFrom emi monthlyRate startDate balance i n)
  = map (fun k => setMonth startDate (getMonth startDate + Z.of_nat k))
        (seq i n).
Proof.
  revert balance i. induction n as [|n IH]; intros; simpl;
    [reflexivity | now rewrite IH].
Qed.

Lemma scheduleFrom_monthly balance i n :
  1 <= day startDate <= 28 ->
  Forall (fun e =>
            monthIndex (Emi.dueDate e)
            = monthIndex startDate + Emi.emiNumber e
            /\ day (Emi.dueDate e) = day startDate)
         (scheduleFrom emi monthlyRate startDate balance i n).
Proof.
  intros Hd. revert balance i.
  induction n as [|n IH]; intros; simpl; constructor; [|apply IH].
  simpl.
  destruct (setMonth_keeps_day startDate
              (getMonth startDate + Z.of_nat i) Hd) as [H1 H2].
  unfold monthIndex, getMonth in *. split; [lia | exact H2].
Qed.
End ScheduleFrom.

Lemma increasingDates_setMonth d m i n :
  1 <= day d <= 31 ->
  increasingDates
    (map (fun k => setMonth d (m + Z.of_nat k)) (seq i n)).
Proof.
  intros Hd. revert i. induction n as [|n IH]; intros i; [exact I|].
  cbn [seq map increasingDates].
  specialize (IH (S i)).
  destruct n as [|n]; [exact I|].
  cbn [seq map] in *. split; [|exact IH].
  replace (m + Z.of_nat (S i)) with (m + Z.of_nat i + 1) by lia.
  now apply setMonth_next_lt.
Qed.

(** X19: the shape of a schedule.  For every tenure, rate, principal and valid
    date of disbursal the schedule has exactly [tenure] entries, numbered
    1..tenure without gaps; the due date of installment [i] is the date of
    disbursal moved by [setMonth] to month [getMonth + i], and the due dates
    are strictly increasing.  When the day of disbursal is at most the 28th,
    installment [i] is due on that same day of the [i]-th calendar month
    after disbursal; a later day that the target month does not have is
    carried into the following month. *)
Theorem generateEmiSchedule_shape (interestRate emiAmount disbursedAmount : Q)
    (disbursedAt : Date) (tenure : nat) :
  validDate disbursedAt ->
  let schedule :=
    generateEmiSchedule interestRate emiAmount disbursedAmount disbursedAt
                        tenure in
  List.length schedule = tenure
  /\ map Emi.emiNumber schedule = map Z.of_nat (seq 1 tenure)
  /\ map Emi.dueDate schedule
     = map (fun i => setMonth disbursedAt
                       (getMonth disbursedAt + Z.of_nat i)) (seq 1 tenure)
  /\ increasingDates (map Emi.dueDate schedule)
  /\ (day disbursedAt <= 28 ->
      dueMonthly disbursedAt schedule
      /\ Forall (fun e => day (Emi.dueDate e) = day disbursedAt) schedule).
Proof.
  intros Hvalid schedule. unfold schedule, generateEmiSchedule.
  pose proof (validDate_day _ Hvalid) as Hday.
  split; [apply scheduleFrom_length|].
  split; [apply scheduleFrom_emiNumber|].
  split; [apply scheduleFrom_dueDate|].
  split.
  - rewrite scheduleFrom_dueDate. now apply increasingDates_setMonth.
  - intros H28.
    pose proof (scheduleFrom_monthly emiAmount (monthlyRateOf interestRate)
                  disbursedAt disbursedAmount 1 tenure ltac:(lia)) as H.
    unfold dueMonthly. split.
    + eapply Forall_impl; [|exact H]. now intros e [He _].
    + eapply Forall_impl; [|exact H]. now intros e [_ He].
Qed.

Lemma generateEmiSchedule_shape_witness :
  let schedule :=
    generateEmiSchedule 12 (double (8627418 # 100)) 500000 jan15 6 in
  List.length schedule = 6%nat
  /\ map Emi.emiNumber schedule = map Z.of_nat (seq 1 6)
  /\ map Emi.dueDate schedule
     = map (fun i => setMonth jan15 (getMonth jan15 + Z.of_nat i)) (seq 1 6)
  /\ increasingDates (map Emi.dueDate schedule)
  /\ (day jan15 <= 28 ->
      dueMonthly jan15 schedule
      /\ Forall (fun e => day (Emi.dueDate e) = day jan15) schedule).
Proof.
  apply (generateEmiSchedule_shape 12 (double (8627418 # 100)) 500000 jan15
           6).
  unfold validDate, jan15, daysInMonth; simpl; lia.
Defined.

(** C4: the due dates are not one calendar month apart after a month end.
    [generateEmiSchedule] moves the date of disbursal by [setMonth] to
    month [getMonth + i], and the day of month overflows into the next
    month when the target month is shorter: a loan disbursed on 31 January
    2024 has its first installments due on 2 March and 31 March, both in
    March and none in February, so installment [i] is not due [i] calendar
    months after disbursal. *)
Theorem generateEmiSchedule_not_monthly :
  validDate jan31
  /\ map Emi.dueDate
         (generateEmiSchedule 12 (double (8627418 # 100)) 500000 jan31 6)
     = [mkDate 2024 2 2; mkDate 2024 2 31; mkDate 2024 4 1;
        mkDate 2024 4 31; mkDate 2024 6 1; mkDate 2024 6 31]
  /\ ~ dueMonthly jan31
         (generateEmiSchedule 12 (double (8627418 # 100)) 500000 jan31 6).
Proof.
  split; [unfold validDate, jan31, daysInMonth; simpl; lia|].
  split; [reflexivity|].
  intros H. inversion H as [|e l He _]. subst.
  vm_compute in He. discriminate.
Qed.


(** ** The collateral ledger *)

Lemma NoDup_map_inj {A B : Type} (f : A -> B) (l : list A) (x y : A) :
  NoDup (map f l) -> In x l -> In y l -> f x = f y -> x = y.
Proof.
  induction l as [|a l IH]; simpl; [tauto|].
  intros Hnd Hx Hy Hf. inversion Hnd as [|? ? Hnotin Hnd']; subst.
  destruct Hx as [->|Hx], Hy as [->|Hy]; auto.
  - elim Hnotin. rewrite Hf. now apply in_map.
  - elim Hnotin. rewrite <- Hf. now apply in_map.
Qed.

Lemma updateMany_none {A : Type} (p : A -> bool) (patch : A -> A) l :
  (forall x, p x = false) -> updateMany p patch l = l.
Proof.
  intros H. unfold updateMany. rewrite <- (map_id l) at 2.
  apply map_ext. intros x. now rewrite H.
Qed.

Lemma In_saveDoc {A : Type} (idOf : A -> ObjectId) (d x : A) l :
  In x (saveDoc idOf d l) -> x = d \/ In x l.
Proof.
  unfold saveDoc. intros H. apply in_map_iff in H.
  destruct H as [y [Hy Hin]].
  destruct (Nat.eqb (idOf y) (idOf d)); subst; auto.
Qed.

Lemma keepsLedger_id cs : keepsLedger cs (fun c => c).
Proof. intros c _. auto. Qed.

(** Saving a collateral whose identifier is that of a document [c0] of the
    collection, and which has a lien or the links of [c0]. *)
Lemma keepsLedger_saveDoc cs c0 d :
  NoDup (map Collateral._id cs) ->
  In c0 cs ->
  Collateral._id d = Collateral._id c0 ->
  (Collateral.lienStatus d = lien_none ->
   Collateral.lienStatus c0 = lien_none
   /\ Collateral.linkedApplication d = Collateral.linkedApplication c0
   /\ Collateral.linkedLoan d = Collateral.linkedLoan c0) ->
  keepsLedger cs
    (fun x => if Nat.eqb (Collateral._id x) (Collateral._id d) then d else x).
Proof.
  intros Hnd Hc0 Hid Hd c Hc.
  destruct (Nat.eqb (Collateral._id c) (Collateral._id d)) eqn:E; [|auto].
  apply Nat.eqb_eq in E.
  assert (c = c0) by (eapply NoDup_map_inj; eauto; congruence).
  subst c. auto.
Qed.

Lemma keepsLedger_updateMany cs (p : Collateral.t -> bool) patch :
  (forall c, In c cs -> p c = true ->
     Collateral._id (patch c) = Collateral._id c
     /\ Collateral.lienStatus (patch c) <> lien_none) ->
  keepsLedger cs (fun x => if p x then patch x else x).
Proof.
  intros H c Hc. destruct (p c) eqn:E; [|auto].
  destruct (H c Hc E) as [Hid Hst]. split; [exact Hid | contradiction].
Qed.

(** The ledger after an update of the collaterals, with applications that
    pledge what an earlier application pledged or collaterals under lien. *)
Lemma ledgerInv_map cs apps nid g apps' nid' :
  ledgerInv cs apps nid ->
  keepsLedger cs g ->
  (forall a', In a' apps' ->
     (exists a, In a apps
                /\ LoanApplication.collaterals a'
                   = LoanApplication.collaterals a)
     \/ (forall id, In id (LoanApplication.collaterals a') ->
           (id < nid')%nat
           /\ forall c, In c cs -> Collateral._id c = id ->
                Collateral.lienStatus (g c) <> lien_none)) ->
  (nid <= nid')%nat ->
  ledgerInv (map g cs) apps' nid'.
Proof.
  intros (I1 & J & K & K2 & U) Hg Happs Hnid.
  assert (Hids : map Collateral._id (map g cs) = map Collateral._id cs).
  { rewrite map_map. apply map_ext_in. intros c Hc. apply (Hg c Hc). }
  repeat split.
  - apply in_map_iff in H. destruct H as [c0 [<- Hc0]].
    destruct (Hg c0 Hc0) as [_ Hk]. destruct (Hk H0) as (Hn & Ha & Hl).
    destruct (I1 c0 Hc0 Hn). congruence.
  - apply in_map_iff in H. destruct H as [c0 [<- Hc0]].
    destruct (Hg c0 Hc0) as [_ Hk]. destruct (Hk H0) as (Hn & Ha & Hl).
    destruct (I1 c0 Hc0 Hn). congruence.
  - intros a' c' Ha' Hc' Hin Hnone.
    apply in_map_iff in Hc'. destruct Hc' as [c0 [<- Hc0]].
    destruct (Hg c0 Hc0) as [Hid Hk].
    destruct (Happs a' Ha') as [[a [Ha Heq]]|Hnew].
    + apply (J a c0 Ha Hc0); [congruence | now apply Hk].
    + rewrite Hid in Hin. destruct (Hnew _ Hin) as [_ Hm].
      now apply (Hm c0 Hc0 eq_refl).
  - intros c' Hc'. apply in_map_iff in Hc'. destruct Hc' as [c0 [<- Hc0]].
    destruct (Hg c0 Hc0) as [Hid _]. rewrite Hid.
    specialize (K c0 Hc0). lia.
  - intros a' id Ha' Hin.
    destruct (Happs a' Ha') as [[a [Ha Heq]]|Hnew].
    + rewrite Heq in Hin. specialize (K2 a id Ha Hin). lia.
    + now apply Hnew.
  - now rewrite Hids.
Qed.

Lemma ledgerInv_same_apps cs apps nid g :
  ledgerInv cs apps nid -> keepsLedger cs g -> ledgerInv (map g cs) apps nid.
Proof.
  intros H Hg. eapply ledgerInv_map; eauto.
Qed.

Lemma ledger_initial products : storeLedger (initialStore products).
Proof.
  unfold storeLedger, ledgerInv. simpl. repeat split; try tauto. constructor.
Qed.

Lemma ledger_createCollateral st folioNumber units navPerUnit now st' :
  storeLedger st ->
  createCollateral st folioNumber units navPerUnit now = Ok st' ->
  storeLedger st'.
Proof.
  unfold storeLedger, createCollateral.
  intros (I1 & J & K & K2 & U) H.
  destruct (find _ (collateralsDb st)); [discriminate|].
  injection H as <-. simpl.
  repeat split.
  - apply in_app_iff in H. destruct H as [H|[<-|[]]]; [|reflexivity].
    now apply I1.
  - apply in_app_iff in H. destruct H as [H|[<-|[]]]; [|reflexivity].
    now apply I1.
  - intros a c Ha Hc Hin.
    apply in_app_iff in Hc. destruct Hc as [Hc|[<-|[]]].
    + now apply (J a c).
    + simpl in Hin. specialize (K2 a _ Ha Hin). lia.
  - intros c Hc. apply in_app_iff in Hc. destruct Hc as [Hc|[<-|[]]].
    + specialize (K c Hc). lia.
    + simpl. lia.
  - intros a id Ha Hin. specialize (K2 a id Ha Hin). lia.
  - rewrite map_app. simpl. apply NoDup_app; [exact U | repeat constructor; auto |].
    intros x Hx [<-|[]]. apply in_map_iff in Hx.
    destruct Hx as [c [Hid Hc]]. specialize (K c Hc). lia.
Qed.

Lemma ledger_updateNavOne now cs apps nid n u :
  ledgerInv cs apps nid ->
  ledgerInv (fst (updateNavOne now (cs, n) u)) apps nid.
Proof.
  intros H. destruct u as [folioNumber newNav]. unfold updateNavOne.
  destruct (find _ cs) as [c0|] eqn:Hfind; [|exact H].
  apply find_some in Hfind. destruct Hfind as [Hc0 _].
  cbn [fst]. unfold saveDoc. apply ledgerInv_same_apps; [exact H|].
  apply keepsLedger_saveDoc with (c0 := c0); auto.
  apply H.
Qed.

Lemma ledger_updateNav st navUpdates now :
  storeLedger st -> storeLedger (fst (updateNav st navUpdates now)).
Proof.
  unfold storeLedger, updateNav. intros H.
  assert (G : forall acc,
             ledgerInv (fst acc) (applicationsDb st) (nextId st) ->
             ledgerInv (fst (fold_left (updateNavOne now) navUpdates acc))
                       (applicationsDb st) (nextId st)).
  { induction navUpdates as [|u us IH]; intros [cs n] Hc; [exact Hc|].
    simpl. apply IH. now apply ledger_updateNavOne. }
  specialize (G (collateralsDb st, O) H).
  destruct (fold_left (updateNavOne now) navUpdates (collateralsDb st, O)).
  exact G.
Qed.

Lemma ledger_markLien st id applicationId now st' :
  storeLedger st -> markLien st id applicationId now = Ok st' ->
  storeLedger st'.
Proof.
  unfold storeLedger, markLien. intros Hinv H.
  destruct (findById Collateral._id id (collateralsDb st)) as [c0|] eqn:Hf;
    [|discriminate].
  destruct (LienStatus_eqb (Collateral.lienStatus c0) lien_marked);
    [discriminate|].
  injection H as <-. simpl. unfold saveDoc.
  apply ledgerInv_same_apps; [exact Hinv|].
  apply keepsLedger_saveDoc with (c0 := c0).
  - apply Hinv.
  - eapply findById_In; eauto.
  - destruct applicationId; reflexivity.
  - destruct applicationId; discriminate.
Qed.

Lemma ledger_releaseLien st id now st' :
  storeLedger st -> releaseLien st id now = Ok st' -> storeLedger st'.
Proof.
  unfold storeLedger, releaseLien. intros Hinv H.
  destruct (findById Collateral._id id (collateralsDb st)) as [c0|] eqn:Hf;
    [|discriminate].
  destruct (negb (LienStatus_eqb (Collateral.lienStatus c0) lien_marked));
    [discriminate|].
  match type of H with
  | (if ?b then _ else _) = _ => destruct b; [discriminate|]
  end.
  injection H as <-. simpl. unfold saveDoc.
  apply ledgerInv_same_apps; [exact Hinv|].
  apply keepsLedger_saveDoc with (c0 := c0).
  - apply Hinv.
  - eapply findById_In; eauto.
  - reflexivity.
  - discriminate.
Qed.

Lemma resolveCollaterals_sound st folios collaterals total :
  resolveCollaterals st folios = Ok (collaterals, total) ->
  forall c, In c collaterals ->
    In c (collateralsDb st) /\ Collateral.lienStatus c = lien_none.
Proof.
  unfold resolveCollaterals. destruct folios as [|f fs].
  - intros H. injection H as <- <-. intros c [].
  - match goal with
    | |- (if ?b then _ else _) = _ -> _ => destruct b; [discriminate|]
    end.
    intros H. injection H as <- <-. intros c Hc.
    apply filter_In in Hc. destruct Hc as [Hin Hc]. split; [exact Hin|].
    apply andb_prop in Hc. destruct Hc as [_ Hc].
    destruct (Collateral.lienStatus c); try discriminate. reflexivity.
Qed.

Lemma preSave_collaterals a :
  LoanApplication.collaterals (LoanApplication.preSave a)
  = LoanApplication.collaterals a.
Proof.
  unfold LoanApplication.preSave.
  destruct (Qle_bool (LoanApplication.totalCollateralValue a) 0); reflexivity.
Qed.

Lemma preSave_id a :
  LoanApplication._id (LoanApplication.preSave a) = LoanApplication._id a.
Proof.
  unfold LoanApplication.preSave.
  destruct (Qle_bool (LoanApplication.totalCollateralValue a) 0); reflexivity.
Qed.

Lemma existsb_eqb_In (x : ObjectId) (l : list ObjectId) :
  existsb (Nat.eqb x) l = true <-> In x l.
Proof.
  rewrite existsb_exists. split.
  - intros [y [Hy E]]. apply Nat.eqb_eq in E. now subst.
  - intros H. exists x. split; [exact H | apply Nat.eqb_refl].
Qed.

Lemma ledger_createApplication st loanProductId requestedAmount tenure
    collateralFolios now st' :
  storeLedger st ->
  createApplication st loanProductId requestedAmount tenure collateralFolios
                    now = Ok st' ->
  storeLedger st'.
Proof.
  unfold storeLedger, createApplication. intros Hinv H.
  destruct (findById LoanProduct._id loanProductId (productsDb st))
    as [product|]; [|discriminate].
  repeat match type of H with
         | (if ?b then _ else _) = _ => destruct b; [discriminate|]
         end.
  destruct (resolveCollaterals st collateralFolios) as [[collaterals total]| |]
    eqn:Hres;
    [|discriminate|discriminate].
  pose proof (resolveCollaterals_sound _ _ _ _ Hres) as Hsound.
  cbn [bind] in H.
  match type of H with
  | (if ?b then _ else _) = _ => destruct b; [discriminate|]
  end.
  injection H as <-. cbn [collateralsDb applicationsDb nextId].
  set (ids := map Collateral._id collaterals) in *.
  set (mark := fun c : Collateral.t =>
                 Collateral.set_lienMarkedDate (Some now)
                   (Collateral.set_lienStatus lien_marked
                      (Collateral.set_linkedApplication
                         (Some (LoanApplication._id _)) c))).
  assert (Hcs : match collaterals with
                | [] => collateralsDb st
                | _ :: _ =>
                    updateMany
                      (fun c => existsb (Nat.eqb (Collateral._id c)) ids)
                      mark (collateralsDb st)
                end
                = map (fun c => if existsb (Nat.eqb (Collateral._id c)) ids
                                then mark c else c) (collateralsDb st)).
  { destruct collaterals; [|reflexivity].
    symmetry. apply (updateMany_none _ mark). reflexivity. }
  rewrite Hcs.
  eapply ledgerInv_map; [exact Hinv | | | lia].
  - apply keepsLedger_updateMany. intros c _ _. split; [reflexivity|discriminate].
  - intros a' Ha'. apply in_app_iff in Ha'. destruct Ha' as [Ha'|[<-|[]]].
    + left. eauto.
    + right. rewrite preSave_collaterals. cbn [LoanApplication.collaterals].
      intros id Hid. split.
      * apply in_map_iff in Hid. destruct Hid as [c [<- Hc]].
        destruct (Hsound c Hc) as [Hin _].
        destruct Hinv as (_ & _ & K & _). specialize (K c Hin). lia.
      * intros c Hc <-. apply existsb_eqb_In in Hid. rewrite Hid.
        discriminate.
Qed.

Lemma createLoanFromApplication_Ok st application now st' :
  createLoanFromApplication st application now = Ok st' ->
  exists populatedApp loan,
    findById LoanApplication._id (LoanApplication._id application)
             (applicationsDb st) = Some populatedApp
    /\ collateralsDb st'
       = updateMany
           (fun c => existsb (Nat.eqb (Collateral._id c))
                       (populatedIds st
                          (LoanApplication.collaterals populatedApp)))
           (Collateral.set_linkedLoan (Some (nextId st)))
           (collateralsDb st)
    /\ applicationsDb st' = applicationsDb st
    /\ loansDb st' = loansDb st ++ [loan]
    /\ Loan._id loan = nextId st
    /\ nextId st' = S (nextId st)
    /\ productsDb st' = productsDb st.
Proof.
  unfold createLoanFromApplication. intros H.
  destruct (findById LoanApplication._id _ (applicationsDb st))
    as [populatedApp|]; [|discriminate].
  destruct (findById LoanProduct._id _ (productsDb st)) as [product|];
    [|discriminate].
  destruct (emiFormula _ _ _) as [emi| |]; [|discriminate|discriminate].
  injection H as <-. cbn [collateralsDb applicationsDb loansDb nextId productsDb].
  eexists. eexists. repeat split.
Qed.

Lemma populatedIds_In st ids c :
  In c (collateralsDb st) ->
  existsb (Nat.eqb (Collateral._id c)) (populatedIds st ids) = true ->
  In (Collateral._id c) ids.
Proof.
  intros _ H. apply existsb_eqb_In in H. unfold populatedIds in H.
  now apply filter_In in H.
Qed.

Lemma populatedIds_resolved st ids c :
  In c (collateralsDb st) ->
  In (Collateral._id c) ids ->
  existsb (Nat.eqb (Collateral._id c)) (populatedIds st ids) = true.
Proof.
  intros Hc Hin. apply existsb_eqb_In. unfold populatedIds.
  apply filter_In. split; [exact Hin|].
  destruct (findById Collateral._id (Collateral._id c) (collateralsDb st))
    eqn:E; [reflexivity|].
  unfold findById in E. apply (find_none _ _ E) in Hc.
  now rewrite Nat.eqb_refl in Hc.
Qed.

Lemma ledger_createLoanFromApplication st application now st' :
  storeLedger st ->
  createLoanFromApplication st application now = Ok st' ->
  storeLedger st'.
Proof.
  intros Hinv H. apply createLoanFromApplication_Ok in H.
  destruct H as (papp & loan & Hfind & Hcs & Happs & _ & _ & Hnid & _).
  unfold storeLedger. rewrite Hcs, Happs, Hnid. unfold updateMany.
  eapply ledgerInv_map; [exact Hinv | | eauto | lia].
  apply keepsLedger_updateMany. intros c Hc Hp.
  split; [reflexivity|]. cbn.
  destruct Hinv as (_ & J & _).
  apply (J papp c); [eapply findById_In; eauto | exact Hc |].
  eapply populatedIds_In; eauto.
Qed.

Lemma ledger_saveApplication st a0 application :
  storeLedger st ->
  In a0 (applicationsDb st) ->
  LoanApplication.collaterals application = LoanApplication.collaterals a0 ->
  storeLedger (saveApplication application st).
Proof.
  unfold storeLedger, saveApplication. intros Hinv Ha0 Hcols. simpl.
  rewrite <- (map_id (collateralsDb st)).
  eapply ledgerInv_map; [exact Hinv | apply keepsLedger_id | | lia].
  intros a' Ha'. left. apply In_saveDoc in Ha'. destruct Ha' as [->|Ha'].
  - exists a0. now rewrite preSave_collaterals.
  - eauto.
Qed.

Lemma ledger_updateApplicationStatus st id status remarks approvedAmount now
    st' :
  storeLedger st ->
  updateApplicationStatus st id status remarks approvedAmount now = Ok st' ->
  storeLedger st'.
Proof.
  unfold updateApplicationStatus. intros Hinv H.
  destruct (findById LoanApplication._id id (applicationsDb st))
    as [a0|] eqn:Hfind; [|discriminate].
  apply findById_In in Hfind.
  destruct (lookupName AppStatus_name _ status) as [target|]; [|discriminate].
  destruct target.
  - injection H as <-. eapply ledger_saveApplication; eauto.
  - injection H as <-. eapply ledger_saveApplication; eauto.
  - injection H as <-. eapply ledger_saveApplication; eauto.
  - injection H as <-. eapply ledger_saveApplication; eauto.
  - injection H as <-. eapply ledger_saveApplication with (a0 := a0); eauto.
    unfold storeLedger. simpl. unfold updateMany.
    apply ledgerInv_same_apps; [exact Hinv|].
    apply keepsLedger_updateMany. intros c _ _.
    split; [reflexivity | discriminate].
  - unfold bind in H.
    destruct (createLoanFromApplication st _ now) as [st1| |] eqn:Hloan;
    [|discriminate|discriminate].
    injection H as <-.
    pose proof (createLoanFromApplication_Ok _ _ _ _ Hloan)
      as (_ & _ & _ & _ & Happs & _).
    eapply ledger_saveApplication with (a0 := a0).
    + eapply ledger_createLoanFromApplication; eauto.
    + now rewrite Happs.
    + reflexivity.
  - injection H as <-. eapply ledger_saveApplication; eauto.
Qed.

Lemma recordPayment_collaterals st loanId emiNumber amount paymentReference
    paymentDate now st' :
  recordPayment st loanId emiNumber amount paymentReference paymentDate now
  = Ok st' ->
  applicationsDb st' = applicationsDb st
  /\ nextId st' = nextId st
  /\ (collateralsDb st' = collateralsDb st
      \/ collateralsDb st'
         = updateMany
             (fun c => ObjectId_opt_eqb (Collateral.linkedLoan c) loanId)
             (fun c =>
                Collateral.set_linkedLoan None
                  (Collateral.set_lienReleasedDate (Some now)
                     (Collateral.set_lienStatus lien_released c)))
             (collateralsDb st)).
Proof.
  intros H. apply recordPayment_Ok in H.
  destruct H as (loan & i & emi & loan' & _ & _ & _ & _ & _ & _ & _ & _ & _ & _
                 & _ & _ & _ & _ & _ & Hcs & Happs & _ & Hnid & _).
  split; [exact Happs|]. split; [exact Hnid|]. rewrite Hcs.
  destruct (fullyPaid _ _); [now right | now left].
Qed.

Lemma ledger_recordPayment st loanId emiNumber amount paymentReference
    paymentDate now st' :
  storeLedger st ->
  recordPayment st loanId emiNumber amount paymentReference paymentDate now
  = Ok st' ->
  storeLedger st'.
Proof.
  intros Hinv H. apply recordPayment_collaterals in H.
  destruct H as (Happs & Hnid & [Hcs|Hcs]);
    unfold storeLedger; rewrite Happs, Hnid, Hcs; [exact Hinv|].
  unfold updateMany. apply ledgerInv_same_apps; [exact Hinv|].
  apply keepsLedger_updateMany. intros c _ _.
  split; [reflexivity | discriminate].
Qed.

Lemma ledger_updateLoanStatus st loanId status now st' :
  storeLedger st -> updateLoanStatus st loanId status now = Ok st' ->
  storeLedger st'.
Proof.
  unfold updateLoanStatus. intros Hinv H.
  destruct (findById Loan._id loanId (loansDb st)); [|discriminate].
  destruct (lookupName LoanStatus_name validStatuses status); [|discriminate].
  injection H as <-. exact Hinv.
Qed.

(** Every request keeps the ledger. *)
Lemma ledger_handle st r now st' :
  storeLedger st -> handle st r now = Ok st' -> storeLedger st'.
Proof.
  intros Hinv H. destruct r; simpl in H.
  - eapply ledger_createCollateral; eauto.
  - injection H as <-. now apply ledger_updateNav.
  - eapply ledger_markLien; eauto.
  - eapply ledger_releaseLien; eauto.
  - eapply ledger_createApplication; eauto.
  - eapply ledger_updateApplicationStatus; eauto.
  - eapply ledger_recordPayment; eauto.
  - eapply ledger_updateLoanStatus; eauto.
  - injection H as <-. exact Hinv.
Qed.

(** A payment that fails after its write keeps the ledger too. *)
Lemma ledger_handle_Failed st r now st' e :
  storeLedger st -> handle st r now = Failed st' e -> storeLedger st'.
Proof.
  intros Hinv H. apply handle_Failed in H. destruct H as (_ & loanId & ->).
  unfold storeLedger, updateMany. cbn [collateralsDb applicationsDb nextId
    with_collaterals].
  apply ledgerInv_same_apps; [exact Hinv|].
  apply keepsLedger_updateMany. intros c _ _.
  split; [reflexivity | discriminate].
Qed.

Lemma ledger_reachable products st :
  reachable products st -> storeLedger st.
Proof.
  induction 1 as [|st r now st' _ IH H|st r now st' e _ IH H].
  - apply ledger_initial.
  - eapply ledger_handle; eauto.
  - eapply ledger_handle_Failed; eauto.
Qed.

Lemma runAll_reachable products rs st st' :
  reachable products st -> runAll st rs = Ok st' -> reachable products st'.
Proof.
  revert st. induction rs as [|[r now] rs IH]; intros st Hst H; simpl in H.
  - now injection H as <-.
  - destruct (handle st r now) as [st1| |] eqn:E;
    [|discriminate|discriminate].
    apply (IH st1); [|exact H]. eapply reachable_step; eauto.
Qed.

Lemma Forall2_map_self {A : Type} (R : A -> A -> Prop) (g : A -> A) l :
  (forall x, In x l -> R x (g x)) -> Forall2 R l (map g l).
Proof.
  induction l as [|x l IH]; intros H; simpl; constructor.
  - apply H. now left.
  - apply IH. intros y Hy. apply H. now right.
Qed.

(** C1, as the code has it.  In every store that the requests can produce,
    a collateral whose lien status is none has neither link set; this is
    the part of the exclusive-pledge invariant that every operation
    preserves.  Disbursal links the new loan to each collateral of the
    application and changes nothing else: the application link and the lien
    status stay as they were, so a collateral pledged to the application
    carries both links afterwards, with its lien still marked; the other
    collaterals are untouched. *)
Theorem ledger_links_kept (products : list LoanProduct.t) (st : Store) :
  reachable products st ->
  Forall unpledgedHasNoLink (collateralsDb st)
  /\ (forall application now st',
        createLoanFromApplication st application now = Ok st' ->
        exists populatedApp,
          findById LoanApplication._id (LoanApplication._id application)
                   (applicationsDb st) = Some populatedApp
          /\ Forall2 (loanLinked (LoanApplication.collaterals populatedApp)
                                 (nextId st))
                     (collateralsDb st) (collateralsDb st')).
Proof.
  intros Hreach. split.
  - apply Forall_forall. apply (ledger_reachable _ _ Hreach).
  - intros application now st' H.
    apply createLoanFromApplication_Ok in H.
    destruct H as (papp & loan & Hfind & Hcs & _).
    exists papp. split; [exact Hfind|].
    rewrite Hcs. unfold updateMany. apply Forall2_map_self.
    intros c Hc. unfold loanLinked.
    destruct (existsb (Nat.eqb (Collateral._id c))
                (populatedIds st (LoanApplication.collaterals papp))) eqn:E.
    + repeat split; try reflexivity.
      intros Hn. elim Hn. eapply populatedIds_In; eauto.
    + repeat split; try reflexivity.
      intros Hin. apply (populatedIds_resolved st _ c Hc) in Hin. congruence.
Qed.

Lemma ledger_links_kept_witness :
  Forall unpledgedHasNoLink (collateralsDb approvedStore)
  /\ exists populatedApp,
       findById LoanApplication._id (LoanApplication._id demoApplication)
                (applicationsDb approvedStore) = Some populatedApp
       /\ Forall2 (loanLinked (LoanApplication.collaterals populatedApp)
                              (nextId approvedStore))
                  (collateralsDb approvedStore) (collateralsDb loanCreatedStore).
Proof.
  assert (Hreach : reachable [demoProduct] approvedStore).
  { apply (runAll_reachable [demoProduct] untilApproved
             (initialStore [demoProduct]));
      [constructor | vm_compute; reflexivity]. }
  destruct (ledger_links_kept [demoProduct] approvedStore Hreach) as [H1 H2].
  split; [exact H1|].
  apply (H2 demoApplication jan15 loanCreatedStore).
  vm_compute. reflexivity.
Defined.

Lemma exclusivePledge_atMostOneLink cs :
  Forall exclusivePledge cs -> forallb atMostOneLink cs = true.
Proof.
  induction 1 as [|c cs [Hc _] _ IH]; [reflexivity|].
  cbn [forallb]. rewrite IH, andb_true_r. unfold atMostOneLink.
  unfold isSet in Hc.
  destruct (Collateral.linkedApplication c); [|reflexivity].
  destruct (Collateral.linkedLoan c); [|reflexivity].
  elim Hc. split; discriminate.
Qed.

(** C1 as stated fails: after the disbursal of the scenario, which the
    requests reach, the collateral is linked to the application and to the
    loan at once, with its lien marked. *)
Lemma disbursal_keeps_both_links :
  reachable [demoProduct] disbursedStore
  /\ lienView disbursedStore = [(lien_marked, Some 1%nat, Some 2%nat)]
  /\ ~ Forall exclusivePledge (collateralsDb disbursedStore).
Proof.
  split; [|split].
  - apply (runAll_reachable [demoProduct] untilDisbursed
             (initialStore [demoProduct]));
      [constructor | vm_compute; reflexivity].
  - vm_compute. reflexivity.
  - intros H. apply exclusivePledge_atMostOneLink in H.
    vm_compute in H. discriminate.
Qed.

(** C2 at the failing input: the loan of the scenario with its sixth and
    last installment due has its collateral marked and linked to the
    application 1 and the loan 2; the payment of that installment closes the
    loan as fully paid and releases the collateral, whose loan link is
    cleared while its application link is still set. *)
Theorem full_payment_keeps_application_link :
  lienView lastInstallmentDue = [(lien_marked, Some 1%nat, Some 2%nat)]
  /\ closureView lastInstallmentDue = [(loan_active, None, None)]
  /\ closureView
       (fst (run lastInstallmentDue
                 (RecordPayment 2%nat 6 84000 None None) (mkDate 2024 6 15)))
     = [(loan_closed, Some fully_paid, Some (mkDate 2024 6 15))]
  /\ lienView
       (fst (run lastInstallmentDue
                 (RecordPayment 2%nat 6 84000 None None) (mkDate 2024 6 15)))
     = [(lien_released, Some 1%nat, None)].
Proof.
  split; [|split; [|split]]; vm_compute; reflexivity.
Qed.


(** ** Amortization arithmetic *)

Open Scope Q_scope.

(** C5: the principal components of a schedule do not add up to the
    principal within the tolerance of one currency unit per 100
    installments.  A principal of 1,000,000 at 48% a year over 60 months
    has an EMI of 44,201.85 after rounding; its schedule has 60
    installments, and their rounded principal components add up to
    1,000,001.14 (to a millionth), which is off by 1.14 and so by more than
    the 0.60 of the tolerance, and by more than a whole unit: the rounding
    of the EMI is compounded over the tenure, and no installment takes up
    the residue. *)
Theorem principal_sum_exceeds_tolerance :
  let schedule emi :=
    generateEmiSchedule 48 (round2 emi) 1000000 jan15 60 in
  exists emi,
    emiFormula 1000000 (monthlyRateOf 48) 60 = Finite emi
    /\ round2 emi = double (4420185 # 100)
    /\ List.length (schedule emi) = 60%nat
    /\ Qabs (principalSum (schedule emi) - 1000000 - (114 # 100))
       <= 1 # 1000000
    /\ ~ Qabs (principalSum (schedule emi) - 1000000)
         <= inject_Z (Z.of_nat 60) / 100.
Proof.
  cbv zeta.
  exists (jsquot (jsmul (jsmul 1000000 (monthlyRateOf 48))
                        (Math_pow (jsadd 1 (monthlyRateOf 48)) 60))
                 (jssub (Math_pow (jsadd 1 (monthlyRateOf 48)) 60) 1)).
  split.
  { unfold emiFormula, jsdiv.
    assert (E : Qeq_bool (jssub (Math_pow (jsadd 1 (monthlyRateOf 48)) 60) 1)
                         0 = false)
      by (vm_compute; reflexivity).
    rewrite E. reflexivity. }
  split; [vm_compute; reflexivity|].
  split; [vm_compute; reflexivity|].
  split.
  - apply Qle_bool_iff. vm_compute. reflexivity.
  - intros H. apply Qle_bool_iff in H. vm_compute in H. discriminate.
Qed.

(** ** The theorems at concrete inputs *)

Lemma transition_table_enforced_witness :
  run smallStore (UpdateApplicationStatus 1%nat "submitted" None None) jan15
  = (smallStore, Some InvalidTransition).
Proof.
  refine (proj1 (transition_table_enforced smallStore 1%nat demoApplication
                   "submitted" None None jan15 _) _); reflexivity.
Defined.

Lemma recordPayment_already_paid_witness :
  run smallStore (RecordPayment 7%nat 1 (50751 # 100) None None) jan15
  = (smallStore, Some AlreadyPaid).
Proof.
  apply (recordPayment_already_paid smallStore 7%nat smallLoan 1 0%nat
           paidInstallment);
    [reflexivity | discriminate | reflexivity | reflexivity].
Defined.

Lemma updateLoanStatus_frame_witness :
  exists st' loan',
    run smallStore (UpdateLoanStatus 7%nat "closed") jan15 = (st', None)
    /\ findById Loan._id 7%nat (loansDb st') = Some loan'
    /\ Loan.status loan' = loan_closed
    /\ Loan.closedAt loan' = Some jan15
    /\ Loan.closureReason loan' = None
    /\ collateralsDb st' = collateralsDb smallStore.
Proof.
  destruct (updateLoanStatus_frame smallStore 7%nat smallLoan loan_closed
              jan15 eq_refl)
    as (st' & loan' & Hrun & Hfind & Hstatus & Hclosed & Hreason & _ & _ & _
        & _ & _ & Hcs & _).
  exists st', loan'. repeat split; assumption.
Defined.

(** * Further properties of the controllers *)

Close Scope Q_scope.

(** ** Registration, lien and NAV of collaterals *)

Lemma find_app_none {A : Type} (p : A -> bool) (l : list A) (x : A) :
  find p l = None -> find p (l ++ [x]) = if p x then Some x else None.
Proof.
  induction l as [|a l IH]; simpl; [reflexivity|].
  destruct (p a); [discriminate | exact IH].
Qed.

(** X1: a folio is registered once.  [createCollateral] succeeds only for a
    folio number that no collateral of the store has; the collateral it adds
    carries no lien and no link and is valued at units times NAV; and a
    second registration of the same folio number, whatever its units and
    NAV, is answered with [DuplicateFolio] and changes nothing. *)
Theorem createCollateral_once (st : Store) (folioNumber : string)
    (units navPerUnit : Q) (now : Date) (st' : Store) :
  createCollateral st folioNumber units navPerUnit now = Ok st' ->
  (forall c, In c (collateralsDb st) ->
     Collateral.folioNumber c <> folioNumber)
  /\ (exists c,
        collateralsDb st' = collateralsDb st ++ [c]
        /\ Collateral._id c = nextId st
        /\ Collateral.folioNumber c = folioNumber
        /\ Collateral.lienStatus c = lien_none
        /\ Collateral.linkedApplication c = None
        /\ Collateral.linkedLoan c = None
        /\ Collateral.currentValue c = jsmul units navPerUnit)
  /\ (forall units' navPerUnit' now',
        run st' (CreateCollateral folioNumber units' navPerUnit') now'
        = (st', Some DuplicateFolio)).
Proof.
  unfold createCollateral. intros H.
  destruct (find _ (collateralsDb st)) eqn:Hfind; [discriminate|].
  injection H as <-. split; [|split].
  - intros c Hc Heq. apply (find_none _ _ Hfind) in Hc.
    rewrite Heq, String.eqb_refl in Hc. discriminate.
  - eexists. split; [reflexivity|]. repeat split.
  - intros units' nav' now'. unfold run, handle, createCollateral.
    cbn [collateralsDb]. rewrite (find_app_none _ _ _ Hfind).
    cbn [Collateral.folioNumber Collateral.preSave
         Collateral.set_currentValue].
    now rewrite String.eqb_refl.
Qed.

Lemma createCollateral_once_witness :
  run registeredStore (CreateCollateral "FOLIO123" 1 1) jan31
  = (registeredStore, Some DuplicateFolio).
Proof.
  apply (createCollateral_once (initialStore [demoProduct]) "FOLIO123"
           12000 100 jan15 registeredStore).
  vm_compute. reflexivity.
Defined.

(** X3: a lien is marked once.  After a successful [markLien] the collateral
    is marked, dated, linked to the application given (its earlier link is
    kept when none is given) and its loan link is as before; a second
    [markLien] on it is answered with [AlreadyMarked] and changes nothing. *)
Theorem markLien_once (st : Store) (id : ObjectId)
    (applicationId : option ObjectId) (now : Date) (st' : Store) :
  markLien st id applicationId now = Ok st' ->
  exists c c',
    findById Collateral._id id (collateralsDb st) = Some c
    /\ Collateral.lienStatus c <> lien_marked
    /\ findById Collateral._id id (collateralsDb st') = Some c'
    /\ Collateral.lienStatus c' = lien_marked
    /\ Collateral.lienMarkedDate c' = Some now
    /\ Collateral.linkedApplication c'
       = match applicationId with
         | Some a => Some a
         | None => Collateral.linkedApplication c
         end
    /\ Collateral.linkedLoan c' = Collateral.linkedLoan c
    /\ (forall applicationId' now',
          run st' (MarkLien id applicationId') now'
          = (st', Some AlreadyMarked)).
Proof.
  unfold markLien. intros H.
  destruct (findById Collateral._id id (collateralsDb st)) as [c|] eqn:Hf;
    [|discriminate].
  destruct (LienStatus_eqb (Collateral.lienStatus c) lien_marked) eqn:Hm;
    [discriminate|].
  injection H as <-.
  pose proof (findById_id _ _ _ _ Hf) as Hid.
  set (c' := Collateral.preSave
               match applicationId with
               | Some a =>
                   Collateral.set_linkedApplication (Some a)
                     (Collateral.set_lienMarkedDate (Some now)
                        (Collateral.set_lienStatus lien_marked c))
               | None =>
                   Collateral.set_lienMarkedDate (Some now)
                     (Collateral.set_lienStatus lien_marked c)
               end).
  assert (Hid' : Collateral._id c' = id)
    by (unfold c'; destruct applicationId; exact Hid).
  assert (Hfind' : findById Collateral._id id
                     (saveDoc Collateral._id c' (collateralsDb st)) = Some c').
  { rewrite <- Hid'. apply findById_saveDoc_same with (old := c).
    now rewrite Hid'. }
  exists c, c'. cbn [collateralsDb with_collaterals].
  split; [reflexivity|].
  split; [intros E; rewrite E in Hm; discriminate|].
  split; [exact Hfind'|].
  split; [unfold c'; destruct applicationId; reflexivity|].
  split; [unfold c'; destruct applicationId; reflexivity|].
  split; [unfold c'; destruct applicationId; reflexivity|].
  split; [unfold c'; destruct applicationId; reflexivity|].
  intros a' now'. unfold run, handle, markLien.
  cbn [collateralsDb with_collaterals]. rewrite Hfind'.
  replace (Collateral.lienStatus c') with lien_marked
    by (unfold c'; destruct applicationId; reflexivity).
  reflexivity.
Qed.

(** X4: a lien is released once.  After a successful [releaseLien] the
    collateral, which was marked, is released and dated and has neither
    link; a second [releaseLien] on it is answered with [NotMarked] and
    changes nothing. *)
Theorem releaseLien_once (st : Store) (id : ObjectId) (now : Date)
    (st' : Store) :
  releaseLien st id now = Ok st' ->
  exists c c',
    findById Collateral._id id (collateralsDb st) = Some c
    /\ Collateral.lienStatus c = lien_marked
    /\ findById Collateral._id id (collateralsDb st') = Some c'
    /\ Collateral.lienStatus c' = lien_released
    /\ Collateral.lienReleasedDate c' = Some now
    /\ Collateral.linkedApplication c' = None
    /\ Collateral.linkedLoan c' = None
    /\ (forall now', run st' (ReleaseLien id) now' = (st', Some NotMarked)).
Proof.
  unfold releaseLien. intros H.
  destruct (findById Collateral._id id (collateralsDb st)) as [c|] eqn:Hf;
    [|discriminate].
  destruct (LienStatus_eqb (Collateral.lienStatus c) lien_marked) eqn:Hm;
    [|discriminate].
  cbn [negb] in H.
  match type of H with
  | (if ?b then _ else _) = _ => destruct b; [discriminate|]
  end.
  injection H as <-.
  pose proof (findById_id _ _ _ _ Hf) as Hid.
  set (c' := Collateral.preSave
               (Collateral.set_linkedLoan None
                  (Collateral.set_linkedApplication None
                     (Collateral.set_lienReleasedDate (Some now)
                        (Collateral.set_lienStatus lien_released c))))).
  assert (Hfind' : findById Collateral._id id
                     (saveDoc Collateral._id c' (collateralsDb st)) = Some c').
  { rewrite <- Hid. change (Collateral._id c) with (Collateral._id c').
    apply findById_saveDoc_same with (old := c).
    change (Collateral._id c') with (Collateral._id c). now rewrite Hid. }
  exists c, c'. cbn [collateralsDb with_collaterals].
  split; [reflexivity|].
  split; [destruct (Collateral.lienStatus c); try discriminate; reflexivity|].
  split; [exact Hfind'|].
  repeat (split; [reflexivity|]).
  intros now'. unfold run, handle, releaseLien.
  cbn [collateralsDb with_collaterals]. rewrite Hfind'. reflexivity.
Qed.

Lemma markLien_once_witness :
  run markedStore (MarkLien 0%nat (Some 5%nat)) jan31
  = (markedStore, Some AlreadyMarked).
Proof.
  assert (H : markLien registeredStore 0%nat None jan15 = Ok markedStore)
    by (vm_compute; reflexivity).
  destruct (markLien_once registeredStore 0%nat None jan15 markedStore H)
    as (c & c' & _ & _ & _ & _ & _ & _ & _ & Hagain).
  apply Hagain.
Defined.

Lemma releaseLien_once_witness :
  run releasedStore (ReleaseLien 0%nat) jan31 = (releasedStore, Some NotMarked).
Proof.
  assert (H : releaseLien markedStore 0%nat jan31 = Ok releasedStore)
    by (vm_compute; reflexivity).
  destruct (releaseLien_once markedStore 0%nat jan31 releasedStore H)
    as (c & c' & _ & _ & _ & _ & _ & _ & _ & Hagain).
  apply Hagain.
Defined.

(** ** The value of a collateral *)

Lemma valued_preSave c : valued (Collateral.preSave c).
Proof. reflexivity. Qed.

Lemma Forall_saveDoc {A : Type} (P : A -> Prop) (idOf : A -> ObjectId) d l :
  Forall P l -> P d -> Forall P (saveDoc idOf d l).
Proof.
  intros Hl Hd. unfold saveDoc. apply Forall_forall. intros x Hx.
  apply in_map_iff in Hx. destruct Hx as [y [Hy Hin]].
  destruct (Nat.eqb (idOf y) (idOf d)); subst; [exact Hd|].
  rewrite Forall_forall in Hl. now apply Hl.
Qed.

Lemma Forall_updateMany {A : Type} (P : A -> Prop) (p : A -> bool)
    (patch : A -> A) l :
  Forall P l -> (forall x, P x -> P (patch x)) ->
  Forall P (updateMany p patch l).
Proof.
  intros Hl Hp. unfold updateMany. apply Forall_forall. intros x Hx.
  apply in_map_iff in Hx. destruct Hx as [y [Hy Hin]].
  rewrite Forall_forall in Hl. specialize (Hl y Hin).
  destruct (p y); subst; auto.
Qed.

Lemma valued_updateNav st navUpdates now :
  Forall valued (collateralsDb st) ->
  Forall valued (collateralsDb (fst (updateNav st navUpdates now))).
Proof.
  unfold updateNav. intros H.
  assert (G : forall acc,
             Forall valued (fst acc) ->
             Forall valued (fst (fold_left (updateNavOne now) navUpdates acc))).
  { induction navUpdates as [|[f nav] us IH]; intros [cs n] Hc; [exact Hc|].
    simpl. apply IH.
    destruct (find _ cs); [|exact Hc].
    cbn [fst]. apply Forall_saveDoc; [exact Hc | apply valued_preSave]. }
  specialize (G (collateralsDb st, O) H).
  destruct (fold_left (updateNavOne now) navUpdates (collateralsDb st, O)).
  exact G.
Qed.

Lemma valued_handle st r now st' :
  Forall valued (collateralsDb st) -> handle st r now = Ok st' ->
  Forall valued (collateralsDb st').
Proof.
  intros Hv H. destruct r; simpl in H.
  - unfold createCollateral in H.
    destruct (find _ (collateralsDb st)); [discriminate|].
    injection H as <-. cbn [collateralsDb].
    apply Forall_app. split; [exact Hv|].
    constructor; [apply valued_preSave | constructor].
  - injection H as <-. now apply valued_updateNav.
  - unfold markLien in H.
    destruct (findById _ id (collateralsDb st)); [|discriminate].
    destruct (LienStatus_eqb _ lien_marked); [discriminate|].
    injection H as <-. cbn [collateralsDb with_collaterals].
    apply Forall_saveDoc; [exact Hv | apply valued_preSave].
  - unfold releaseLien in H.
    destruct (findById _ id (collateralsDb st)); [|discriminate].
    destruct (negb _); [discriminate|].
    match type of H with
    | (if ?b then _ else _) = _ => destruct b; [discriminate|]
    end.
    injection H as <-. cbn [collateralsDb with_collaterals].
    apply Forall_saveDoc; [exact Hv | apply valued_preSave].
  - unfold createApplication in H.
    destruct (findById _ loanProductId (productsDb st)); [|discriminate].
    repeat match type of H with
           | (if ?b then _ else _) = _ => destruct b; [discriminate|]
           end.
    destruct (resolveCollaterals st collateralFolios) as [[cols total]| |];
    [|discriminate|discriminate].
    cbn [bind] in H.
    match type of H with
    | (if ?b then _ else _) = _ => destruct b; [discriminate|]
    end.
    injection H as <-. cbn [collateralsDb].
    destruct cols; [exact Hv|].
    apply Forall_updateMany; [exact Hv|]. intros x Hx. exact Hx.
  - unfold updateApplicationStatus in H.
    destruct (findById _ id (applicationsDb st)); [|discriminate].
    destruct (lookupName _ _ status) as [target|]; [|discriminate].
    destruct target; try (injection H as <-; exact Hv).
    + injection H as <-. cbn [collateralsDb saveApplication with_applications
                              with_collaterals].
      apply Forall_updateMany; [exact Hv|]. intros x Hx. exact Hx.
    + unfold bind in H.
      destruct (createLoanFromApplication st _ now) as [st1| |] eqn:E;
    [|discriminate|discriminate].
      injection H as <-. apply createLoanFromApplication_Ok in E.
      destruct E as (papp & loan & _ & Hcs & _).
      cbn [collateralsDb saveApplication with_applications]. rewrite Hcs.
      apply Forall_updateMany; [exact Hv|]. intros x Hx. exact Hx.
  - apply recordPayment_collaterals in H.
    destruct H as (_ & _ & [Hcs|Hcs]); rewrite Hcs; [exact Hv|].
    apply Forall_updateMany; [exact Hv|]. intros x Hx. exact Hx.
  - unfold updateLoanStatus in H.
    destruct (findById _ loanId (loansDb st)); [|discriminate].
    destruct (lookupName _ _ status); [|discriminate].
    injection H as <-. exact Hv.
  - injection H as <-. exact Hv.
Qed.

(** X2: the value of a collateral is kept up to date.  In every store that
    the requests can produce, the current value of every collateral is its
    units times its NAV per unit: registration and every save recompute it,
    and the bulk updates of the liens never touch units, NAV or value. *)
Theorem currentValue_up_to_date (products : list LoanProduct.t) (st : Store) :
  reachable products st -> Forall valued (collateralsDb st).
Proof.
  induction 1 as [|st r now st' _ IH H|st r now st' e _ IH H];
    [constructor | eapply valued_handle; eauto |].
  apply handle_Failed in H. destruct H as (_ & loanId & ->).
  cbn [collateralsDb with_collaterals].
  apply Forall_updateMany; [exact IH|]. intros x Hx. exact Hx.
Qed.

Lemma currentValue_up_to_date_witness :
  Forall valued (collateralsDb disbursedStore).
Proof.
  apply (currentValue_up_to_date [demoProduct] disbursedStore).
  apply (runAll_reachable [demoProduct] untilDisbursed
           (initialStore [demoProduct]));
    [constructor | vm_compute; reflexivity].
Defined.

(** ** Bulk update of the NAV *)





Lemma Forall2_same {A : Type} (R : A -> A -> Prop) l :
  (forall x, R x x) -> Forall2 R l l.
Proof. intros H. induction l; constructor; auto. Qed.







(** ** Creation of applications *)

Lemma Qltb_false_le a b : Qltb a b = false -> (b <= a)%Q.
Proof.
  unfold Qltb. intros H. apply negb_false_iff in H. now apply Qle_bool_iff.
Qed.

Lemma resolveCollaterals_length st folios collaterals total :
  resolveCollaterals st folios = Ok (collaterals, total) ->
  List.length collaterals = List.length folios
  /\ collaterals
     = match folios with
       | [] => []
       | _ :: _ =>
           filter (fun c =>
                     existsb (String.eqb (Collateral.folioNumber c)) folios
                     && LienStatus_eqb (Collateral.lienStatus c) lien_none)
                  (collateralsDb st)
       end.
Proof.
  unfold resolveCollaterals. destruct folios as [|f fs].
  - intros H. injection H as <- <-. split; reflexivity.
  - destruct (Nat.eqb _ _) eqn:E; [|discriminate]. cbn [negb].
    intros H. injection H as <- <-. split; [|reflexivity].
    now apply Nat.eqb_eq in E.
Qed.

(** What a successful [createApplication] has checked and written. *)
Lemma createApplication_Ok st loanProductId requestedAmount tenure
    collateralFolios now st' :
  createApplication st loanProductId requestedAmount tenure collateralFolios
                    now = Ok st' ->
  exists loanProduct collaterals total application,
    findById LoanProduct._id loanProductId (productsDb st) = Some loanProduct
    /\ LoanProduct.status loanProduct = product_active
    /\ (LoanProduct.minAmount loanProduct <= requestedAmount)%Q
    /\ (requestedAmount <= LoanProduct.maxAmount loanProduct)%Q
    /\ (LoanProduct.minTenure loanProduct <= tenure)%nat
    /\ (tenure <= LoanProduct.maxTenure loanProduct)%nat
    /\ resolveCollaterals st collateralFolios = Ok (collaterals, total)
    /\ application
       = LoanApplication.mk (nextId st) loanProductId requestedAmount None
           tenure (LoanProduct.interestRate loanProduct)
           (map Collateral._id collaterals) total
           (if Qltb 0 total then jsmul (jsquot requestedAmount total) 100
            else 0%Q)
           app_submitted None (Some now) None None None None
    /\ (LoanApplication.ltv application <= LoanProduct.maxLTV loanProduct)%Q
    /\ st'
       = mkStore (productsDb st)
           (updateMany
              (fun c => existsb (Nat.eqb (Collateral._id c))
                                (map Collateral._id collaterals))
              (fun c =>
                 Collateral.set_lienMarkedDate (Some now)
                   (Collateral.set_lienStatus lien_marked
                      (Collateral.set_linkedApplication (Some (nextId st))
                                                        c)))
              (collateralsDb st))
           (applicationsDb st ++ [application]) (loansDb st)
           (S (nextId st)).
Proof.
  unfold createApplication. intros H.
  destruct (findById LoanProduct._id loanProductId (productsDb st))
    as [product|]; [|discriminate].
  destruct (ProductStatus_eqb (LoanProduct.status product) product_active)
    eqn:Hactive; [|discriminate]. cbn [negb] in H.
  destruct (Qltb requestedAmount (LoanProduct.minAmount product)) eqn:Hmin;
    [discriminate|].
  destruct (Qltb (LoanProduct.maxAmount product) requestedAmount) eqn:Hmax;
    [discriminate|].
  destruct (Nat.ltb tenure (LoanProduct.minTenure product)) eqn:Htmin;
    [discriminate|].
  destruct (Nat.ltb (LoanProduct.maxTenure product) tenure) eqn:Htmax;
    [discriminate|].
  cbn [orb] in H.
  destruct (resolveCollaterals st collateralFolios) as [[cols total]| |]
    eqn:Hres;
    [|discriminate|discriminate].
  cbn [bind] in H.
  destruct (Qltb (LoanProduct.maxLTV product) _) eqn:Hltv; [discriminate|].
  injection H as <-.
  exists product, cols, total. eexists.
  split; [reflexivity|].
  split; [destruct (LoanProduct.status product); [reflexivity|discriminate]|].
  split; [now apply Qltb_false_le|].
  split; [now apply Qltb_false_le|].
  split; [now apply Nat.ltb_ge|].
  split; [now apply Nat.ltb_ge|].
  split; [reflexivity|].
  split; [reflexivity|].
  split; [now apply Qltb_false_le|].
  f_equal.
  - destruct cols as [|c cols]; [|].
    + symmetry. apply updateMany_none. reflexivity.
    + unfold LoanApplication.preSave.
      destruct (Qle_bool _ 0); reflexivity.
  - f_equal. f_equal. unfold LoanApplication.preSave.
    cbn [LoanApplication.totalCollateralValue LoanApplication.requestedAmount].
    unfold Qltb. destruct (Qle_bool total 0); reflexivity.
Qed.

(** X6: what an accepted application satisfies.  When [createApplication]
    succeeds, the product is active, the amount and the tenure are within
    its limits, and exactly one application is added: submitted, with the
    rate of the product and an LTV, as computed in binary64, of at most the
    product's maximum.  It names as many collaterals as folios
    were requested, and every collateral it names is afterwards marked,
    dated and linked to it. *)
Theorem createApplication_accepts (st : Store) (loanProductId : ObjectId)
    (requestedAmount : Q) (tenure : nat) (collateralFolios : list string)
    (now : Date) (st' : Store) :
  createApplication st loanProductId requestedAmount tenure collateralFolios
                    now = Ok st' ->
  exists loanProduct application,
    findById LoanProduct._id loanProductId (productsDb st) = Some loanProduct
    /\ LoanProduct.status loanProduct = product_active
    /\ (LoanProduct.minAmount loanProduct <= requestedAmount
        <= LoanProduct.maxAmount loanProduct)%Q
    /\ (LoanProduct.minTenure loanProduct <= tenure
        <= LoanProduct.maxTenure loanProduct)%nat
    /\ applicationsDb st' = applicationsDb st ++ [application]
    /\ LoanApplication._id application = nextId st
    /\ LoanApplication.status application = app_submitted
    /\ LoanApplication.requestedAmount application = requestedAmount
    /\ LoanApplication.tenure application = tenure
    /\ LoanApplication.interestRate application
       = LoanProduct.interestRate loanProduct
    /\ (LoanApplication.ltv application <= LoanProduct.maxLTV loanProduct)%Q
    /\ List.length (LoanApplication.collaterals application)
       = List.length collateralFolios
    /\ (forall c', In c' (collateralsDb st') ->
          In (Collateral._id c') (LoanApplication.collaterals application) ->
          Collateral.lienStatus c' = lien_marked
          /\ Collateral.linkedApplication c' = Some (nextId st)
          /\ Collateral.lienMarkedDate c' = Some now)
    /\ loansDb st' = loansDb st.
Proof.
  intros H. apply createApplication_Ok in H.
  destruct H as (product & cols & total & application & Hp & Hact & Hmin
                 & Hmax & Htmin & Htmax & Hres & Happ & Hltv & ->).
  exists product, application. cbn [applicationsDb collateralsDb loansDb].
  split; [exact Hp|]. split; [exact Hact|]. split; [now split|].
  split; [now split|]. split; [reflexivity|].
  rewrite Happ at 1 2 3 4 5.
  cbn [LoanApplication._id LoanApplication.status LoanApplication.tenure
       LoanApplication.requestedAmount LoanApplication.interestRate].
  repeat (split; [reflexivity|]).
  split; [exact Hltv|].
  split.
  - rewrite Happ. cbn [LoanApplication.collaterals]. rewrite length_map.
    apply (resolveCollaterals_length _ _ _ _ Hres).
  - split; [|reflexivity].
    intros c' Hc' Hin. rewrite Happ in Hin.
    cbn [LoanApplication.collaterals] in Hin.
    unfold updateMany in Hc'. apply in_map_iff in Hc'.
    destruct Hc' as [c [Hg Hc]].
    destruct (existsb (Nat.eqb (Collateral._id c))
                      (map Collateral._id cols)) eqn:E.
    + subst c'. repeat split.
    + subst c'. apply existsb_eqb_In in Hin. congruence.
Qed.

Lemma createApplication_accepts_witness :
  exists loanProduct application,
    findById LoanProduct._id 100%nat (productsDb registeredStore)
    = Some loanProduct
    /\ applicationsDb submittedStore
       = applicationsDb registeredStore ++ [application]
    /\ LoanApplication.status application = app_submitted
    /\ (LoanApplication.ltv application <= LoanProduct.maxLTV loanProduct)%Q.
Proof.
  assert (H : createApplication registeredStore 100%nat 500000 6%nat
                ["FOLIO123"%string] jan15 = Ok submittedStore)
    by (vm_compute; reflexivity).
  destruct (createApplication_accepts _ _ _ _ _ _ _ H)
    as (product & application & Hp & _ & _ & _ & Happs & _ & Hst & _ & _ & _
        & Hltv & _).
  exists product, application. repeat split; assumption.
Defined.

(** X7: a folio is not pledged twice.  After an application was accepted
    with a list of folios that is not empty, no later [createApplication]
    with that list of folios succeeds, whatever its product, amount, tenure
    and date: the collaterals it names carry a lien. *)
Theorem createApplication_pledges_once (st : Store) (loanProductId : ObjectId)
    (requestedAmount : Q) (tenure : nat) (collateralFolios : list string)
    (now : Date) (st' : Store) :
  createApplication st loanProductId requestedAmount tenure collateralFolios
                    now = Ok st' ->
  collateralFolios <> [] ->
  forall loanProductId' requestedAmount' tenure' now' st'',
    createApplication st' loanProductId' requestedAmount' tenure'
                      collateralFolios now' <> Ok st''.
Proof.
  intros H Hne p' a' t' now' st'' H'.
  apply createApplication_Ok in H.
  destruct H as (product & cols & total & application & _ & _ & _ & _ & _
                 & _ & Hres & _ & _ & ->).
  apply createApplication_Ok in H'.
  destruct H' as (product' & cols' & total' & application' & _ & _ & _ & _
                  & _ & _ & Hres' & _).
  destruct (resolveCollaterals_length _ _ _ _ Hres) as [_ Hcols].
  destruct (resolveCollaterals_length _ _ _ _ Hres') as [Hlen' Hcols'].
  destruct collateralFolios as [|f fs]; [now elim Hne|].
  cbn [collateralsDb] in Hcols'.
  assert (Hempty : cols' = []).
  { destruct cols' as [|c' rest]; [reflexivity|]. exfalso.
    assert (Hin : In c' (c' :: rest)) by now left.
    rewrite Hcols' in Hin. apply filter_In in Hin. destruct Hin as [Hin Hp].
    apply andb_prop in Hp. destruct Hp as [Hfolio Hnone].
    unfold updateMany in Hin. apply in_map_iff in Hin.
    destruct Hin as [c [Hg Hc]].
    destruct (existsb (Nat.eqb (Collateral._id c))
                      (map Collateral._id cols)) eqn:E.
    - subst c'. discriminate.
    - subst c'.
      assert (Hcin : In c cols).
      { rewrite Hcols. apply filter_In. split; [exact Hc|].
        now rewrite Hfolio, Hnone. }
      assert (Hid : In (Collateral._id c) (map Collateral._id cols))
        by now apply in_map.
      apply existsb_eqb_In in Hid. congruence. }
  rewrite Hempty in Hlen'. discriminate.
Qed.

Lemma createApplication_pledges_once_witness :
  createApplication submittedStore 100%nat 60000 12%nat
                    ["FOLIO123"%string] jan31 <> Ok submittedStore.
Proof.
  assert (H : createApplication registeredStore 100%nat 500000 6%nat
                ["FOLIO123"%string] jan15 = Ok submittedStore)
    by (vm_compute; reflexivity).
  apply (createApplication_pledges_once _ _ _ _ _ _ _ H); discriminate.
Defined.

(** ** Transitions of applications *)

Lemma lookupName_target from to target :
  lookupName AppStatus_name (validTransitions from) to = Some target ->
  AppStatus_name target = to /\ In target (validTransitions from).
Proof.
  generalize (validTransitions from). intros l.
  induction l as [|x l IH]; simpl; [discriminate|].
  destruct (String.eqb (AppStatus_name x) to) eqn:E.
  - intros H. injection H as <-. apply String.eqb_eq in E. auto.
  - intros H. destruct (IH H). auto.
Qed.

Lemma AppStatus_name_inj a b : AppStatus_name a = AppStatus_name b -> a = b.
Proof. destruct a, b; simpl; intros H; try reflexivity; discriminate. Qed.

Lemma applicationTerms_preSave a :
  applicationTerms (LoanApplication.preSave a) = applicationTerms a.
Proof.
  unfold LoanApplication.preSave.
  destruct (Qle_bool (LoanApplication.totalCollateralValue a) 0); reflexivity.
Qed.

Lemma status_preSave a :
  LoanApplication.status (LoanApplication.preSave a) = LoanApplication.status a.
Proof.
  unfold LoanApplication.preSave.
  destruct (Qle_bool (LoanApplication.totalCollateralValue a) 0); reflexivity.
Qed.

Lemma approvedAmount_preSave a :
  LoanApplication.approvedAmount (LoanApplication.preSave a)
  = LoanApplication.approvedAmount a.
Proof.
  unfold LoanApplication.preSave.
  destruct (Qle_bool (LoanApplication.totalCollateralValue a) 0); reflexivity.
Qed.

(** What a successful [updateApplicationStatus] has found and saved: the
    application as saved, and the store it was saved into. *)
Lemma updateApplicationStatus_Ok st id status remarks approvedAmount now st' :
  updateApplicationStatus st id status remarks approvedAmount now = Ok st' ->
  exists before target saved st1,
    findById LoanApplication._id id (applicationsDb st) = Some before
    /\ In target (validTransitions (LoanApplication.status before))
    /\ AppStatus_name target = status
    /\ st' = saveApplication saved st1
    /\ applicationsDb st1 = applicationsDb st
    /\ productsDb st1 = productsDb st
    /\ LoanApplication.status saved = target
    /\ applicationTerms saved = applicationTerms before
    /\ LoanApplication.approvedAmount saved
       = match target with
         | app_approved =>
             Some (orNumber approvedAmount
                            (LoanApplication.requestedAmount before))
         | _ => LoanApplication.approvedAmount before
         end
    /\ match target with
       | app_rejected =>
           st1 = with_collaterals
                   (updateMany
                      (fun c => ObjectId_opt_eqb
                                  (Collateral.linkedApplication c) id)
                      (fun c =>
                         Collateral.set_linkedApplication None
                           (Collateral.set_lienReleasedDate (Some now)
                              (Collateral.set_lienStatus lien_released c)))
                      (collateralsDb st)) st
       | app_disbursed =>
           createLoanFromApplication st saved now = Ok st1
       | _ => st1 = st
       end.
Proof.
  unfold updateApplicationStatus. intros H.
  destruct (findById LoanApplication._id id (applicationsDb st))
    as [before|] eqn:Hfind; [|discriminate].
  pose proof (findById_id _ _ _ _ Hfind) as Hid.
  destruct (lookupName AppStatus_name _ status) as [target|] eqn:Hl;
    [|discriminate].
  destruct (lookupName_target _ _ _ Hl) as [Hname Hin].
  exists before, target.
  destruct target.
  - injection H as <-. do 2 eexists. repeat split; eauto.
  - injection H as <-. do 2 eexists. repeat split; eauto.
  - injection H as <-. do 2 eexists. repeat split; eauto.
  - injection H as <-. do 2 eexists. repeat split; eauto.
  - injection H as <-. do 2 eexists.
    split; [reflexivity|]. split; [exact Hin|]. split; [exact Hname|].
    split; [reflexivity|]. repeat split.
    cbn [LoanApplication._id LoanApplication.set_rejectedAt
         LoanApplication.set_remarks LoanApplication.set_status].
    now rewrite Hid.
  - unfold bind in H.
    destruct (createLoanFromApplication st _ now) as [st1| |] eqn:Hloan;
    [|discriminate|discriminate].
    injection H as <-.
    pose proof (createLoanFromApplication_Ok _ _ _ _ Hloan)
      as (papp & loan & _ & _ & Happs & _ & _ & _ & Hprod).
    do 2 eexists.
    split; [reflexivity|]. split; [exact Hin|]. split; [exact Hname|].
    split; [reflexivity|]. split; [exact Happs|]. split; [exact Hprod|].
    split; [reflexivity|]. split; [reflexivity|]. split; [reflexivity|].
    exact Hloan.
  - injection H as <-. do 2 eexists. repeat split; eauto.
Qed.

Lemma findById_saveApplication st saved before :
  findById LoanApplication._id (LoanApplication._id saved) (applicationsDb st)
  = Some before ->
  findById LoanApplication._id (LoanApplication._id saved)
           (applicationsDb (saveApplication saved st))
  = Some (LoanApplication.preSave saved).
Proof.
  intros H. unfold saveApplication. cbn [applicationsDb with_applications].
  rewrite <- (preSave_id saved).
  apply findById_saveDoc_same with (old := before).
  now rewrite preSave_id.
Qed.

(** X8: a transition takes effect and only that.  After a successful
    [updateApplicationStatus] the application has the status requested,
    which is one of the transitions of its earlier status; its product,
    amount, tenure, rate, collaterals and collateral value are as before;
    the approved amount is written on approval only, as the amount given or,
    when none or zero is given, the amount requested; and every other
    application is as before. *)
Theorem updateApplicationStatus_takes_effect (st : Store) (id : ObjectId)
    (status : string) (remarks : option string) (approvedAmount : option Q)
    (now : Date) (st' : Store) :
  updateApplicationStatus st id status remarks approvedAmount now = Ok st' ->
  exists before after,
    findById LoanApplication._id id (applicationsDb st) = Some before
    /\ findById LoanApplication._id id (applicationsDb st') = Some after
    /\ AppStatus_name (LoanApplication.status after) = status
    /\ In (LoanApplication.status after)
          (validTransitions (LoanApplication.status before))
    /\ applicationTerms after = applicationTerms before
    /\ LoanApplication.approvedAmount after
       = match LoanApplication.status after with
         | app_approved =>
             Some (orNumber approvedAmount
                            (LoanApplication.requestedAmount before))
         | _ => LoanApplication.approvedAmount before
         end
    /\ (forall other, other <> id ->
          findById LoanApplication._id other (applicationsDb st')
          = findById LoanApplication._id other (applicationsDb st)).
Proof.
  intros H. apply updateApplicationStatus_Ok in H.
  destruct H as (before & target & saved & st1 & Hfind & Hin & Hname & ->
                 & Happs & _ & Hstatus & Hterms & Happroved & _).
  assert (Hid : LoanApplication._id saved = id).
  { pose proof (findById_id _ _ _ _ Hfind) as Hb.
    unfold applicationTerms in Hterms. congruence. }
  exists before, (LoanApplication.preSave saved).
  split; [exact Hfind|]. split.
  { rewrite <- Hid. apply findById_saveApplication with (before := before).
    now rewrite Hid, Happs. }
  rewrite status_preSave, applicationTerms_preSave, approvedAmount_preSave,
    Hstatus.
  split; [exact Hname|]. split; [exact Hin|]. split; [exact Hterms|].
  split; [exact Happroved|].
  intros other Hne. unfold saveApplication.
  cbn [applicationsDb with_applications]. rewrite <- Happs.
  apply findById_saveDoc_other. rewrite preSave_id. congruence.
Qed.

Lemma updateApplicationStatus_takes_effect_witness :
  exists before after,
    findById LoanApplication._id 1%nat (applicationsDb approvedStore)
    = Some before
    /\ findById LoanApplication._id 1%nat (applicationsDb disbursedStore)
       = Some after
    /\ AppStatus_name (LoanApplication.status after) = "disbursed"%string.
Proof.
  assert (H : updateApplicationStatus approvedStore 1%nat "disbursed" None
                None jan15 = Ok disbursedStore)
    by (vm_compute; reflexivity).
  destruct (updateApplicationStatus_takes_effect _ _ _ _ _ _ _ H)
    as (before & after & H1 & H2 & H3 & _).
  exists before, after. repeat split; assumption.
Defined.

(** X9: a rejection releases what is linked to the application.  After a
    successful transition to rejected, every collateral whose application
    link was this application is released and dated and has that link
    cleared, with its loan link as it was; every other collateral is
    unchanged; and no loan is created. *)
Theorem rejection_releases (st : Store) (id : ObjectId)
    (remarks : option string) (approvedAmount : option Q) (now : Date)
    (st' : Store) :
  updateApplicationStatus st id "rejected" remarks approvedAmount now
  = Ok st' ->
  Forall2
    (fun c c' =>
       match Collateral.linkedApplication c with
       | Some a =>
           if Nat.eqb a id
           then Collateral._id c' = Collateral._id c
                /\ Collateral.lienStatus c' = lien_released
                /\ Collateral.lienReleasedDate c' = Some now
                /\ Collateral.linkedApplication c' = None
                /\ Collateral.linkedLoan c' = Collateral.linkedLoan c
           else c' = c
       | None => c' = c
       end)
    (collateralsDb st) (collateralsDb st')
  /\ loansDb st' = loansDb st.
Proof.
  intros H. apply updateApplicationStatus_Ok in H.
  destruct H as (before & target & saved & st1 & _ & _ & Hname & ->
                 & _ & _ & _ & _ & _ & Hst1).
  assert (target = app_rejected) by now apply AppStatus_name_inj.
  subst target. subst st1.
  cbn [collateralsDb loansDb saveApplication with_applications
       with_collaterals].
  split; [|reflexivity].
  unfold updateMany. apply Forall2_map_self. intros c _.
  unfold ObjectId_opt_eqb.
  destruct (Collateral.linkedApplication c) as [a|]; [|reflexivity].
  destruct (Nat.eqb a id); [|reflexivity].
  repeat split.
Qed.

Lemma rejection_releases_witness :
  loansDb (storeAfter (untilApproved
                         ++ [(UpdateApplicationStatus 1%nat "rejected" None
                                                      None, jan31)]))
  = loansDb approvedStore.
Proof.
  refine (proj2 (rejection_releases approvedStore 1%nat None None jan31 _ _)).
  vm_compute. reflexivity.
Defined.

Lemma scheduleFrom_pending emi monthlyRate startDate balance i n :
  Forall (fun e => Emi.status e = emi_pending
                   /\ Emi.paidAmount e = 0%Q
                   /\ Emi.penaltyAmount e = 0%Q)
         (scheduleFrom emi monthlyRate startDate balance i n).
Proof.
  revert balance i. induction n as [|n IH]; intros b i; simpl; constructor.
  - repeat split.
  - apply IH.
Qed.

Lemma allowed_to_disbursed from :
  In app_disbursed (validTransitions from) -> from = app_approved.
Proof.
  destruct from; simpl; intros H; try reflexivity;
    repeat (destruct H as [H|H]; try discriminate); contradiction.
Qed.

(** X10: disbursal creates the loan, once.  A successful transition to
    disbursed starts from an approved application and adds exactly one
    loan: for the approved amount (the requested amount when none or zero
    was approved), all of it outstanding and nothing repaid, active, with
    the tenure and the rate of the application, the EMI of the formula
    rounded to two decimals, a schedule of [tenure] pending installments and
    the first due date as next EMI date.  A second transition to disbursed
    is answered with [InvalidTransition] and changes nothing. *)
Theorem disbursal_creates_loan (st : Store) (id : ObjectId)
    (remarks : option string) (approvedAmount : option Q) (now : Date)
    (st' : Store) :
  updateApplicationStatus st id "disbursed" remarks approvedAmount now
  = Ok st' ->
  exists application loan emi,
    findById LoanApplication._id id (applicationsDb st) = Some application
    /\ LoanApplication.status application = app_approved
    /\ loansDb st' = loansDb st ++ [loan]
    /\ Loan._id loan = nextId st
    /\ Loan.application loan = id
    /\ Loan.disbursedAmount loan
       = orNumber (LoanApplication.approvedAmount application)
                  (LoanApplication.requestedAmount application)
    /\ Loan.outstandingAmount loan = Loan.disbursedAmount loan
    /\ Loan.totalPrincipalPaid loan = 0%Q
    /\ Loan.totalInterestPaid loan = 0%Q
    /\ Loan.status loan = loan_active
    /\ Loan.closedAt loan = None
    /\ Loan.tenure loan = LoanApplication.tenure application
    /\ Loan.interestRate loan = LoanApplication.interestRate application
    /\ emiFormula (Loan.disbursedAmount loan)
                  (monthlyRateOf (Loan.interestRate loan)) (Loan.tenure loan)
       = Finite emi
    /\ Loan.emiAmount loan = round2 emi
    /\ List.length (Loan.emiSchedule loan) = Loan.tenure loan
    /\ Forall (fun e => Emi.status e = emi_pending
                        /\ Emi.paidAmount e = 0%Q
                        /\ Emi.penaltyAmount e = 0%Q) (Loan.emiSchedule loan)
    /\ Loan.nextEmiDate loan
       = option_map Emi.dueDate (hd_error (Loan.emiSchedule loan))
    /\ (forall remarks' approvedAmount' now',
          run st' (UpdateApplicationStatus id "disbursed" remarks'
                                           approvedAmount') now'
          = (st', Some InvalidTransition)).
Proof.
  intros H. apply updateApplicationStatus_Ok in H.
  destruct H as (before & target & saved & st1 & Hfind & Hin & Hname & ->
                 & Happs & _ & Hstatus & Hterms & _ & Hst1).
  assert (Ht : target = app_disbursed) by now apply AppStatus_name_inj.
  rewrite Ht in Hin, Hstatus, Hst1. clear Ht Hname target.
  pose proof (allowed_to_disbursed _ Hin) as Hbefore.
  assert (Hid : LoanApplication._id saved = id).
  { pose proof (findById_id _ _ _ _ Hfind) as Hb.
    unfold applicationTerms in Hterms. congruence. }
  assert (Hagain : forall remarks' approvedAmount' now',
            run (saveApplication saved st1)
                (UpdateApplicationStatus id "disbursed" remarks'
                                         approvedAmount') now'
            = (saveApplication saved st1, Some InvalidTransition)).
  { intros remarks' approvedAmount' now'.
    unfold run, handle, updateApplicationStatus.
    rewrite <- Hid.
    rewrite (findById_saveApplication st1 saved before)
      by (rewrite Hid, Happs; exact Hfind).
    rewrite status_preSave, Hstatus. reflexivity. }
  unfold createLoanFromApplication in Hst1. rewrite Hid, Hfind in Hst1.
  destruct (findById LoanProduct._id _ (productsDb st)) as [product|];
    [|discriminate].
  destruct (emiFormula _ _ _) as [emi| |] eqn:Hemi; [|discriminate|discriminate].
  injection Hst1 as <-.
  eexists before, _, emi.
  split; [exact Hfind|]. split; [exact Hbefore|].
  split; [reflexivity|].
  cbn [Loan._id Loan.application Loan.disbursedAmount Loan.outstandingAmount
       Loan.totalPrincipalPaid Loan.totalInterestPaid Loan.status
       Loan.closedAt Loan.tenure Loan.interestRate Loan.emiAmount
       Loan.emiSchedule Loan.nextEmiDate].
  repeat (split; [reflexivity|]).
  split; [exact Hemi|]. split; [reflexivity|].
  split; [apply scheduleFrom_length|].
  split; [apply scheduleFrom_pending|].
  split.
  { unfold generateEmiSchedule.
    destruct (scheduleFrom _ _ _ _ _ _); reflexivity. }
  exact Hagain.
Qed.

Lemma disbursal_creates_loan_witness :
  run disbursedStore (UpdateApplicationStatus 1%nat "disbursed" None None)
      jan31
  = (disbursedStore, Some InvalidTransition).
Proof.
  assert (H : updateApplicationStatus approvedStore 1%nat "disbursed" None
                None jan15 = Ok disbursedStore)
    by (vm_compute; reflexivity).
  destruct (disbursal_creates_loan _ _ _ _ _ _ H)
    as (a & l & e & _ & _ & _ & _ & _ & _ & _ & _ & _ & _ & _ & _ & _ & _ & _
        & _ & _ & _ & Hagain).
  apply Hagain.
Defined.

(** ** The payment ledger *)

Lemma findIndex_split {A : Type} (p : A -> bool) (l : list A) i e :
  findIndex p l = Some (i, e) ->
  exists l1 l2,
    l = l1 ++ e :: l2 /\ List.length l1 = i
    /\ Forall (fun x => p x = false) l1 /\ p e = true.
Proof.
  revert i. induction l as [|x l IH]; intros i H; simpl in H; [discriminate|].
  destruct (p x) eqn:Hx.
  - injection H as <- <-. exists [], l. repeat split; auto.
  - destruct (findIndex p l) as [[j y]|]; [|discriminate].
    injection H as <- <-.
    destruct (IH j eq_refl) as (l1 & l2 & -> & Hlen & Hall & He).
    exists (x :: l1), l2. simpl. repeat split; auto.
Qed.

Lemma updateAt_split {A : Type} (f : A -> A) (l1 l2 : list A) e :
  updateAt (List.length l1) f (l1 ++ e :: l2) = l1 ++ f e :: l2.
Proof.
  induction l1 as [|x l1 IH]; simpl; [reflexivity | now rewrite IH].
Qed.

Section Paid.
Variables (amount : Q) (paymentReference : option string) (paidDate : Date).
Variables (schedule : list Emi.t) (i : nat) (emi : Emi.t) (emiNumber : Z).
Hypothesis Hfind :
  findIndex (fun e => Emi.emiNumber e =? emiNumber) schedule = Some (i, emi).
Hypothesis Hunpaid : Emi.status emi <> emi_paid.

Lemma paid_count :
  List.length
    (filter (fun e => EmiStatus_eqb (Emi.status e) emi_paid)
            (updateAt i (paidEmi amount paymentReference paidDate) schedule))
  = S (List.length (filter (fun e => EmiStatus_eqb (Emi.status e) emi_paid)
                           schedule)).
Proof.
  destruct (findIndex_split _ _ _ _ Hfind) as (l1 & l2 & Hl & Hlen & _ & _).
  rewrite Hl, <- Hlen, updateAt_split.
  rewrite !filter_app, !length_app. simpl.
  destruct (EmiStatus_eqb (Emi.status emi) emi_paid) eqn:E;
    [destruct (Emi.status emi); try discriminate; now elim Hunpaid|].
  simpl. lia.
Qed.

(** The schedule after the payment: the installment paid is marked, with
    its terms as generated, and the others are as they were. *)
Lemma paid_schedule :
  exists l1 l2,
    schedule = l1 ++ emi :: l2
    /\ updateAt i (paidEmi amount paymentReference paidDate) schedule
       = l1 ++ paidEmi amount paymentReference paidDate emi :: l2
    /\ Emi.emiNumber emi = emiNumber
    /\ Forall (fun e => Emi.emiNumber e <> emiNumber) l1.
Proof.
  destruct (findIndex_split _ _ _ _ Hfind) as (l1 & l2 & Hl & Hlen & Hall & He).
  exists l1, l2. split; [exact Hl|]. split.
  - now rewrite Hl, <- Hlen, updateAt_split.
  - split; [now apply Z.eqb_eq|].
    eapply Forall_impl; [|exact Hall]. intros e H. now apply Z.eqb_neq.
Qed.
End Paid.

(** X12: an installment is paid once.  After a successful [recordPayment]
    the loan has one more installment paid (the virtual [paidEmisCount]),
    the installment paid is the first one with that number, marked paid
    with the amount, the date and the reference given and its terms as
    generated, and the other installments are as they were.  A second
    payment for the same installment, whatever its amount, is answered with
    [LoanClosed] or [AlreadyPaid] and changes nothing. *)
Theorem recordPayment_once (st : Store) (loanId : ObjectId) (emiNumber : Z)
    (amount : Q) (paymentReference : option string)
    (paymentDate : option Date) (now : Date) (st' : Store) :
  recordPayment st loanId emiNumber amount paymentReference paymentDate now
  = Ok st' ->
  exists loan loan' emi before after,
    findById Loan._id loanId (loansDb st) = Some loan
    /\ findById Loan._id loanId (loansDb st') = Some loan'
    /\ Loan.emiSchedule loan = before ++ emi :: after
    /\ Loan.emiSchedule loan'
       = before
           ++ paidEmi amount paymentReference
                match paymentDate with Some d => d | None => now end emi
           :: after
    /\ Emi.emiNumber emi = emiNumber
    /\ Forall (fun e => Emi.emiNumber e <> emiNumber) before
    /\ Emi.status emi <> emi_paid
    /\ paidEmisCount loan' = S (paidEmisCount loan)
    /\ (forall amount' paymentReference' paymentDate' now',
          let again :=
            run st' (RecordPayment loanId emiNumber amount' paymentReference'
                                   paymentDate') now' in
          again = (st', Some LoanClosed) \/ again = (st', Some AlreadyPaid)).
Proof.
  intros H. apply recordPayment_Ok in H.
  destruct H as (loan & i & emi & loan' & Hloan & _ & Hemi & Hunpaid & Hloans
                 & Hterms & Hsched & _).
  pose proof (findById_after_payment _ _ _ _ Hloan Hterms) as Hfind'.
  rewrite <- Hloans in Hfind'.
  destruct (paid_schedule amount paymentReference
              match paymentDate with Some d => d | None => now end
              _ _ _ _ Hemi) as (l1 & l2 & Hl & Hl' & Hnum & Hbefore).
  exists loan, loan', emi, l1, l2.
  split; [exact Hloan|]. split; [exact Hfind'|]. split; [exact Hl|].
  split; [now rewrite Hsched|]. split; [exact Hnum|].
  split; [exact Hbefore|]. split; [exact Hunpaid|]. split.
  { unfold paidEmisCount. rewrite Hsched.
    eapply paid_count; eauto. }
  intros amount' ref' date' now'. cbv zeta.
  unfold run, handle, recordPayment. rewrite Hfind'.
  destruct (LoanStatus_eqb (Loan.status loan') loan_closed); [now left|].
  rewrite Hsched.
  rewrite (findIndex_updateAt (fun e => Emi.emiNumber e =? emiNumber)
             (paidEmi amount paymentReference
                match paymentDate with Some d => d | None => now end)
             _ _ _ (fun x => eq_refl) Hemi).
  right. reflexivity.
Qed.

Lemma recordPayment_once_witness :
  run firstPaidStore (RecordPayment 2%nat 1 1 None None) jan31
  = (firstPaidStore, Some LoanClosed)
  \/ run firstPaidStore (RecordPayment 2%nat 1 1 None None) jan31
     = (firstPaidStore, Some AlreadyPaid).
Proof.
  assert (H : recordPayment disbursedStore 2%nat 1 84000 None None
                (mkDate 2024 1 15) = Ok firstPaidStore)
    by (vm_compute; reflexivity).
  destruct (recordPayment_once _ _ _ _ _ _ _ _ H)
    as (l & l' & e & b & a & _ & _ & _ & _ & _ & _ & _ & _ & Hagain).
  apply (Hagain 1%Q None None jan31).
Defined.

(** ** The loans over the requests *)

(** The loan that a disbursal opens. *)
Lemma createLoanFromApplication_loan st application now st' :
  createLoanFromApplication st application now = Ok st' ->
  exists loan,
    loansDb st' = loansDb st ++ [loan]
    /\ Loan._id loan = nextId st
    /\ Loan.outstandingAmount loan = Loan.disbursedAmount loan
    /\ Loan.totalPrincipalPaid loan = 0%Q
    /\ Loan.totalInterestPaid loan = 0%Q
    /\ Forall (fun e => Emi.status e = emi_pending
                        /\ Emi.paidAmount e = 0%Q
                        /\ Emi.penaltyAmount e = 0%Q) (Loan.emiSchedule loan).
Proof.
  unfold createLoanFromApplication. intros H.
  destruct (findById LoanApplication._id _ (applicationsDb st))
    as [populatedApp|]; [|discriminate].
  destruct (findById LoanProduct._id _ (productsDb st)) as [product|];
    [|discriminate].
  destruct (emiFormula _ _ _) as [emi| |]; [|discriminate|discriminate].
  injection H as <-. cbn [loansDb].
  eexists. split; [reflexivity|]. cbn [Loan._id Loan.outstandingAmount
    Loan.disbursedAmount Loan.totalPrincipalPaid Loan.totalInterestPaid
    Loan.emiSchedule].
  repeat (split; [reflexivity|]).
  apply scheduleFrom_pending.
Qed.

(** What a request does to the collection of the loans: nothing, or it opens
    a loan, or it saves one loan after a payment or a change of its status,
    or it is the sweep of the overdue installments. *)
Lemma loans_handle st r now st' :
  handle st r now = Ok st' ->
  loansDb st' = loansDb st
  \/ (exists loan,
        loansDb st' = loansDb st ++ [loan]
        /\ Loan._id loan = nextId st
        /\ Loan.outstandingAmount loan = Loan.disbursedAmount loan
        /\ Loan.totalPrincipalPaid loan = 0%Q
        /\ Loan.totalInterestPaid loan = 0%Q
        /\ Forall (fun e => Emi.status e = emi_pending
                            /\ Emi.paidAmount e = 0%Q
                            /\ Emi.penaltyAmount e = 0%Q)
                  (Loan.emiSchedule loan))
  \/ (exists loan loan',
        findById Loan._id (Loan._id loan') (loansDb st) = Some loan
        /\ loansDb st' = saveDoc Loan._id loan' (loansDb st)
        /\ loanTerms loan' = loanTerms loan
        /\ ((exists i emi emiNumber amount paymentReference paidDate,
               findIndex (fun e => Emi.emiNumber e =? emiNumber)
                         (Loan.emiSchedule loan) = Some (i, emi)
               /\ Emi.status emi <> emi_paid
               /\ Loan.emiSchedule loan'
                  = updateAt i (paidEmi amount paymentReference paidDate)
                             (Loan.emiSchedule loan)
               /\ Loan.outstandingAmount loan'
                  = jssub (Loan.outstandingAmount loan) (Emi.principal emi)
               /\ Loan.totalPrincipalPaid loan'
                  = jsadd (Loan.totalPrincipalPaid loan) (Emi.principal emi)
               /\ Loan.totalInterestPaid loan'
                  = jsadd (Loan.totalInterestPaid loan) (Emi.interest emi))
            \/ (Loan.emiSchedule loan' = Loan.emiSchedule loan
                /\ Loan.outstandingAmount loan' = Loan.outstandingAmount loan
                /\ Loan.totalPrincipalPaid loan'
                   = Loan.totalPrincipalPaid loan
                /\ Loan.totalInterestPaid loan'
                   = Loan.totalInterestPaid loan)))
  \/ loansDb st' = map (sweepLoan now) (loansDb st).
Proof.
  intros H. destruct r; simpl in H.
  - left. unfold createCollateral in H.
    destruct (find _ (collateralsDb st)); [discriminate|].
    now injection H as <-.
  - left. injection H as <-. unfold updateNav.
    destruct (fold_left _ _ _). reflexivity.
  - left. unfold markLien in H.
    destruct (findById _ id (collateralsDb st)); [|discriminate].
    destruct (LienStatus_eqb _ lien_marked); [discriminate|].
    now injection H as <-.
  - left. unfold releaseLien in H.
    destruct (findById _ id (collateralsDb st)); [|discriminate].
    destruct (negb _); [discriminate|].
    match type of H with
    | (if ?b then _ else _) = _ => destruct b; [discriminate|]
    end.
    now injection H as <-.
  - left. apply createApplication_Ok in H.
    destruct H as (p & cols & total & a & _ & _ & _ & _ & _ & _ & _ & _ & _
                   & ->).
    reflexivity.
  - apply updateApplicationStatus_Ok in H.
    destruct H as (before & target & saved & st1 & _ & _ & _ & -> & _ & _ & _
                   & _ & _ & Hst1).
    cbn [saveApplication with_applications loansDb].
    destruct target; try (left; now rewrite Hst1).
    right. left. apply createLoanFromApplication_loan in Hst1. exact Hst1.
  - right. right. left. apply recordPayment_Ok in H.
    destruct H as (loan & i & emi & loan' & Hloan & _ & Hemi & Hunpaid & Hloans
                   & Hterms & Hsched & Hout & Htpp & Htip & _).
    exists loan, loan'.
    assert (Hid : Loan._id loan' = loanId).
    { pose proof (findById_id _ _ _ _ Hloan). unfold loanTerms in Hterms.
      congruence. }
    rewrite Hid. split; [exact Hloan|]. split; [exact Hloans|].
    split; [exact Hterms|]. left.
    exists i, emi, emiNumber, amount, paymentReference,
      match paymentDate with Some d => d | None => now end.
    repeat split; assumption.
  - right. right. left. unfold updateLoanStatus in H.
    destruct (findById _ loanId (loansDb st)) as [loan|] eqn:Hloan;
      [|discriminate].
    destruct (lookupName _ _ status) as [s|]; [|discriminate].
    injection H as <-. cbn [loansDb with_loans].
    pose proof (findById_id _ _ _ _ Hloan) as Hid.
    eexists loan, _. split; [|split; [reflexivity|]].
    + destruct (LoanStatus_eqb s loan_closed); destruct loan;
        simpl in Hid |- *; subst loanId; exact Hloan.
    + destruct (LoanStatus_eqb s loan_closed); destruct loan;
        (split; [reflexivity|]); right; repeat split.
  - right. right. right. now injection H as <-.
Qed.

(** ** Closure by payment *)

Lemma EmiStatus_eqb_eq a b : EmiStatus_eqb a b = true <-> a = b.
Proof. destruct a, b; simpl; split; intros H; congruence. Qed.

Lemma LoanStatus_eqb_eq a b : LoanStatus_eqb a b = true <-> a = b.
Proof. destruct a, b; simpl; split; intros H; congruence. Qed.

Lemma fullyPaid_spec outstandingAmount schedule :
  fullyPaid outstandingAmount schedule = true
  <-> (outstandingAmount <= 0)%Q
      \/ Forall (fun e => Emi.status e <> emi_pending) schedule.
Proof.
  unfold fullyPaid. rewrite orb_true_iff, Qle_bool_iff.
  apply or_iff_compat_l.
  destruct (find _ schedule) as [e|] eqn:E; split; intros H;
    try discriminate; try reflexivity.
  - apply find_some in E. destruct E as [Hin He].
    rewrite Forall_forall in H. apply EmiStatus_eqb_eq in He.
    now elim (H e Hin).
  - apply Forall_forall. intros e Hin He.
    pose proof (find_none _ _ E e Hin) as Hn. cbv beta in Hn.
    rewrite He in Hn. discriminate.
Qed.

Lemma hasOverdue_spec schedule :
  hasOverdue schedule = true
  <-> Exists (fun e => Emi.status e = emi_overdue) schedule.
Proof.
  unfold hasOverdue. rewrite existsb_exists, Exists_exists.
  split; intros (e & Hin & He); exists e; (split; [exact Hin|]);
    now apply EmiStatus_eqb_eq.
Qed.

(** X13: a payment closes the loan exactly when it leaves nothing to pay.
    After a successful [recordPayment] the outstanding amount is reduced by
    the principal of the installment paid (whatever amount was sent) and is
    not negative, since the loan was saved; the loan is closed if and only
    if the outstanding amount is then zero or no installment is pending any
    more.  When it closes, the
    closure is stamped (reason fully paid, date of the request), every
    collateral that was linked to the loan has its lien released and no
    collateral is linked to the loan any more.  When it does not close, no
    collateral changes and the closure fields stay; the loan is overdue if
    and only if some installment is overdue, and otherwise an overdue loan
    is active again and any other status is kept. *)
Theorem recordPayment_closure (st : Store) (loanId : ObjectId)
    (emiNumber : Z) (amount : Q) (paymentReference : option string)
    (paymentDate : option Date) (now : Date) (st' : Store) :
  recordPayment st loanId emiNumber amount paymentReference paymentDate now
  = Ok st' ->
  exists loan loan' emi,
    findById Loan._id loanId (loansDb st) = Some loan
    /\ findById Loan._id loanId (loansDb st') = Some loan'
    /\ In emi (Loan.emiSchedule loan)
    /\ Emi.emiNumber emi = emiNumber
    /\ Loan.outstandingAmount loan'
       = jssub (Loan.outstandingAmount loan) (Emi.principal emi)
    /\ (0 <= Loan.outstandingAmount loan')%Q
    /\ (Loan.status loan' = loan_closed
        <-> (Loan.outstandingAmount loan' <= 0)%Q
            \/ Forall (fun e => Emi.status e <> emi_pending)
                      (Loan.emiSchedule loan'))
    /\ (Loan.status loan' = loan_closed ->
        Loan.closedAt loan' = Some now
        /\ Loan.closureReason loan' = Some fully_paid
        /\ Forall (fun c => Collateral.linkedLoan c <> Some loanId)
                  (collateralsDb st')
        /\ Forall2
             (fun c c' =>
                (Collateral.linkedLoan c <> Some loanId /\ c' = c)
                \/ (Collateral.linkedLoan c = Some loanId
                    /\ Collateral.lienStatus c' = lien_released
                    /\ Collateral.lienReleasedDate c' = Some now
                    /\ Collateral._id c' = Collateral._id c
                    /\ Collateral.folioNumber c' = Collateral.folioNumber c))
             (collateralsDb st) (collateralsDb st'))
    /\ (Loan.status loan' <> loan_closed ->
        collateralsDb st' = collateralsDb st
        /\ Loan.closedAt loan' = Loan.closedAt loan
        /\ Loan.closureReason loan' = Loan.closureReason loan
        /\ (Loan.status loan' = loan_overdue
            <-> Exists (fun e => Emi.status e = emi_overdue)
                       (Loan.emiSchedule loan'))
        /\ (Loan.status loan' <> loan_overdue ->
            Loan.status loan'
            = match Loan.status loan with
              | loan_overdue => loan_active
              | s => s
              end)).
Proof.
  intros H. apply recordPayment_Ok in H.
  destruct H as (loan & i & emi & loan' & Hloan & Hopen & Hemi & Hunpaid
                 & Hloans & Hterms & Hsched & Hout & _ & _ & _ & _ & Hstatus
                 & Hat & Hreason & Hcs & _ & _ & _ & Hval).
  pose proof (findById_after_payment _ _ _ _ Hloan Hterms) as Hfind'.
  rewrite <- Hloans in Hfind'.
  destruct (findIndex_split _ _ _ _ Hemi) as (l1 & l2 & Hl & _ & _ & Hnum).
  exists loan, loan', emi.
  split; [exact Hloan|]. split; [exact Hfind'|].
  split; [rewrite Hl; apply in_or_app; right; now left|].
  split; [now apply Z.eqb_eq|]. split; [exact Hout|]. split; [exact Hval|].
  rewrite <- fullyPaid_spec, <- hasOverdue_spec.
  destruct (fullyPaid (Loan.outstandingAmount loan') (Loan.emiSchedule loan'))
    eqn:Hfull.
  - split; [split; auto|]. split; [|intros Hn; now elim Hn].
    intros _. split; [exact Hat|]. split; [exact Hreason|].
    rewrite Hcs. unfold updateMany. split.
    + apply Forall_forall. intros c Hc. apply in_map_iff in Hc.
      destruct Hc as (x & <- & _).
      destruct (ObjectId_opt_eqb (Collateral.linkedLoan x) loanId) eqn:E.
      * destruct x; simpl. discriminate.
      * intros Heq. rewrite Heq in E. simpl in E.
        now rewrite Nat.eqb_refl in E.
    + apply Forall2_map_self. intros c _.
      destruct (ObjectId_opt_eqb (Collateral.linkedLoan c) loanId) eqn:E.
      * right. unfold ObjectId_opt_eqb in E.
        destruct (Collateral.linkedLoan c) as [x|] eqn:Hx; [|discriminate].
        apply Nat.eqb_eq in E. subst x.
        destruct c; simpl in *; subst; repeat split.
      * left. split; [|reflexivity]. intros Heq. rewrite Heq in E.
        simpl in E. now rewrite Nat.eqb_refl in E.
  - assert (Hnc : Loan.status loan' <> loan_closed).
    { rewrite Hstatus. destruct (hasOverdue _); [discriminate|].
      destruct (LoanStatus_eqb _ loan_overdue); [discriminate | exact Hopen]. }
    split; [split; [intros Hc; now elim Hnc | discriminate]|].
    split; [intros Hc; now elim Hnc|]. intros _.
    split; [exact Hcs|]. split; [exact Hat|]. split; [exact Hreason|].
    rewrite Hstatus. destruct (hasOverdue (Loan.emiSchedule loan')).
    + split; [split; reflexivity | intros Hn; now elim Hn].
    + destruct (Loan.status loan); simpl;
        (split; [split; discriminate | reflexivity])
        || (split; [split; discriminate | intros Hn; now elim Hn]).
Qed.

Lemma recordPayment_closure_witness :
  exists loan',
    findById Loan._id 2%nat (loansDb closedLoanStore) = Some loan'
    /\ (Loan.status loan' = loan_closed
        <-> (Loan.outstandingAmount loan' <= 0)%Q
            \/ Forall (fun e => Emi.status e <> emi_pending)
                      (Loan.emiSchedule loan')).
Proof.
  assert (H : recordPayment
                (storeAfter (untilDisbursed ++ payments [1; 2; 3; 4; 5]))
                2%nat 6 84000 None None (mkDate 2024 6 15)
              = Ok closedLoanStore)
    by (vm_compute; reflexivity).
  destruct (recordPayment_closure _ _ _ _ _ _ _ _ H)
    as (loan & loan' & emi & _ & Hfind & _ & _ & _ & _ & Hiff & _).
  exists loan'. split; [exact Hfind | exact Hiff].
Defined.

(** X20: a payment that would take the outstanding amount below zero.  When
    [recordPayment] fails after a write, the failure is the validation of
    [loan.save()]: the installment could be paid, and the outstanding amount
    less its principal is negative.  The loan is not written (it stays open,
    with the installment unpaid) and the applications are as they were, but
    [Collateral.updateMany] has run before the save: every collateral that
    was linked to the loan has its lien released, and no collateral is
    linked to the loan any more.  The same installment paid again, with
    whatever amount, fails in the same way and changes nothing more. *)
Theorem recordPayment_failed_save (st : Store) (loanId : ObjectId)
    (emiNumber : Z) (amount : Q) (paymentReference : option string)
    (paymentDate : option Date) (now : Date) (st' : Store) (e : Error) :
  recordPayment st loanId emiNumber amount paymentReference paymentDate now
  = Failed st' e ->
  e = ValidationFailed
  /\ exists loan emi,
       findById Loan._id loanId (loansDb st) = Some loan
       /\ Loan.status loan <> loan_closed
       /\ In emi (Loan.emiSchedule loan)
       /\ Emi.emiNumber emi = emiNumber
       /\ Emi.status emi <> emi_paid
       /\ (jssub (Loan.outstandingAmount loan) (Emi.principal emi) < 0)%Q
       /\ loansDb st' = loansDb st
       /\ applicationsDb st' = applicationsDb st
       /\ Forall (fun c => Collateral.linkedLoan c <> Some loanId)
                 (collateralsDb st')
       /\ Forall2
            (fun c c' =>
               (Collateral.linkedLoan c <> Some loanId /\ c' = c)
               \/ (Collateral.linkedLoan c = Some loanId
                   /\ Collateral.lienStatus c' = lien_released
                   /\ Collateral.lienReleasedDate c' = Some now
                   /\ Collateral.linkedLoan c' = None
                   /\ Collateral._id c' = Collateral._id c
                   /\ Collateral.folioNumber c' = Collateral.folioNumber c))
            (collateralsDb st) (collateralsDb st')
       /\ (forall amount' paymentReference' paymentDate' now',
             run st' (RecordPayment loanId emiNumber amount'
                                    paymentReference' paymentDate') now'
             = (st', Some ValidationFailed)).
Proof.
  intros H. apply recordPayment_Failed in H.
  destruct H as (-> & -> & loan & i & emi & Hloan & Hopen & Hemi & Hunpaid
                 & Hneg).
  split; [reflexivity|].
  destruct (findIndex_split _ _ _ _ Hemi) as (l1 & l2 & Hl & _ & _ & Hnum).
  exists loan, emi.
  split; [exact Hloan|]. split; [exact Hopen|].
  split; [rewrite Hl; apply in_or_app; right; now left|].
  split; [now apply Z.eqb_eq|]. split; [exact Hunpaid|].
  split; [exact Hneg|].
  cbn [loansDb applicationsDb collateralsDb with_collaterals].
  split; [reflexivity|]. split; [reflexivity|].
  set (release := fun c =>
         Collateral.set_linkedLoan None
           (Collateral.set_lienReleasedDate (Some now)
              (Collateral.set_lienStatus lien_released c))).
  assert (Hnone : Forall (fun c => Collateral.linkedLoan c <> Some loanId)
                    (updateMany
                       (fun c => ObjectId_opt_eqb (Collateral.linkedLoan c)
                                                  loanId)
                       release (collateralsDb st))).
  { unfold updateMany. apply Forall_forall. intros c Hc.
    apply in_map_iff in Hc. destruct Hc as (x & <- & _).
    destruct (ObjectId_opt_eqb (Collateral.linkedLoan x) loanId) eqn:E.
    - destruct x; simpl. discriminate.
    - intros Heq. rewrite Heq in E. simpl in E.
      now rewrite Nat.eqb_refl in E. }
  split; [exact Hnone|]. split.
  { unfold updateMany. apply Forall2_map_self. intros c _.
    destruct (ObjectId_opt_eqb (Collateral.linkedLoan c) loanId) eqn:E.
    - right. unfold ObjectId_opt_eqb in E.
      destruct (Collateral.linkedLoan c) as [x|] eqn:Hx; [|discriminate].
      apply Nat.eqb_eq in E. subst x.
      destruct c; simpl in *; subst; repeat split.
    - left. split; [|reflexivity]. intros Heq. rewrite Heq in E.
      simpl in E. now rewrite Nat.eqb_refl in E. }
  intros amount' ref' date' now'.
  set (cs' := updateMany _ release (collateralsDb st)) in *.
  unfold run, handle.
  destruct (recordPayment_payable (with_collaterals cs' st) loanId emiNumber
              amount' ref' date' now' loan i emi Hloan Hopen Hemi Hunpaid)
    as (loan' & cs & _ & _ & Ho & _ & _ & _ & _ & _ & _ & _ & Hcs & Hres).
  rewrite Hres.
  assert (Hval : Loan.validate loan' = false).
  { unfold Loan.validate. rewrite Ho.
    destruct (Qle_bool 0 _) eqn:E; [|reflexivity].
    apply Qle_bool_iff in E. exfalso. now apply (Qlt_not_le _ _ Hneg). }
  rewrite Hval. f_equal.
  assert (Hsame : cs = cs').
  { rewrite Hcs. cbn [collateralsDb with_collaterals].
    destruct (fullyPaid _ _); [|reflexivity].
    unfold updateMany. rewrite <- (map_id cs') at 2.
    apply map_ext_in. intros c Hc.
    rewrite Forall_forall in Hnone. specialize (Hnone c Hc).
    destruct (ObjectId_opt_eqb (Collateral.linkedLoan c) loanId) eqn:E;
      [|reflexivity].
    unfold ObjectId_opt_eqb in E.
    destruct (Collateral.linkedLoan c) as [x|]; [|discriminate].
    apply Nat.eqb_eq in E. subst x. now elim Hnone. }
  rewrite Hsame. destruct st; reflexivity.
Qed.

Lemma recordPayment_failed_save_witness :
  run sixthPaymentFailed (RecordPayment 2%nat 6 8627 None None) jan31
  = (sixthPaymentFailed, Some ValidationFailed).
Proof.
  assert (H : recordPayment sixthExceedsOutstanding 2%nat 6 8627 None None
                (mkDate 2024 6 15)
              = Failed sixthPaymentFailed ValidationFailed)
    by (vm_compute; reflexivity).
  destruct (recordPayment_failed_save _ _ _ _ _ _ _ _ _ H)
    as (_ & loan & emi & _ & _ & _ & _ & _ & _ & _ & _ & _ & _ & Hagain).
  apply (Hagain 8627%Q None None jan31).
Defined.

(** ** The terms of a loan *)

Lemma findById_app {A : Type} (idOf : A -> ObjectId) id (l l' : list A) d :
  findById idOf id l = Some d -> findById idOf id (l ++ l') = Some d.
Proof.
  unfold findById. induction l as [|x l IH]; simpl; [discriminate|].
  destruct (Nat.eqb (idOf x) id); auto.
Qed.

Lemma findById_map {A : Type} (idOf : A -> ObjectId) (f : A -> A) id l :
  (forall x, idOf (f x) = idOf x) ->
  findById idOf id (map f l) = option_map f (findById idOf id l).
Proof.
  intros Hf. unfold findById. induction l as [|x l IH]; simpl; [reflexivity|].
  rewrite Hf. destruct (Nat.eqb (idOf x) id); [reflexivity | exact IH].
Qed.

Lemma map_updateAt {A B : Type} (g : A -> B) (f : A -> A) i l :
  (forall x, g (f x) = g x) -> map g (updateAt i f l) = map g l.
Proof.
  intros Hf. revert i.
  induction l as [|x l IH]; intros [|i]; simpl; try reflexivity.
  - now rewrite Hf.
  - now rewrite IH.
Qed.

Lemma sweepLoan_terms today loan :
  loanTerms (sweepLoan today loan) = loanTerms loan
  /\ map emiTerms (Loan.emiSchedule (sweepLoan today loan))
     = map emiTerms (Loan.emiSchedule loan).
Proof.
  unfold sweepLoan, markLoanOverdue.
  destruct (overdueCandidate loan); [|now split].
  destruct (existsb _ _); [|now split].
  destruct loan; simpl. split; [reflexivity|].
  rewrite map_map. apply map_ext. intros e.
  destruct (isPastDue today e); [|reflexivity]. now destruct e.
Qed.

Lemma loan_terms_handle st r now st' loanId loan :
  handle st r now = Ok st' ->
  findById Loan._id loanId (loansDb st) = Some loan ->
  exists loan',
    findById Loan._id loanId (loansDb st') = Some loan'
    /\ loanTerms loan' = loanTerms loan
    /\ map emiTerms (Loan.emiSchedule loan')
       = map emiTerms (Loan.emiSchedule loan).
Proof.
  intros H Hloan. apply loans_handle in H.
  destruct H as [-> | [(new & -> & _)
                      | [(old & loan' & Hold & -> & Hterms & Hstep) | ->]]].
  - now exists loan.
  - exists loan. split; [now apply findById_app | now split].
  - destruct (Nat.eq_dec loanId (Loan._id loan')) as [->|Hne].
    + exists loan'. rewrite Hold in Hloan. injection Hloan as ->.
      split; [eapply findById_saveDoc_same; eauto|].
      split; [exact Hterms|].
      destruct Hstep as [(i & emi & n & amount & ref & date & _ & _ & -> & _)
                        | (-> & _)]; [|reflexivity].
      apply map_updateAt. intros x. now destruct x.
    + exists loan. rewrite findById_saveDoc_other by exact Hne. now split.
  - exists (sweepLoan now loan).
    rewrite findById_map, Hloan.
    + split; [reflexivity | apply sweepLoan_terms].
    + intros x. destruct (sweepLoan_terms now x) as [Ht _].
      unfold loanTerms in Ht. congruence.
Qed.

(** X14: the terms of a loan are fixed at disbursal.  Whatever requests
    follow, a loan of the store stays in the store under its identifier,
    with the application, the product, the amount disbursed, the tenure, the
    rate, the EMI, the collaterals, the collateral value and the date of
    disbursal it had, and its schedule keeps its installments in order with
    their numbers, due dates, principal, interest, total amounts and
    penalties: payments, status changes and the overdue sweep only write
    the payment fields and the statuses. *)
Theorem loan_terms_fixed (st : Store) (rs : list (Request * Date))
    (st' : Store) (loanId : ObjectId) (loan : Loan.t) :
  runAll st rs = Ok st' ->
  findById Loan._id loanId (loansDb st) = Some loan ->
  exists loan',
    findById Loan._id loanId (loansDb st') = Some loan'
    /\ loanTerms loan' = loanTerms loan
    /\ map emiTerms (Loan.emiSchedule loan')
       = map emiTerms (Loan.emiSchedule loan).
Proof.
  revert st loan. induction rs as [|[r now] rs IH]; intros st loan H Hloan;
    simpl in H.
  - injection H as <-. now exists loan.
  - destruct (handle st r now) as [st1| |] eqn:E;
    [|discriminate|discriminate].
    destruct (loan_terms_handle _ _ _ _ _ _ E Hloan)
      as (loan1 & Hloan1 & Ht1 & Hs1).
    destruct (IH st1 loan1 H Hloan1) as (loan' & Hloan' & Ht & Hs).
    exists loan'. split; [exact Hloan'|]. split; congruence.
Qed.

Lemma loan_terms_fixed_witness :
  exists loan loan',
    findById Loan._id 2%nat (loansDb disbursedStore) = Some loan
    /\ findById Loan._id 2%nat (loansDb closedLoanStore) = Some loan'
    /\ loanTerms loan' = loanTerms loan
    /\ map emiTerms (Loan.emiSchedule loan')
       = map emiTerms (Loan.emiSchedule loan).
Proof.
  destruct (findById Loan._id 2%nat (loansDb disbursedStore)) as [loan|] eqn:E;
    [|vm_compute in E; discriminate].
  assert (H : runAll disbursedStore (payments [1; 2; 3; 4; 5; 6])
              = Ok closedLoanStore) by (vm_compute; reflexivity).
  destruct (loan_terms_fixed _ _ _ _ _ H E) as (loan' & H1 & H2 & H3).
  exists loan, loan'. split; [reflexivity|]. split; [exact H1|].
  split; [exact H2 | exact H3].
Defined.

(** ** The sweep of the overdue installments *)

Lemma date_ltb_lt a b : date_ltb a b = true <-> date_lt a b.
Proof.
  unfold date_ltb, date_lt.
  rewrite orb_true_iff, andb_true_iff, Z.ltb_lt, Z.ltb_lt, Z.eqb_eq.
  reflexivity.
Qed.

Lemma isPastDue_spec today e :
  isPastDue today e = true
  <-> Emi.status e = emi_pending /\ date_lt (Emi.dueDate e) today.
Proof.
  unfold isPastDue. now rewrite andb_true_iff, EmiStatus_eqb_eq, date_ltb_lt.
Qed.

Lemma with_loans_same st : with_loans (loansDb st) st = st.
Proof. now destruct st. Qed.

Lemma map_id_on {A : Type} (f : A -> A) l :
  (forall x, In x l -> f x = x) -> map f l = l.
Proof.
  induction l as [|x l IH]; intros H; simpl; [reflexivity|].
  rewrite H by now left. rewrite IH; [reflexivity|].
  intros y Hy. apply H. now right.
Qed.

Lemma map_fixed_In {A : Type} (f : A -> A) l x :
  map f l = l -> In x l -> f x = x.
Proof.
  induction l as [|y l IH]; simpl; intros Hl Hin; [contradiction|].
  injection Hl as Hy Hl. destruct Hin as [<-|Hin]; auto.
Qed.

Lemma filter_nil_forall {A : Type} (p : A -> bool) l :
  List.length (filter p l) = O <-> (forall x, In x l -> p x = false).
Proof.
  induction l as [|x l IH]; simpl.
  - split; [intros _ y [] | reflexivity].
  - destruct (p x) eqn:E; simpl.
    + split; [discriminate|]. intros H. specialize (H x (or_introl eq_refl)).
      congruence.
    + rewrite IH. split.
      * intros H y [<-|Hy]; auto.
      * intros H y Hy. apply H. now right.
Qed.

(** X15: what the overdue sweep does.  [markOverdueEmis] keeps the loans in
    place and writes nothing but statuses: in each loan an installment
    changes only from pending to overdue, and only when its due date is
    before the day of the sweep; a loan changes only if it was active or
    overdue, and is then overdue.  Afterwards no active or overdue loan has
    a pending installment that is past due.  Collaterals, applications and
    products are not touched, and the count returned is zero exactly when
    the store is as it was. *)
Theorem markOverdueEmis_effect (st : Store) (today : Date) :
  let st' := fst (markOverdueEmis st today) in
  Forall2
    (fun loan loan' =>
       loan' = Loan.set_status (Loan.status loan')
                 (Loan.set_emiSchedule (Loan.emiSchedule loan') loan)
       /\ Forall2
            (fun e e' =>
               e' = e
               \/ (Emi.status e = emi_pending
                   /\ date_lt (Emi.dueDate e) today
                   /\ e' = Emi.set_status emi_overdue e))
            (Loan.emiSchedule loan) (Loan.emiSchedule loan')
       /\ (loan' = loan
           \/ (Loan.status loan' = loan_overdue
               /\ (Loan.status loan = loan_active
                   \/ Loan.status loan = loan_overdue)))
       /\ (Loan.status loan' = loan_active
           \/ Loan.status loan' = loan_overdue ->
           Forall (fun e => Emi.status e = emi_pending ->
                            ~ date_lt (Emi.dueDate e) today)
                  (Loan.emiSchedule loan')))
    (loansDb st) (loansDb st')
  /\ collateralsDb st' = collateralsDb st
  /\ applicationsDb st' = applicationsDb st
  /\ productsDb st' = productsDb st
  /\ nextId st' = nextId st
  /\ (snd (markOverdueEmis st today) = O <-> st' = st).
Proof.
  cbv zeta. unfold markOverdueEmis. cbn [fst snd].
  split; [|split; [reflexivity|split; [reflexivity|split; [reflexivity|
           split; [reflexivity|]]]]].
  - cbn [loansDb with_loans]. apply Forall2_map_self. intros loan _.
    split; [|split; [|split]].
    + unfold sweepLoan, markLoanOverdue.
      destruct (overdueCandidate loan); [|now destruct loan].
      destruct (existsb _ _); now destruct loan.
    + unfold sweepLoan, markLoanOverdue.
      destruct (overdueCandidate loan); [|apply Forall2_same; intros; now left].
      destruct (existsb _ _); [|apply Forall2_same; intros; now left].
      destruct loan; simpl. apply Forall2_map_self. intros e _.
      destruct (isPastDue today e) eqn:E; [|now left].
      apply isPastDue_spec in E. right. now destruct E.
    + unfold sweepLoan, markLoanOverdue.
      destruct (overdueCandidate loan) eqn:Hc; [|now left].
      destruct (existsb _ _); [|now left]. right.
      unfold overdueCandidate in Hc. apply andb_true_iff in Hc.
      destruct Hc as [Hc _]. apply orb_true_iff in Hc.
      rewrite !LoanStatus_eqb_eq in Hc. now destruct loan.
    + intros Hs. pose proof (sweepLoan_settled today loan) as Hset.
      apply andb_false_iff in Hset.
      apply Forall_forall. intros e He Hp Hlt.
      destruct Hset as [Hset|Hset].
      * unfold overdueCandidate in Hset. apply andb_false_iff in Hset.
        destruct Hset as [Hset|Hset].
        -- apply orb_false_iff in Hset. destruct Hset as [H1 H2].
           destruct Hs as [Hs|Hs]; rewrite Hs in *; discriminate.
        -- assert (Hex : existsb
                           (fun e => EmiStatus_eqb (Emi.status e) emi_pending)
                           (Loan.emiSchedule (sweepLoan today loan)) = true).
           { apply existsb_exists. exists e. split; [exact He|].
             now apply EmiStatus_eqb_eq. }
           congruence.
      * assert (Hex : existsb (isPastDue today)
                        (Loan.emiSchedule (sweepLoan today loan)) = true).
        { apply existsb_exists. exists e. split; [exact He|].
          now apply isPastDue_spec. }
        congruence.
  - rewrite filter_nil_forall. split.
    + intros H. rewrite map_id_on; [apply with_loans_same|].
      intros loan Hin. specialize (H loan Hin).
      unfold sweepLoan, markLoanOverdue.
      destruct (overdueCandidate loan); [|reflexivity].
      simpl in H. now rewrite H.
    + intros H loan Hin.
      assert (Hl : map (sweepLoan today) (loansDb st) = loansDb st).
      { apply (f_equal loansDb) in H. exact H. }
      assert (Hfix : sweepLoan today loan = loan).
      { eapply map_fixed_In; eauto. }
      pose proof (sweepLoan_settled today loan) as Hset.
      now rewrite Hfix in Hset.
Qed.

(** ** Loans and their applications *)

Lemma createLoanFromApplication_backed st saved now st1 before :
  createLoanFromApplication st saved now = Ok st1 ->
  findById LoanApplication._id (LoanApplication._id saved) (applicationsDb st)
  = Some before ->
  exists loan,
    loansDb st1 = loansDb st ++ [loan]
    /\ Loan.application loan = LoanApplication._id saved
    /\ Loan.disbursedAmount loan
       = orNumber (LoanApplication.approvedAmount before)
                  (LoanApplication.requestedAmount before)
    /\ Loan.tenure loan = LoanApplication.tenure before
    /\ Loan.interestRate loan = LoanApplication.interestRate before
    /\ Loan.totalCollateralValue loan
       = LoanApplication.totalCollateralValue before.
Proof.
  unfold createLoanFromApplication. intros H Hfind. rewrite Hfind in H.
  destruct (findById LoanProduct._id _ (productsDb st)) as [product|];
    [|discriminate].
  destruct (emiFormula _ _ _) as [emi| |]; [|discriminate|discriminate].
  injection H as <-. eexists. split; [reflexivity|].
  repeat split.
Qed.

Lemma loanBacked_terms st st' loan loan' :
  applicationsDb st' = applicationsDb st ->
  loanTerms loan' = loanTerms loan ->
  loanBacked st loan -> loanBacked st' loan'.
Proof.
  intros Happs Hterms (a & Ha & Hs & H1 & H2 & H3 & H4).
  unfold loanTerms in Hterms. exists a. rewrite Happs.
  repeat split; try assumption; congruence.
Qed.

Lemma closed_or_disbursed_next from target :
  from = app_disbursed \/ from = app_closed ->
  In target (validTransitions from) ->
  target = app_closed.
Proof.
  intros [-> | ->]; simpl; intros H;
    repeat (destruct H as [H|H]; try (now symmetry)); contradiction.
Qed.

Lemma loanBacked_apps st st' loan :
  applicationsDb st' = applicationsDb st ->
  loanBacked st loan -> loanBacked st' loan.
Proof. intros Happs. now apply loanBacked_terms. Qed.

Lemma loanBacked_other st saved st1 loan :
  applicationsDb st1 = applicationsDb st ->
  Loan.application loan <> LoanApplication._id saved ->
  loanBacked st loan -> loanBacked (saveApplication saved st1) loan.
Proof.
  intros Happs Hne (a & Ha & H). exists a. split; [|exact H].
  unfold saveApplication. cbn [applicationsDb with_applications].
  rewrite Happs, findById_saveDoc_other; [exact Ha|].
  now rewrite preSave_id.
Qed.

Lemma loanBacked_handle st r now st' :
  Forall (loanBacked st) (loansDb st) -> handle st r now = Ok st' ->
  Forall (loanBacked st') (loansDb st').
Proof.
  intros Hl H.
  assert (Hkeep : forall st2,
             applicationsDb st2 = applicationsDb st ->
             Forall (loanBacked st2) (loansDb st)).
  { intros st2 Happs. eapply Forall_impl; [|exact Hl]. intros loan.
    now apply loanBacked_apps. }
  destruct r; simpl in H.
  - unfold createCollateral in H.
    destruct (find _ (collateralsDb st)); [discriminate|].
    injection H as <-. now apply Hkeep.
  - injection H as <-. unfold updateNav.
    destruct (fold_left _ _ _). now apply Hkeep.
  - unfold markLien in H.
    destruct (findById _ id (collateralsDb st)); [|discriminate].
    destruct (LienStatus_eqb _ lien_marked); [discriminate|].
    injection H as <-. now apply Hkeep.
  - unfold releaseLien in H.
    destruct (findById _ id (collateralsDb st)); [|discriminate].
    destruct (negb _); [discriminate|].
    match type of H with
    | (if ?b then _ else _) = _ => destruct b; [discriminate|]
    end.
    injection H as <-. now apply Hkeep.
  - apply createApplication_Ok in H.
    destruct H as (p & cols & total & a & _ & _ & _ & _ & _ & _ & _ & _ & _
                   & ->).
    cbn [loansDb]. eapply Forall_impl; [|exact Hl].
    intros loan (b & Hb & Hrest). exists b. split; [|exact Hrest].
    cbn [applicationsDb]. now apply findById_app.
  - apply updateApplicationStatus_Ok in H.
    destruct H as (before & target & saved & st1 & Hfind & Hin & _ & ->
                   & Happs & _ & Hstatus & Hterms & Happroved & Hst1).
    assert (Hid : LoanApplication._id saved = id).
    { pose proof (findById_id _ _ _ _ Hfind) as Hb.
      unfold applicationTerms in Hterms. congruence. }
    assert (Hsaved : findById LoanApplication._id id
                       (applicationsDb (saveApplication saved st1))
                     = Some (LoanApplication.preSave saved)).
    { rewrite <- Hid. apply findById_saveApplication with (before := before).
      now rewrite Hid, Happs. }
    assert (Hold : Forall (loanBacked (saveApplication saved st1))
                          (loansDb st)).
    { apply Forall_forall. intros loan Hloan.
      rewrite Forall_forall in Hl. specialize (Hl loan Hloan).
      destruct (Nat.eq_dec (Loan.application loan) id) as [Heq|Hne];
        [|apply (loanBacked_other st); [exact Happs | congruence | exact Hl]].
      destruct Hl as (a & Ha & Hs & H1 & H2 & H3 & H4).
      rewrite Heq, Hfind in Ha. injection Ha as <-.
      pose proof (closed_or_disbursed_next _ _ Hs Hin) as Ht.
      rewrite Ht in Hstatus, Happroved.
      exists (LoanApplication.preSave saved).
      rewrite Heq, status_preSave, approvedAmount_preSave, Hstatus, Happroved.
      pose proof (applicationTerms_preSave saved) as Hp.
      unfold applicationTerms in Hp, Hterms.
      split; [exact Hsaved|]. split; [now right|].
      repeat split; congruence. }
    change (loansDb (saveApplication saved st1)) with (loansDb st1).
    destruct target;
      try (replace (loansDb st1) with (loansDb st)
             by (rewrite Hst1; reflexivity);
           exact Hold).
    destruct (createLoanFromApplication_backed st saved now st1 before Hst1)
      as (loan & -> & Happ & H1 & H2 & H3 & H4);
      [now rewrite Hid|].
    { apply Forall_app. split; [exact Hold|].
      constructor; [|constructor].
      exists (LoanApplication.preSave saved).
      rewrite Happ, Hid, status_preSave, approvedAmount_preSave, Hstatus,
        Happroved.
      pose proof (applicationTerms_preSave saved) as Hp.
      unfold applicationTerms in Hp, Hterms.
      split; [exact Hsaved|]. split; [now left|].
      repeat split; congruence. }
  - apply recordPayment_Ok in H.
    destruct H as (loan & i & emi & loan' & Hloan & _ & _ & _ & -> & Hterms
                   & _ & _ & _ & _ & _ & _ & _ & _ & _ & _ & Happs & _).
    apply Forall_saveDoc; [now apply Hkeep|].
    apply (loanBacked_terms st st' loan loan' Happs Hterms).
    rewrite Forall_forall in Hl. apply Hl. eapply findById_In; eauto.
  - unfold updateLoanStatus in H.
    destruct (findById _ loanId (loansDb st)) as [loan|] eqn:Hloan;
      [|discriminate].
    destruct (lookupName _ _ status) as [s|]; [|discriminate].
    injection H as <-. cbn [loansDb with_loans].
    apply Forall_saveDoc; [now apply Hkeep|].
    rewrite Forall_forall in Hl.
    pose proof (Hl loan (findById_In _ _ _ _ Hloan)) as Hb.
    eapply loanBacked_terms; [| |exact Hb]; [reflexivity|].
    destruct (LoanStatus_eqb s loan_closed); now destruct loan.
  - injection H as <-. cbn [fst markOverdueEmis loansDb with_loans].
    apply Forall_forall. intros x Hx. apply in_map_iff in Hx.
    destruct Hx as (y & <- & Hy).
    eapply loanBacked_terms;
      [| apply (proj1 (sweepLoan_terms now y))
       | rewrite Forall_forall in Hl; now apply Hl].
    reflexivity.
Qed.

(** X17: every loan is backed by its application.  In every store that the
    requests can produce, the application of every loan is in the store and
    is disbursed or closed, and the loan has the amount (the approved
    amount, or the requested amount when none or zero was approved), the
    tenure, the interest rate and the collateral value of that
    application: after disbursal neither side of these figures is written
    again. *)
Theorem loans_backed_by_applications (products : list LoanProduct.t)
    (st : Store) :
  reachable products st -> Forall (loanBacked st) (loansDb st).
Proof.
  induction 1 as [|st r now st' _ IH H|st r now st' e _ IH H];
    [constructor | eapply loanBacked_handle; eauto |].
  apply handle_Failed in H. destruct H as (_ & loanId & ->).
  cbn [loansDb with_collaterals].
  eapply Forall_impl; [|exact IH]. intros loan.
  now apply loanBacked_apps.
Qed.

Lemma loans_backed_by_applications_witness :
  Forall (loanBacked closedLoanStore) (loansDb closedLoanStore).
Proof.
  apply (loans_backed_by_applications [demoProduct] closedLoanStore).
  apply (runAll_reachable [demoProduct]
           (untilDisbursed ++ payments [1; 2; 3; 4; 5; 6])
           (initialStore [demoProduct]));
    [constructor | vm_compute; reflexivity].
Defined.

(** X18: the guard of the release.  For a collateral of the store that
    carries a lien, [releaseLien] is refused with [ActiveLoanBlock], leaving
    the store as it is, exactly when the collateral is linked to a loan of
    the store whose status is active; in every other case (no loan link, a
    link to no loan of the store, or a loan that is overdue, closed,
    defaulted or restructured) the release succeeds. *)
Theorem releaseLien_guard (st : Store) (id : ObjectId) (now : Date)
    (c : Collateral.t) :
  findById Collateral._id id (collateralsDb st) = Some c ->
  Collateral.lienStatus c = lien_marked ->
  (run st (ReleaseLien id) now = (st, Some ActiveLoanBlock)
   <-> exists loanId loan,
         Collateral.linkedLoan c = Some loanId
         /\ findById Loan._id loanId (loansDb st) = Some loan
         /\ Loan.status loan = loan_active)
  /\ (run st (ReleaseLien id) now = (st, Some ActiveLoanBlock)
      \/ exists st', run st (ReleaseLien id) now = (st', None)).
Proof.
  intros Hc Hm. unfold run, handle, releaseLien. rewrite Hc, Hm. cbn [negb
    LienStatus_eqb].
  destruct (Collateral.linkedLoan c) as [loanId|].
  - destruct (findById Loan._id loanId (loansDb st)) as [loan|] eqn:Hloan.
    + destruct (LoanStatus_eqb (Loan.status loan) loan_active) eqn:E.
      * split; [|left; reflexivity]. split; [|reflexivity]. intros _.
        exists loanId, loan. apply LoanStatus_eqb_eq in E.
        split; [reflexivity|]. split; [exact Hloan | exact E].
      * split; [|right; eexists; reflexivity].
        split; [discriminate|]. intros (l & x & Hl & Hx & Hs).
        injection Hl as <-. rewrite Hloan in Hx. injection Hx as <-.
        apply LoanStatus_eqb_eq in Hs. congruence.
    + split; [|right; eexists; reflexivity].
      split; [discriminate|]. intros (l & x & Hl & Hx & _).
      injection Hl as <-. rewrite Hloan in Hx. discriminate.
  - split; [|right; eexists; reflexivity].
    split; [discriminate|]. intros (l & x & Hl & _). discriminate.
Qed.

Lemma releaseLien_guard_witness :
  run disbursedStore (ReleaseLien 0%nat) jan31
  = (disbursedStore, Some ActiveLoanBlock).
Proof.
  destruct (findById Collateral._id 0%nat (collateralsDb disbursedStore))
    as [c|] eqn:Hc; [|vm_compute in Hc; discriminate].
  assert (Hm : Collateral.lienStatus c = lien_marked).
  { assert (E : option_map Collateral.lienStatus
                  (findById Collateral._id 0%nat (collateralsDb disbursedStore))
                = Some lien_marked) by (vm_compute; reflexivity).
    rewrite Hc in E. now injection E. }
  destruct (releaseLien_guard disbursedStore 0%nat jan31 c Hc Hm)
    as [_ [H | [st' H]]]; [exact H|].
  exfalso.
  assert (E : snd (run disbursedStore (ReleaseLien 0%nat) jan31)
              = Some ActiveLoanBlock) by (vm_compute; reflexivity).
  rewrite H in E. discriminate.
Defined.
